(** * CityBlocks: a shallow embedding of the location resolver, the Overpass
    fetcher, the footprint preparer, the two UI handlers, the building-info
    proxy and the API-key store, with the mesh builder, the building
    materials, the key provider and the building card.

    Conventions of the embedding.
    - A JavaScript [number] is idealised as a real number ([R]).  The only
      non-finite values the modelled code can create from finite inputs are
      the [Infinity] that initialises [bestDist] and the [NaN] of [0 / 0] in
      [computeFootprintCentroid] on an empty point list; both are represented
      by [None] at the places where they can occur.
    - A JavaScript string is a [string] of ASCII characters: [isSpace],
      [toUpperChar] and [toLowerChar] are the white space test and the case
      mappings of JavaScript on the code points below 128.  A property that
      JavaScript would not share on other characters (the no-break space is
      white space for [trim] and [\s], [toUpperCase] turns the sharp s into
      two letters) is stated for [asciiText] inputs only.
    - A thrown [Error] is its message; [Async A] threads the log of observable
      effects (HTTP requests, timer delays, console warnings).
    - The network, the Plus Code library, the LLM client and the browser are
      oracles gathered in records ([World], [Browser], ...). *)

From Stdlib Require Import Reals Lra Lia ZArith String Ascii DecimalString.
From stdpp Require Import gmap strings list.

Set Warnings "-register-all".

Abbreviation Tags := (gmap string string).

(** ** Geometry: geo <-> local meters, centroids, hero selection, fitting *)

Section GeometryDefs.
Local Open Scope R_scope.

Record Vector2 := mkVector2 { vx : R; vy : R }.

(** [{ x: number; y: number }] *)
Record XY := mkXY { cx : R; cy : R }.

Record Metadata := mkMetadata {
  centroid : option XY;   (* [None] is the centroid [{x: NaN, y: NaN}] *)
  hero : option bool;
  scale : option R
}.

Record Footprint := mkFootprint {
  pts : list Vector2;
  height : R;
  tags : Tags;
  metadata : option Metadata
}.

Definition DEG2RAD : R := PI / 180.

Definition metersPerDegreeLon (latDeg : R) : R := 111320 * cos (latDeg * DEG2RAD).

Definition metersPerDegreeLat : R := 110540.

Definition llToLocalMeters (lat0 lon0 lat lon : R) : R * R :=
  let mx := (lon - lon0) * metersPerDegreeLon lat0 in
  let my := (lat - lat0) * metersPerDegreeLat in
  (mx, my).

(** [Math.hypot(dx, dy)] *)
Definition hypot (dx dy : R) : R := sqrt (dx * dx + dy * dy).

(** [THREE.Vector2.distanceTo] *)
Definition distanceTo (a b : Vector2) : R := hypot (vx a - vx b) (vy a - vy b).

(** The two running sums of [computeFootprintCentroid]. *)
Definition sumXY (l : list Vector2) : R * R :=
  fold_left (fun acc pt => (fst acc + vx pt, snd acc + vy pt)) l (0, 0).

(** [{ x: sumX / count, y: sumY / count }]; with no point both quotients are
    [0 / 0], the [NaN] centroid [None]. *)
Definition computeFootprintCentroid (l : list Vector2) : option XY :=
  let '(sumX, sumY) := sumXY l in
  let count := length l in
  match count with
  | O => None
  | _ => Some (mkXY (sumX / INR count) (sumY / INR count))
  end.

Record PrimarySelection := mkSelection {
  index : nat;
  selCentroid : XY
}.

(** The three variables the [forEach] callback of [selectPrimaryFootprint]
    closes over; [bestDist = None] is [Infinity]. *)
Record Best := mkBest {
  bestIndex : nat;
  bestDist : option R;
  bestCentroid : XY
}.

(** [dist < bestDist] *)
Definition ltBest (dist : R) (best : option R) : bool :=
  match best with
  | None => true
  | Some b => if Rlt_dec dist b then true else false
  end.

(** [centroid.x * centroid.x + centroid.y * centroid.y] *)
Definition originDistSq (c : XY) : R := cx c * cx c + cy c * cy c.

(** The body of the [forEach] callback; a [NaN] distance compares false. *)
Definition considerFootprint (b : Best) (idx : nat) (fp : Footprint) : Best :=
  match computeFootprintCentroid (pts fp) with
  | None => b
  | Some c =>
      let dist := originDistSq c in
      if ltBest dist (bestDist b) then mkBest idx (Some dist) c else b
  end.

(** [arr.forEach((x, idx) => ...)] from index [idx] on, threading the closed-over state. *)
Fixpoint forEachFrom {A St : Type} (f : St -> nat -> A -> St) (idx : nat) (l : list A) (s : St) : St :=
  match l with
  | [] => s
  | x :: rest => forEachFrom f (S idx) rest (f s idx x)
  end.

Definition selectPrimaryFootprint (footprints : list Footprint) : option PrimarySelection :=
  match footprints with
  | [] => None
  | _ =>
      let b := forEachFrom considerFootprint 0%nat footprints
                 (mkBest 0%nat None (mkXY 0 0)) in
      Some (mkSelection (bestIndex b) (bestCentroid b))
  end.

(** The [reduce] of [prepareFootprints], seeded with the floor [1]. *)
Definition maxRadiusOf (c : XY) (l : list Vector2) : R :=
  fold_left (fun acc pt => Rmax acc (hypot (vx pt - cx c) (vy pt - cy c))) l 1.

Definition fitScaleOf (platformSize maxRadius : R) : R :=
  let margin := platformSize * 0.35 in
  if Rlt_dec 0 maxRadius then margin / maxRadius else 1.

Definition centerPts (c : XY) (fitScale : R) (l : list Vector2) : list Vector2 :=
  map (fun pt => mkVector2 ((vx pt - cx c) * fitScale) ((vy pt - cy c) * fitScale)) l.

(** The callback of the final [footprints.map]; [...fp] keeps [tags], and the
    three fields of [metadata] overwrite whatever [...fp.metadata] held. *)
Definition prepareOne (selection : PrimarySelection) (fitScale : R)
    (idx : nat) (fp : Footprint) : Footprint :=
  let centered := centerPts (selCentroid selection) fitScale (pts fp) in
  mkFootprint centered (height fp * fitScale) (tags fp)
    (Some (mkMetadata
             (if Nat.eqb idx (index selection) then Some (mkXY 0 0)
              else computeFootprintCentroid centered)
             (Some (Nat.eqb idx (index selection)))
             (Some fitScale))).

(** [footprints[selection.index].pts]; the index is always in range
    (lemma [selectPrimaryFootprint_index]). *)
Definition heroPts (footprints : list Footprint) (selection : PrimarySelection) : list Vector2 :=
  match footprints !! index selection with
  | Some fp => pts fp
  | None => []
  end.

Definition prepareFootprints (footprints : list Footprint) (platformSize : R) : list Footprint :=
  match selectPrimaryFootprint footprints with
  | None => []
  | Some selection =>
      let maxRadius := maxRadiusOf (selCentroid selection) (heroPts footprints selection) in
      let fitScale := fitScaleOf platformSize maxRadius in
      imap (prepareOne selection fitScale) footprints
  end.

(** Specification-side notions used to state the geometric claims. *)

(** Euclidean distance of a centroid from the query point (the origin). *)
Definition originDist (c : XY) : R := hypot (cx c) (cy c).

Definition sumR (l : list R) : R := foldr Rplus 0 l.

(** Largest distance of a vertex from [c]; [0] for no vertex. *)
Definition maxVertexDist (c : XY) (l : list Vector2) : R :=
  foldr (fun pt acc => Rmax (hypot (vx pt - cx c) (vy pt - cy c)) acc) 0 l.

Definition isHero (fp : Footprint) : bool :=
  match metadata fp with
  | Some m => match hero m with Some true => true | _ => false end
  | None => false
  end.


Definition recordedCentroid (fp : Footprint) : option XY :=
  match metadata fp with Some m => centroid m | None => None end.

Definition recordedScale (fp : Footprint) : option R :=
  match metadata fp with Some m => scale m | None => None end.

End GeometryDefs.

(** ** Strings: the built-ins the code calls, on ASCII strings *)

Definition chars (s : string) : list ascii := list_ascii_of_string s.
Definition str (l : list ascii) : string := string_of_list_ascii l.

(** [\s] and the characters [trim] strips, among the ASCII characters: tab,
    line feed, vertical tab, form feed, carriage return and space. *)
Definition isSpace (c : ascii) : bool :=
  let n := nat_of_ascii c in
  ((9 <=? n) && (n <=? 13)) || (n =? 32).

(** [\d] *)
Definition isDigit (c : ascii) : bool :=
  let n := nat_of_ascii c in (48 <=? n) && (n <=? 57).

(** [toUpperCase] and [toLowerCase] on one ASCII character: only the
    letters [a]-[z] and [A]-[Z] change. *)
Definition toUpperChar (c : ascii) : ascii :=
  let n := nat_of_ascii c in
  if (97 <=? n) && (n <=? 122) then ascii_of_nat (n - 32) else c.

Definition toLowerChar (c : ascii) : ascii :=
  let n := nat_of_ascii c in
  if (65 <=? n) && (n <=? 90) then ascii_of_nat (n + 32) else c.

Definition toUpperCase (s : string) : string := str (map toUpperChar (chars s)).
Definition toLowerCase (s : string) : string := str (map toLowerChar (chars s)).

Fixpoint skipSpaces (l : list ascii) : list ascii :=
  match l with
  | c :: rest => if isSpace c then skipSpaces rest else l
  | [] => []
  end.

Definition trimChars (l : list ascii) : list ascii :=
  rev (skipSpaces (rev (skipSpaces l))).

Definition trim (s : string) : string := str (trimChars (chars s)).

Fixpoint isPrefixOf (p l : list ascii) : bool :=
  match p, l with
  | [], _ => true
  | a :: p', b :: l' => if Ascii.eqb a b then isPrefixOf p' l' else false
  | _ :: _, [] => false
  end.

(** [s.indexOf(sub)] counted from position [i]; [None] is [-1]. *)
Fixpoint indexOfFrom (sub l : list ascii) (i : nat) : option nat :=
  if isPrefixOf sub l then Some i
  else match l with
       | [] => None
       | _ :: rest => indexOfFrom sub rest (S i)
       end.

Definition indexOf (s sub : string) : option nat := indexOfFrom (chars sub) (chars s) 0.

Definition includes (s sub : string) : bool :=
  match indexOf s sub with Some _ => true | None => false end.

(** [s.replace(pat, rep)] with a string pattern: the first occurrence only. *)
Definition replaceFirst (s pat rep : string) : string :=
  match indexOf s pat with
  | None => s
  | Some i => str (take i (chars s) ++ chars rep ++ drop (i + String.length pat) (chars s))
  end.

(** [s.split(/\s+/)]: [cur] is the token being read (reversed), [inSep]
    holds while a run of white space is being skipped. *)
Fixpoint splitSpacesAux (l cur : list ascii) (inSep : bool) : list string :=
  match l with
  | [] => [str (rev cur)]
  | c :: rest =>
      if isSpace c then
        if inSep then splitSpacesAux rest cur true
        else str (rev cur) :: splitSpacesAux rest [] true
      else splitSpacesAux rest (c :: cur) false
  end.

Definition splitSpaces (s : string) : list string := splitSpacesAux (chars s) [] false.

(** [s.split(sep)] for a one-character separator. *)
Fixpoint splitCharAux (sep : ascii) (l cur : list ascii) : list string :=
  match l with
  | [] => [str (rev cur)]
  | c :: rest =>
      if Ascii.eqb c sep then str (rev cur) :: splitCharAux sep rest []
      else splitCharAux sep rest (c :: cur)
  end.

Definition splitChar (sep : ascii) (s : string) : list string := splitCharAux sep (chars s) [].

(** [s.replace(/m$/i, "")] *)
Definition dropTrailingM (s : string) : string :=
  match rev (chars s) with
  | c :: rest => if Ascii.eqb (toLowerChar c) "m" then str (rev rest) else s
  | [] => s
  end.

Definition showZ (n : Z) : string := NilZero.string_of_int (Z.to_int n).
Definition showNat (n : nat) : string := showZ (Z.of_nat n).

Fixpoint spanDigits (l : list ascii) : list ascii * list ascii :=
  match l with
  | c :: rest =>
      if isDigit c then let '(ds, tl) := spanDigits rest in (c :: ds, tl) else ([], l)
  | [] => ([], [])
  end.

Definition digitVal (c : ascii) : Z := Z.of_nat (nat_of_ascii c) - 48.

Definition digitsVal (ds : list ascii) : Z :=
  fold_left (fun acc c => (10 * acc + digitVal c)%Z) ds 0%Z.

Section ParseFloat.
Local Open Scope R_scope.

(** The value of the digits [int], the fraction digits [frac] and the power of ten [e]. *)
Definition decimalValue (neg : bool) (int frac : list ascii) (e : Z) : R :=
  let m := IZR (digitsVal int) + IZR (digitsVal frac) / 10 ^ length frac in
  (if neg then - m else m) * powerRZ 10 e.

(** The exponent part [[eE][+-]?\d+] of a decimal literal, when one follows. *)
Definition parseExponent (l : list ascii) : Z :=
  match l with
  | c :: rest =>
      if Ascii.eqb (toLowerChar c) "e" then
        let '(neg, rest') :=
          match rest with
          | "-"%char :: r => (true, r)
          | "+"%char :: r => (false, r)
          | _ => (false, rest)
          end in
        let '(ds, _) := spanDigits rest' in
        match ds with
        | [] => 0%Z
        | _ => if neg then (- digitsVal ds)%Z else digitsVal ds
        end
      else 0%Z
  | [] => 0%Z
  end.

(** [parseFloat]: the longest prefix (after leading white space) that reads as
    a decimal literal; [None] is [NaN].  The literal [Infinity] has no real
    value: the embedding reads it as [None], so a property of a parsed
    number is stated only where the code gives a finite number or [NaN], or
    where the difference cannot be seen. *)
Definition parseFloat (s : string) : option R :=
  let l := skipSpaces (chars s) in
  let '(neg, l1) :=
    match l with
    | "-"%char :: r => (true, r)
    | "+"%char :: r => (false, r)
    | _ => (false, l)
    end in
  let '(int, l2) := spanDigits l1 in
  let '(frac, l3) :=
    match l2 with
    | "."%char :: r => spanDigits r
    | _ => ([], l2)
    end in
  match int, frac with
  | [], [] => None
  | _, _ => Some (decimalValue neg int frac (parseExponent l3))
  end.

End ParseFloat.

(** ** Errors, effects and the outside world *)

(** The outcome of a call that may throw; a thrown [Error] is its message
    ([normalizeError] turns any thrown value into one). *)
Inductive Result (A : Type) : Type :=
| Ok (a : A)
| Thrown (message : string).
Arguments Ok {A} a.
Arguments Thrown {A} message.

(** The bounding box interpolated into the Overpass QL query. *)
Record OverpassQuery := mkQuery { south : R; west : R; north : R; east : R }.

(** Observable effects, in the order they happen. *)
Inductive Event : Type :=
| EvPost (url : string) (query : OverpassQuery)  (* [fetch(url, {method: "POST", body})] *)
| EvGeocode (query : string)                     (* the Nominatim [fetch] for [query] *)
| EvSleep (ms : Z)                               (* [await new Promise(r => setTimeout(r, ms))] *)
| EvWarn (message : string).                     (* [console.warn] *)

Record OverpassCoordinate := mkCoord { coordLat : R; coordLon : R }.

Record OverpassElement := mkElement {
  elType : string;
  geometry : option (list OverpassCoordinate);
  elTags : option Tags
}.

Record OverpassResponse := mkOverpassResponse {
  elements : option (list OverpassElement)
}.

(** A settled [fetch]: the status and what [await res.json()] gives. *)
Record HttpResponse (Body : Type) := mkResponse {
  status : Z;
  json : Result Body
}.
Arguments mkResponse {Body} status json.
Arguments status {Body} h.
Arguments json {Body} h.

(** [res.ok] *)
Definition resOk {Body : Type} (res : HttpResponse Body) : bool :=
  ((200 <=? status res) && (status res <=? 299))%Z.

Record LatLon := mkLatLon { lat : R; lon : R }.

(** The body of a Nominatim answer: an array of places (with the numbers
    [parseFloat] reads from their [lat] and [lon]) or some other JSON value. *)
Inductive NominatimJson : Type :=
| JsonPlaces (places : list LatLon)
| JsonOther.

(** Everything outside the program.  [overpass n url] answers the [n]-th POST
    of a call (counted from 0) when it goes to [url]; [Thrown] is a rejected
    [fetch].  The three [olc*] fields are the open-location-code library.
    [random i] is the draw of [Math.random()] for element [i]. *)
Record World := mkWorld {
  overpass : nat -> string -> Result (HttpResponse OverpassResponse);
  nominatim : string -> Result (HttpResponse NominatimJson);
  olcRecoverNearest : string -> R -> R -> Result string;
  olcDecode : string -> Result LatLon;   (* [latitudeCenter], [longitudeCenter] of the decoded area *)
  olcIsValid : string -> bool;
  random : nat -> R;
  toFixed6 : R -> string                 (* [n.toFixed(6)] *)
}.

(** An async function: it extends the log of effects and returns or throws. *)
Definition Async (A : Type) : Type := list Event -> list Event * Result A.

Definition ret {A : Type} (a : A) : Async A := fun log => (log, Ok a).

Definition throw {A : Type} (message : string) : Async A := fun log => (log, Thrown message).

Definition emit (e : Event) : Async unit := fun log => (log ++ [e], Ok tt).

Definition bind {A B : Type} (m : Async A) (k : A -> Async B) : Async B :=
  fun log =>
    match m log with
    | (log', Ok a) => k a log'
    | (log', Thrown message) => (log', Thrown message)
    end.

(** [try { m } catch (error) { handler(normalizeError(error).message) }] *)
Definition tryCatch {A : Type} (m : Async A) (handler : string -> Async A) : Async A :=
  fun log =>
    match m log with
    | (log', Ok a) => (log', Ok a)
    | (log', Thrown message) => handler message log'
    end.

Definition liftResult {A : Type} (r : Result A) : Async A := fun log => (log, r).

Notation "'let!' x ':=' m 'in' k" := (bind m (fun x => k))
  (at level 10, x name, m at level 100, k at level 200).
Notation "'do!' m 'in' k" := (bind m (fun _ => k))
  (at level 10, m at level 100, k at level 200).

(** Run an async function from an empty log. *)
Definition run {A : Type} (m : Async A) : list Event * Result A := m [].

(** ** Overpass fetching for buildings *)

Record Endpoint := mkEndpoint { url : string; label : string }.

Definition OVERPASS_ENDPOINTS : list Endpoint :=
  [ mkEndpoint "https://overpass-api.de/api/interpreter" "de";
    mkEndpoint "https://overpass.kumi.systems/api/interpreter" "kumi";
    mkEndpoint "https://overpass.openstreetmap.ru/api/interpreter" "ru" ].

Section OverpassDefs.
Local Open Scope R_scope.

(** A present, non-empty string property. *)
Definition truthyTag (tags : Tags) (key : string) : option string :=
  match tags !! key with
  | Some v => if String.eqb v "" then None else Some v
  | None => None
  end.

(** The height of a building from its tags; [i] selects the random draw. *)
Definition heightFromTags (w : World) (i : nat) (tags : Tags) : R :=
  let heightM : option R :=
    match truthyTag tags "height" with
    | Some h => parseFloat (dropTrailingM h)
    | None => None
    end in
  let heightM : option R :=
    match heightM, truthyTag tags "building:levels" with
    | None, Some lv =>
        match parseFloat lv with
        | Some levels => Some (Rmax 3 (Rmin 60 (levels * 3)))
        | None => None
        end
    | _, _ => heightM
    end in
  match heightM with
  | Some h => h
  | None =>
      let t := toLowerCase (default ""%string (truthyTag tags "building")) in
      if includes t "house" || includes t "residential" then 9 + random w i * 6
      else if includes t "garage" then 4 + random w i * 2
      else 12 + random w i * 18
  end.

(** [if (pts[0].distanceTo(pts[pts.length - 1]) > 0.01) pts.push(pts[0].clone())] *)
Definition closeRing (l : list Vector2) : list Vector2 :=
  match l, last l with
  | first :: _, Some final =>
      if Rgt_dec (distanceTo first final) 0.01 then l ++ [first] else l
  | _, _ => l
  end.

(** [el.geometry.map(coord => new THREE.Vector2(...llToLocalMeters(lat, lon, coord.lat, coord.lon)))] *)
Definition projectGeometry (lat0 lon0 : R) (geom : list OverpassCoordinate) : list Vector2 :=
  map (fun coord =>
         let '(x, y) := llToLocalMeters lat0 lon0 (coordLat coord) (coordLon coord) in
         mkVector2 x y) geom.

(** One turn of the loop over [elements]: [None] is [continue]. *)
Definition footprintOfElement (w : World) (lat0 lon0 : R) (i : nat)
    (el : OverpassElement) : option Footprint :=
  if negb (String.eqb (elType el) "way") then None
  else match geometry el with
       | None => None
       | Some geom =>
           if (length geom <? 3)%nat then None
           else
             let l := projectGeometry lat0 lon0 geom in
             let l := closeRing l in
             let tags := default ∅ (elTags el) in
             Some (mkFootprint l (heightFromTags w i tags) tags None)
       end.

Definition footprintsOfResponse (w : World) (lat0 lon0 : R) (data : OverpassResponse)
    : list Footprint :=
  omap (fun fp => fp) (imap (footprintOfElement w lat0 lon0) (default [] (elements data))).

Definition queryFor (lat0 lon0 sizeMeters : R) : OverpassQuery :=
  let half := sizeMeters / 2 in
  let dLat := half / metersPerDegreeLat in
  let dLon := half / metersPerDegreeLon lat0 in
  mkQuery (lat0 - dLat) (lon0 - dLon) (lat0 + dLat) (lon0 + dLon).

End OverpassDefs.

(** The variables of [fetchBuildings] that outlive one attempt. *)
Record FetchState := mkFetchState {
  fetchLog : list Event;
  lastError : option string
}.

Definition countPosts (log : list Event) : nat :=
  length (List.filter (fun e => match e with EvPost _ _ => true | _ => false end) log).

Definition logEvent (e : Event) (st : FetchState) : FetchState :=
  mkFetchState (fetchLog st ++ [e]) (lastError st).

(** The timer delay [2000 * (attempt + 1)] *)
Definition backoffMs (attempt : nat) : Z := 2000 * (Z.of_nat attempt + 1).

Definition isRetryStatus (st : Z) : bool :=
  ((st =? 504) || (st =? 429) || (st =? 503))%Z.

(** The text of the [console.warn] of a failed attempt. *)
Definition attemptFailedText (endpoint : Endpoint) (attempt : nat) (message : string) : string :=
  "Attempt " ++ showNat (attempt + 1) ++ " on " ++ label endpoint
  ++ " endpoint failed: " ++ message.

(** The [catch] block of an attempt. *)
Definition catchAttempt (endpoint : Endpoint) (attempt : nat) (message : string)
    (st : FetchState) : FetchState :=
  let st1 := mkFetchState
               (fetchLog st ++ [EvWarn (attemptFailedText endpoint attempt message)])
               (Some message) in
  if (attempt <? 1)%nat then logEvent (EvSleep (backoffMs attempt)) st1 else st1.

(** The body of the inner [for]: [Some] is [return footprints], [None] falls
    to the next turn (by [continue] or out of the [catch] block). *)
Definition attemptEndpoint (w : World) (lat0 lon0 : R) (query : OverpassQuery)
    (endpoint : Endpoint) (attempt : nat) (st : FetchState)
    : FetchState * option (list Footprint) :=
  let n := countPosts (fetchLog st) in
  let st1 := logEvent (EvPost (url endpoint) query) st in
  match overpass w n (url endpoint) with
  | Thrown message => (catchAttempt endpoint attempt message st1, None)
  | Ok res =>
      if negb (resOk res) then
        if isRetryStatus (status res) then
          (logEvent (EvSleep (backoffMs attempt)) st1, None)
        else
          (catchAttempt endpoint attempt ("Overpass API returned " ++ showZ (status res)) st1, None)
      else
        match json res with
        | Thrown message => (catchAttempt endpoint attempt message st1, None)
        | Ok data => (st1, Some (footprintsOfResponse w lat0 lon0 data))
        end
  end.

(** [for (let attempt = ...; attempt < 2; attempt++)] over the attempts left. *)
Fixpoint attemptLoop (w : World) (lat0 lon0 : R) (query : OverpassQuery)
    (endpoint : Endpoint) (attempts : list nat) (st : FetchState)
    : FetchState * option (list Footprint) :=
  match attempts with
  | [] => (st, None)
  | attempt :: rest =>
      match attemptEndpoint w lat0 lon0 query endpoint attempt st with
      | (st', Some footprints) => (st', Some footprints)
      | (st', None) => attemptLoop w lat0 lon0 query endpoint rest st'
      end
  end.

(** [for (let endpointIdx = ...)] over the endpoints left. *)
Fixpoint endpointLoop (w : World) (lat0 lon0 : R) (query : OverpassQuery)
    (endpoints : list Endpoint) (st : FetchState)
    : FetchState * option (list Footprint) :=
  match endpoints with
  | [] => (st, None)
  | endpoint :: rest =>
      match attemptLoop w lat0 lon0 query endpoint [0; 1]%nat st with
      | (st', Some footprints) => (st', Some footprints)
      | (st', None) => endpointLoop w lat0 lon0 query rest st'
      end
  end.

(** [lastError?.message || "unknown"] *)
Definition lastErrorText (e : option string) : string :=
  match e with
  | Some m => if String.eqb m "" then "unknown" else m
  | None => "unknown"
  end.

Definition fetchBuildings (w : World) (lat0 lon0 sizeMeters : R) : Async (list Footprint) :=
  fun log =>
    let query := queryFor lat0 lon0 sizeMeters in
    match endpointLoop w lat0 lon0 query OVERPASS_ENDPOINTS (mkFetchState [] None) with
    | (st, Some footprints) => (log ++ fetchLog st, Ok footprints)
    | (st, None) =>
        (log ++ fetchLog st,
         Thrown ("Building data unavailable (last error: " ++ lastErrorText (lastError st)
                 ++ "). Try again in a minute or reduce the search area."))
    end.

(** ** Geocoding utilities (Plus Codes + Nominatim) *)

(** One number of [LATLON_RE], [-?\d+(?:\.\d+)?]: the text matched and what follows it. *)
Definition matchNumber (l : list ascii) : option (list ascii * list ascii) :=
  let '(sign, l1) :=
    match l with
    | "-"%char :: r => (["-"%char], r)
    | _ => ([], l)
    end in
  let '(int, l2) := spanDigits l1 in
  match int with
  | [] => None
  | _ =>
      match l2 with
      | "."%char :: r =>
          let '(frac, l3) := spanDigits r in
          match frac with
          | [] => Some (sign ++ int, l2)
          | _ => Some (sign ++ int ++ "."%char :: frac, l3)
          end
      | _ => Some (sign ++ int, l2)
      end
  end.

(** [input.match(LATLON_RE)] with
    [LATLON_RE = /^\s*(-?\d+(?:\.\d+)?)\s*,\s*(-?\d+(?:\.\d+)?)\s*$/]:
    the two captured groups.  Every quantifier of the expression is followed
    by a character it cannot match, so the greedy reading is the only one. *)
Definition matchLatLon (input : string) : option (string * string) :=
  match matchNumber (skipSpaces (chars input)) with
  | None => None
  | Some (m1, l1) =>
      match skipSpaces l1 with
      | ","%char :: l2 =>
          match matchNumber (skipSpaces l2) with
          | None => None
          | Some (m2, l3) =>
              match skipSpaces l3 with
              | [] => Some (str m1, str m2)
              | _ => None
              end
          end
      | _ => None
      end
  end.

(** A character of [[2-9CFGHJMPQRVWX+]] *)
Definition isPlusCodeChar (c : ascii) : bool :=
  let n := nat_of_ascii c in
  ((50 <=? n) && (n <=? 57)) ||
  existsb (Ascii.eqb c)
    ["C"; "F"; "G"; "H"; "J"; "M"; "P"; "Q"; "R"; "V"; "W"; "X"; "+"]%char.

Definition extractPlusCode (s : string) : option string :=
  if String.eqb s "" then None
  else
    match List.find (fun t => includes t "+") (splitSpaces s) with
    | None => None
    | Some token =>
        let cleaned := str (List.filter isPlusCodeChar (chars (toUpperCase token))) in
        if negb (includes cleaned "+") then None
        else
          match splitChar "+" cleaned with
          | a :: b :: _ =>
              if (2 <=? String.length a)%nat && (2 <=? String.length b)%nat
              then Some (a ++ "+" ++ b)%string
              else None
          | _ => None
          end
    end.

Definition geocodeNominatim (w : World) (query : string) : Async LatLon :=
  do! emit (EvGeocode query) in
  match nominatim w query with
  | Thrown message => throw message
  | Ok res =>
      if negb (resOk res) then throw ("Nominatim error " ++ showZ (status res))
      else
        match json res with
        | Thrown message => throw message
        | Ok (JsonPlaces (place :: _)) => ret place
        | Ok _ => throw "No results from Nominatim"
        end
  end.

Definition decodePlusCode (w : World) (code : string) (refLat refLon : R) : Result LatLon :=
  if (String.length code <=? 8)%nat
     || (includes code "+"
         && match indexOf code "+" with Some i => (i <=? 4)%nat | None => true end)
  then
    match olcRecoverNearest w code refLat refLon with
    | Thrown message => Thrown message
    | Ok fullCode => olcDecode w fullCode
    end
  else if negb (olcIsValid w code) then Thrown ("Invalid Plus Code: " ++ code)
  else olcDecode w code.

(** [!input || !input.trim()] *)
Definition isBlank (input : string) : bool :=
  String.eqb input "" || String.eqb (trim input) "".

Definition resolveLocationString (w : World) (input : string) (fallbackLat fallbackLon : R)
    : Async LatLon :=
  if isBlank input then throw "Empty location query"
  else
    (* 1) lat,lon *)
    match matchLatLon input with
    | Some (m1, m2) =>
        match parseFloat m1, parseFloat m2 with
        | Some la, Some lo => ret (mkLatLon la lo)
        | _, _ => ret (mkLatLon 0 0)   (* [NaN]: not reached, see [matchLatLon_parseFloat] *)
        end
    | None =>
        (* 2) Plus Code pathway *)
        match extractPlusCode input with
        | Some code =>
            let locality := trim (replaceFirst input code "") in
            let fallback := mkLatLon fallbackLat fallbackLon in
            let! ref :=
              if (0 <? String.length locality)%nat
              then tryCatch (geocodeNominatim w locality) (fun _ => ret fallback)
              else ret fallback in
            liftResult (decodePlusCode w code (lat ref) (lon ref))
        | None =>
            (* 3) Plain address -> Nominatim *)
            geocodeNominatim w input
        end
    end.

(** ** The App component: state and the two handlers *)

Record AppState := mkAppState {
  locQuery : string;
  stLat : R;
  stLon : R;
  size : R;
  footprints : list Footprint;
  loading : bool;
  error : option string;
  renderKey : nat
}.

(** The state setters a handler calls, in order. *)
Inductive Update : Type :=
| SetLoading (b : bool)
| SetError (e : option string)
| SetLat (x : R)
| SetLon (x : R)
| SetLocQuery (q : string)
| SetFootprints (fps : list Footprint)
| BumpRenderKey.                       (* [setRenderKey((k) => k + 1)] *)

Definition applyUpdate (s : AppState) (u : Update) : AppState :=
  match u with
  | SetLoading b =>
      mkAppState (locQuery s) (stLat s) (stLon s) (size s) (footprints s) b (error s) (renderKey s)
  | SetError e =>
      mkAppState (locQuery s) (stLat s) (stLon s) (size s) (footprints s) (loading s) e (renderKey s)
  | SetLat x =>
      mkAppState (locQuery s) x (stLon s) (size s) (footprints s) (loading s) (error s) (renderKey s)
  | SetLon x =>
      mkAppState (locQuery s) (stLat s) x (size s) (footprints s) (loading s) (error s) (renderKey s)
  | SetLocQuery q =>
      mkAppState q (stLat s) (stLon s) (size s) (footprints s) (loading s) (error s) (renderKey s)
  | SetFootprints fps =>
      mkAppState (locQuery s) (stLat s) (stLon s) (size s) fps (loading s) (error s) (renderKey s)
  | BumpRenderKey =>
      mkAppState (locQuery s) (stLat s) (stLon s) (size s) (footprints s) (loading s) (error s)
        (S (renderKey s))
  end.

Definition applyUpdates (s : AppState) (us : list Update) : AppState :=
  fold_left applyUpdate us s.

(** [normalizedError.message || fallbackText] *)
Definition messageOr (message fallbackText : string) : string :=
  if String.eqb message "" then fallbackText else message.

Section Handlers.
Local Open Scope R_scope.

(** The effects of one click on "Center" and the setter calls it makes. *)
Definition handleLocate (w : World) (s : AppState) : list Event * list Update :=
  let '(log, r) := run (resolveLocationString w (locQuery s) (stLat s) (stLon s)) in
  (log,
   [SetLoading true; SetError None]
   ++ match r with
      | Ok p =>
          [SetLat (lat p); SetLon (lon p);
           SetLocQuery (toFixed6 w (lat p) ++ ", " ++ toFixed6 w (lon p))%string]
      | Thrown message => [SetError (Some (messageOr message "Failed to geocode location."))]
      end
   ++ [SetLoading false]).

(** The effects of one click on "Fetch" and the setter calls it makes. *)
Definition handleRender (w : World) (s : AppState) : list Event * list Update :=
  let '(log1, r1) := run (resolveLocationString w (locQuery s) (stLat s) (stLon s)) in
  match r1 with
  | Thrown message =>
      (log1,
       [SetLoading true; SetError None;
        SetError (Some (messageOr message "Failed to fetch building data."));
        SetLoading false])
  | Ok p =>
      let '(log2, r2) := fetchBuildings w (lat p) (lon p) (size s) log1 in
      (log2,
       [SetLoading true; SetError None; SetLat (lat p); SetLon (lon p)]
       ++ match r2 with
          | Ok fetchedFootprints =>
              [SetFootprints (prepareFootprints fetchedFootprints (size s * 0.4));
               BumpRenderKey]
          | Thrown message =>
              [SetError (Some (messageOr message "Failed to fetch building data."))]
          end
       ++ [SetLoading false])
  end.

End Handlers.

(** ** The building-info proxy route and the [useAI] hook *)

Module Ai.

Record BuildingInfo := mkBuildingInfo {
  lat : R;
  lon : R;
  building_type : string;
  name : option string;
  addr_street : option string;
  addr_housenumber : option string;
  addr_city : option string;
  height : option R;
  levels : option Z;
  tags : Tags
}.

(** The JSON bodies the route sends: every property it ever sets. *)
Record Body := mkBody {
  error : option string;
  bodyName : option string;
  description : option string;
  original_tags : option Tags
}.

(** The chat-completion client: [chat system user] is
    [response.choices[0]?.message?.content] of a completion, or throws;
    [showNumber] prints a number inside a template literal. *)
Record Llm := mkLlm {
  chat : string -> string -> Result (option string);
  showNumber : R -> string;
  showInt : Z -> string
}.

Record Request := mkRequest {
  reqJson : Result (option BuildingInfo);   (* [await c.req.json()], then [.building] *)
  headerKey : option string                 (* [c.req.header("x-openai-key")] *)
}.

Record Env := mkEnv { OPENAI_API_KEY : option string }.

(** A string that is present and not empty. *)
Definition truthy (o : option string) : option string :=
  match o with
  | Some s => if String.eqb s "" then None else Some s
  | None => None
  end.

(** [a || b] on optional strings *)
Definition orElse (a b : option string) : option string :=
  match truthy a with
  | Some s => Some s
  | None => b
  end.

Definition join (sep : string) (parts : list string) : string :=
  match parts with
  | [] => ""
  | p :: rest => fold_left (fun acc q => acc +:+ sep +:+ q) rest p
  end.

(** [word.charAt(0).toUpperCase() + word.slice(1)] *)
Definition capitalize (word : string) : string :=
  match word with
  | EmptyString => ""
  | String c rest => String (toUpperChar c) rest
  end.

Definition capitalizeWords (s : string) : string :=
  join " " (map capitalize (splitChar "_" s)).

Definition interestingTags : list string :=
  ["amenity"; "shop"; "cuisine"; "denomination"; "operator"; "brand"; "historic"].

Definition createBuildingContext (llm : Llm) (building : BuildingInfo) : string :=
  let parts := ["Building type: " +:+ building_type building] in
  let parts :=
    match truthy (name building) with
    | Some n => parts ++ ["Name: " +:+ n]
    | None => parts
    end in
  let parts :=
    match truthy (addr_street building) with
    | Some _ =>
        parts ++ ["Address: " +:+ join " " (omap truthy [addr_housenumber building;
                                                        addr_street building;
                                                        addr_city building])]
    | None => parts
    end in
  let parts :=
    match height building, levels building with
    | Some h, lv =>
        if Req_EM_T h 0%R
        then match lv with
             | Some l => if (l =? 0)%Z then parts
                         else parts ++ ["Levels: " +:+ showInt llm l]
             | None => parts
             end
        else parts ++ ["Height: " +:+ showNumber llm h +:+ "m"]
    | None, Some l => if (l =? 0)%Z then parts else parts ++ ["Levels: " +:+ showInt llm l]
    | None, None => parts
    end in
  let parts :=
    fold_left (fun acc tag =>
                 match truthy (tags building !! tag) with
                 | Some v => acc ++ [capitalizeWords tag +:+ ": " +:+ v]
                 | None => acc
                 end) interestingTags parts in
  join ". " parts +:+ ".".

Definition descriptionPrompt : string :=
  "You are an expert urban researcher and storyteller. Generate engaging, informative descriptions of buildings based on their properties and location. Focus on architectural details, historical context, and interesting facts. Keep responses between 80-120 words. Be creative but plausible.".

Definition namePrompt : string :=
  "Generate a creative, memorable name for a building based on its type and characteristics. Return only the name, nothing else. Keep it under 25 characters.".

Definition defaultDescription : string := "A building in the urban landscape.".

(** The user message of the naming request. *)
Definition nameQuestion (building : BuildingInfo) (buildingContext : string) : string :=
  "Building type: " +:+ building_type building +:+ ". "
  +:+ match truthy (name building) with
      | Some n => "Existing name: " +:+ n
      | None => "No existing name."
      end
  +:+ " Location context: " +:+ buildingContext.

(** [headerKey || c.env.OPENAI_API_KEY] *)
Definition apiKeyOf (env : Env) (req : Request) : option string :=
  orElse (option_map trim (headerKey req)) (truthy (OPENAI_API_KEY env)).

(** The body of the [catch] block. *)
Definition placeholder : HttpResponse Body :=
  mkResponse 500
    (Ok (mkBody (Some "Failed to generate building information")
                (Some "Unknown Building")
                (Some "A unique structure in the urban environment, contributing to the city's architectural diversity.")
                None)).

(** The [try] block of [app.post("/building-info")]: [Thrown] enters the [catch]. *)
Definition tryBuildingInfo (llm : Llm) (env : Env) (req : Request) : Result (HttpResponse Body) :=
  match reqJson req with
  | Thrown message => Thrown message
  | Ok building =>
      match apiKeyOf env req with
      | None =>
          Ok (mkResponse 500 (Ok (mkBody (Some "OpenAI API key not configured") None None None)))
      | Some _ =>
          match building with
          | None => Thrown "Cannot read properties of undefined (reading 'building_type')"
          | Some building =>
              let buildingContext := createBuildingContext llm building in
              match chat llm descriptionPrompt buildingContext with
              | Thrown message => Thrown message
              | Ok content =>
                  let description := default defaultDescription (truthy content) in
                  match chat llm namePrompt (nameQuestion building buildingContext) with
                  | Thrown message => Thrown message
                  | Ok nameContent =>
                      let generatedName :=
                        default (capitalizeWords (building_type building))
                          (orElse (option_map trim nameContent) (truthy (name building))) in
                      Ok (mkResponse 200
                            (Ok (mkBody None (Some generatedName) (Some description)
                                        (Some (tags building)))))
                  end
              end
          end
      end
  end.

Definition buildingInfoRoute (llm : Llm) (env : Env) (req : Request) : HttpResponse Body :=
  match tryBuildingInfo llm env req with
  | Ok reply => reply
  | Thrown _ => placeholder
  end.

(** The state of the hook and what [generateBuildingInfo] resolves to
    ([None] is [null]). *)
Record HookResult := mkHookResult {
  returned : option Body;
  hookLoading : bool;
  hookError : option string
}.

(** [generateBuildingInfo] given how the [fetch] of the route settled. *)
Definition generateBuildingInfo (settled : Result (HttpResponse Body)) : HookResult :=
  let attempt : Result Body :=
    match settled with
    | Thrown message => Thrown message
    | Ok response =>
        if negb (resOk response) then
          match json response with
          | Thrown message => Thrown message
          | Ok errorData =>
              Thrown (default "Failed to generate building information"
                        (truthy (error errorData)))
          end
        else json response
    end in
  match attempt with
  | Ok data => mkHookResult (Some data) false None
  | Thrown message => mkHookResult None false (Some message)
  end.

(** The request the hook sends for [building] with the stored OpenAI key. *)
Definition requestFor (openaiKey : string) (building : BuildingInfo) : Request :=
  mkRequest (Ok (Some building))
            (if String.eqb openaiKey "" then None else Some (trim openaiKey)).

(** The whole flow when the request reaches the route and its reply comes back. *)
Definition buildingInfoFlow (llm : Llm) (env : Env) (openaiKey : string)
    (building : BuildingInfo) : HookResult :=
  generateBuildingInfo (Ok (buildingInfoRoute llm env (requestFor openaiKey building))).

(** "On an LLM failure the caller receives the placeholder in place of the
    generated text." *)
Definition callerReceivesPlaceholder (r : HookResult) : Prop :=
  exists body, returned r = Some body /\
    bodyName body = Some "Unknown Building"%string /\
    description body = Some "A unique structure in the urban environment, contributing to the city's architectural diversity."%string.

End Ai.

(** ** API keys in browser storage *)

Module Keys.

(** A JavaScript value as [JSON.parse] can return it. *)
Inductive JsValue : Type :=
| JNull
| JBool (b : bool)
| JNumber (n : R)
| JString (s : string)
| JArray (items : list JsValue)
| JObject (props : gmap string JsValue).

Record ApiKeys := mkApiKeys {
  openai : string;
  gemini : string;
  huggingface : string;
  ollama : string
}.

Definition STORAGE_KEY : string := "cityblocks:apiKeys".

Definition emptyKeys : ApiKeys := mkApiKeys "" "" "" "".

(** An [ApiKeys] value as the object it is at run time. *)
Definition toObject (k : ApiKeys) : gmap string JsValue :=
  <["openai" := JString (openai k)]>
    (<["gemini" := JString (gemini k)]>
       (<["huggingface" := JString (huggingface k)]>
          (<["ollama" := JString (ollama k)]> ∅))).

(** The own enumerable properties that [{...v}] copies. *)
Definition spreadProps (v : JsValue) : gmap string JsValue :=
  match v with
  | JObject props => props
  | JArray items => list_to_map (imap (fun i x => (showNat i, x)) items)
  | JString s => list_to_map (imap (fun i c => (showNat i, JString (String c ""))) (chars s))
  | _ => ∅
  end.

(** [{...a, ...b}]: the properties of [b] win. *)
Definition spread (a b : gmap string JsValue) : gmap string JsValue := b ∪ a.

(** [JSON.stringify] and [JSON.parse] ([Thrown] is a [SyntaxError]). *)
Record Json := mkJson {
  stringify : JsValue -> string;
  parse : string -> Result JsValue
}.

(** The browser: whether there is a [window] at all, whether touching
    [localStorage] throws, which [setItem] calls the storage accepts (quota),
    and the stored items. *)
Record Browser := mkBrowser {
  hasWindow : bool;
  storageBlocked : bool;
  accepts : string -> string -> bool;
  items : gmap string string
}.

Definition readFromStorage (js : Json) (defaultKeys : ApiKeys) (b : Browser)
    : gmap string JsValue :=
  if negb (hasWindow b) then toObject defaultKeys
  else if storageBlocked b then toObject defaultKeys      (* [getItem] throws: [catch] *)
  else
    match items b !! STORAGE_KEY with
    | None => toObject defaultKeys
    | Some raw =>
        if String.eqb raw "" then toObject defaultKeys
        else
          match parse js raw with
          | Thrown _ => toObject defaultKeys
          | Ok parsed => spread (toObject defaultKeys) (spreadProps parsed)
          end
    end.

(** The browser after [writeToStorage(value)]; a failing [setItem] is only logged. *)
Definition writeToStorage (js : Json) (value : gmap string JsValue) (b : Browser) : Browser :=
  if negb (hasWindow b) then b
  else
    let blob := stringify js (JObject value) in
    if storageBlocked b || negb (accepts b STORAGE_KEY blob) then b
    else mkBrowser (hasWindow b) (storageBlocked b) (accepts b)
                   (<[STORAGE_KEY := blob]> (items b)).

End Keys.

(** ** Footprints as shared objects: preparation and the render pass on a heap *)

Module Store.
Section StoreDefs.
Local Open Scope R_scope.

(** A footprint object: its [tags] property is a reference to a tags object. *)
Record FootprintObj := mkObj {
  objPts : list Vector2;
  objHeight : R;
  objTags : nat;
  objMetadata : option Metadata
}.

Record Heap := mkHeap {
  objects : gmap nat FootprintObj;
  tagObjects : gmap nat Tags
}.

(** A new object at an address no object has. *)
Definition alloc (h : Heap) (o : FootprintObj) : Heap * nat :=
  let r := fresh (dom (objects h)) in
  (mkHeap (<[r := o]> (objects h)) (tagObjects h), r).

Fixpoint allocAll (h : Heap) (os : list FootprintObj) : Heap * list nat :=
  match os with
  | [] => (h, [])
  | o :: rest =>
      let '(h1, r) := alloc h o in
      let '(h2, rs) := allocAll h1 rest in
      (h2, r :: rs)
  end.

(** The objects an array of references holds. *)
Definition deref (h : Heap) (refs : list nat) : list FootprintObj :=
  omap (fun r => objects h !! r) refs.

(** The footprint an object stands for, its tags read through the reference. *)
Definition view (h : Heap) (o : FootprintObj) : Footprint :=
  mkFootprint (objPts o) (objHeight o) (default ∅ (tagObjects h !! objTags o)) (objMetadata o).

(** The object literal [{ ...fp, pts: centered, height: ..., metadata: {...} }]:
    [...fp] copies the reference to the tags object. *)
Definition prepareObj (selection : PrimarySelection) (fitScale : R)
    (idx : nat) (fp : FootprintObj) : FootprintObj :=
  let centered := centerPts (selCentroid selection) fitScale (objPts fp) in
  mkObj centered (objHeight fp * fitScale) (objTags fp)
    (Some (mkMetadata
             (if Nat.eqb idx (index selection) then Some (mkXY 0 0)
              else computeFootprintCentroid centered)
             (Some (Nat.eqb idx (index selection)))
             (Some fitScale))).

(** [prepareFootprints] on the heap: it reads the objects of [refs] and
    returns a new array of new objects. *)
Definition prepareFootprints (h : Heap) (refs : list nat) (platformSize : R) : Heap * list nat :=
  let fps := deref h refs in
  let values := map (view h) fps in
  match selectPrimaryFootprint values with
  | None => (h, [])
  | Some selection =>
      let maxRadius := maxRadiusOf (selCentroid selection) (heroPts values selection) in
      let fitScale := fitScaleOf platformSize maxRadius in
      allocAll h (imap (prepareObj selection fitScale) fps)
  end.

Record BuildingControlState := mkControls {
  footprintScale : R;
  heightScale : R;
  rotation : R;
  verticalOffset : R
}.

(** What the render effect builds for one footprint. *)
Record Mesh := mkMesh {
  shape : list Vector2;            (* [moveTo] / [lineTo] through the points *)
  depth : R;
  material : string * bool;        (* [getBuildingMaterial(buildingType, isHero)] *)
  positionY : R;
  rotationY : R;
  meshScale : R * R * R
}.

Record TargetBuilding := mkTarget {
  targetY : R;                     (* [position[1]] *)
  targetHeight : R;
  targetTags : nat                 (* the footprint's tags object itself *)
}.

(** One turn of the [forEach] of the render effect; [None] when
    [buildingMeshFromFootprint] throws on an empty point list and the
    footprint is skipped. *)
Definition renderOne (h : Heap) (controls : BuildingControlState) (fp : FootprintObj)
    : option (Mesh * option TargetBuilding) :=
  let isHero := isHero (view h fp) in
  let buildingType :=
    match tagObjects h !! objTags fp with
    | Some t => match t !! "building"%string with
                | Some b => if String.eqb b "" then "yes"%string else b
                | None => "yes"%string
                end
    | None => "yes"%string
    end in
  match objPts fp with
  | [] => None
  | _ =>
      let footprintScale' := if isHero then footprintScale controls else 1 in
      let heightScale' := if isHero then heightScale controls else 1 in
      let rotation' := if isHero then rotation controls else 0 in
      let verticalOffset' := if isHero then verticalOffset controls else 0 in
      Some (mkMesh (objPts fp) (objHeight fp) (buildingType, isHero)
                   verticalOffset' (rotation' * DEG2RAD)
                   (footprintScale', heightScale', footprintScale'),
            if isHero
            then Some (mkTarget (objHeight fp * heightScale controls + 10 + verticalOffset')
                                (objHeight fp) (objTags fp))
            else None)
  end.

(** The render effect of [Buildings]: the heap afterwards, the meshes added
    to the group and the target building set. *)
Definition renderBuildings (h : Heap) (refs : list nat) (controls : BuildingControlState)
    : Heap * (list Mesh * option TargetBuilding) :=
  let rendered := omap (renderOne h controls) (deref h refs) in
  (h, (map fst rendered,
       fold_left (fun target r => match snd r with Some t => Some t | None => target end)
                 rendered None)).

End StoreDefs.
End Store.

(** ** Notions the properties are stated with *)

(** The URLs POSTed to, in order. *)
Definition postedUrls (log : list Event) : list string :=
  omap (fun e => match e with EvPost u _ => Some u | _ => None end) log.

(** The timer delays, in order. *)
Definition sleepsOf (log : list Event) : list Z :=
  omap (fun e => match e with EvSleep ms => Some ms | _ => None end) log.

(** The delays that follow until the next POST. *)
Fixpoint sleepsBeforeNextPost (log : list Event) : list Z :=
  match log with
  | [] => []
  | EvPost _ _ :: _ => []
  | EvSleep ms :: rest => ms :: sleepsBeforeNextPost rest
  | _ :: rest => sleepsBeforeNextPost rest
  end.

(** Each request attempt with the delays waited after it. *)
Fixpoint attemptsOf (log : list Event) : list (string * list Z) :=
  match log with
  | [] => []
  | EvPost u _ :: rest => (u, sleepsBeforeNextPost rest) :: attemptsOf rest
  | _ :: rest => attemptsOf rest
  end.

(** The order in which the mirrors are tried: each endpoint twice. *)
Definition schedule : list string :=
  flat_map (fun endpoint => [url endpoint; url endpoint]) OVERPASS_ENDPOINTS.

(** The three ways an attempt can end. *)
Inductive Outcome : Type :=
| Success (data : OverpassResponse)   (* an OK response whose JSON was read *)
| RetryLater                          (* a 504, 429 or 503 response *)
| Failed (message : string).          (* anything thrown inside the [try] *)

Definition classify (r : Result (HttpResponse OverpassResponse)) : Outcome :=
  match r with
  | Thrown message => Failed message
  | Ok res =>
      if negb (resOk res) then
        if isRetryStatus (status res) then RetryLater
        else Failed ("Overpass API returned " ++ showZ (status res))
      else match json res with
           | Thrown message => Failed message
           | Ok data => Success data
           end
  end.

(** The delays waited after an attempt that ended with [o]. *)
Definition delaysAfter (o : Outcome) (attempt : nat) : list Z :=
  match o with
  | Success _ => []
  | RetryLater => [backoffMs attempt]
  | Failed _ => if (attempt <? 1)%nat then [backoffMs attempt] else []
  end.

(** The two nested loops as one list of turns: every endpoint with attempt 0, then 1. *)
Definition planOf (endpoints : list Endpoint) : list (Endpoint * nat) :=
  flat_map (fun endpoint => [(endpoint, 0%nat); (endpoint, 1%nat)]) endpoints.

Fixpoint planLoop (w : World) (lat0 lon0 : R) (query : OverpassQuery)
    (plan : list (Endpoint * nat)) (st : FetchState)
    : FetchState * option (list Footprint) :=
  match plan with
  | [] => (st, None)
  | (endpoint, attempt) :: rest =>
      match attemptEndpoint w lat0 lon0 query endpoint attempt st with
      | (st', Some footprints) => (st', Some footprints)
      | (st', None) => planLoop w lat0 lon0 query rest st'
      end
  end.

Definition startsWithPost (log : list Event) : Prop :=
  match log with
  | [] => True
  | EvPost _ _ :: _ => True
  | _ => False
  end.

(** The data of the [n]-th attempt when it succeeds. *)
Definition attemptData (w : World) (n : nat) (u : string) : option OverpassResponse :=
  match classify (overpass w n u) with
  | Success data => Some data
  | _ => None
  end.

(** What a run of the turns [plan] from [st] to [st'] with result [r] does:
    it adds to the log the first [k] turns, each a POST followed by the delays
    of its outcome; all but the last of them failed; the result is the data of
    the last one, or nothing when every turn of [plan] failed. *)
Definition turnsRun (w : World) (lat0 lon0 : R) (plan : list (Endpoint * nat))
    (st st' : FetchState) (r : option (list Footprint)) : Prop :=
  let base := countPosts (fetchLog st) in
  exists k added,
    fetchLog st' = fetchLog st ++ added /\
    (k <= length plan)%nat /\ (plan <> [] -> (1 <= k)%nat) /\
    startsWithPost added /\
    attemptsOf added =
      imap (fun i ea => (url ea.1,
                         delaysAfter (classify (overpass w (base + i) (url ea.1))) ea.2))
           (take k plan) /\
    (forall i ea, (S i < k)%nat -> plan !! i = Some ea ->
       attemptData w (base + i) (url ea.1) = None) /\
    match r with
    | Some fps =>
        exists ea data, plan !! (k - 1)%nat = Some ea /\
          attemptData w (base + (k - 1)) (url ea.1) = Some data /\
          fps = footprintsOfResponse w lat0 lon0 data
    | None =>
        k = length plan /\
        forall i ea, plan !! i = Some ea -> attemptData w (base + i) (url ea.1) = None
    end.

(** The polygon invariant as the specification words it. *)
Definition closedRing (l : list Vector2) : Prop :=
  exists p, head l = Some p /\ last l = Some p.

Definition hasThreeDistinct (l : list Vector2) : Prop :=
  exists a b c, a ∈ l /\ b ∈ l /\ c ∈ l /\ a <> b /\ a <> c /\ b <> c.

(** "Retries an endpoint only on a rate-limit or timeout status": whenever
    two consecutive requests go to the same URL, the first was answered with
    status 429, 503 or 504. *)
Definition retriesOnlyOnRetryStatus (w : World) (log : list Event) : Prop :=
  forall n u, postedUrls log !! n = Some u -> postedUrls log !! S n = Some u ->
    exists res, overpass w n u = Ok res /\ isRetryStatus (status res) = true.

(** Digit strings, and the text [matchNumber] captures. *)

Definition digits (l : list ascii) : Prop := forallb isDigit l = true.

Definition stopsDigits (l : list ascii) : Prop :=
  match l with
  | c :: _ => isDigit c = false
  | [] => True
  end.

(** The text of a matched number: an optional minus sign, digits, and an
    optional fraction of a point and digits. *)
Definition numberText (neg : bool) (int frac : list ascii) : list ascii :=
  (if neg then ["-"%char] else []) ++ int
  ++ match frac with [] => [] | _ => "."%char :: frac end.


(** What the page shows between two clicks: the query text, the stored
    coordinates (printed on the building card), the footprints and the key
    of the canvas. *)
Definition renderedState (s : AppState) : string * R * R * list Footprint * nat :=
  (locQuery s, stLat s, stLon s, footprints s, renderKey s).

(** "On any error the handler leaves the previously rendered state unchanged." *)
Definition errorKeepsRenderedState (handler : World -> AppState -> list Event * list Update)
    (w : World) (s : AppState) : Prop :=
  let s' := applyUpdates s (handler w s).2 in
  error s' <> None -> renderedState s' = renderedState s.

(** ** Sample inputs *)

Section Samples.
Local Open Scope R_scope.

(** A way whose last node lies about a millimetre north of its first. *)
Definition nearlyClosedWay : OverpassElement :=
  mkElement "way"
    (Some [mkCoord 0 0; mkCoord 0.001 0; mkCoord 0 0.001; mkCoord 0.00000001 0]) None.

(** A closed way of three nodes: out and back. *)
Definition degenerateWay : OverpassElement :=
  mkElement "way" (Some [mkCoord 0 0; mkCoord 0.001 0; mkCoord 0 0]) None.

Definition twoNodeWay : OverpassElement :=
  mkElement "way" (Some [mkCoord 0 0; mkCoord 0.001 0]) None.

Definition sampleResponse : OverpassResponse :=
  mkOverpassResponse (Some [nearlyClosedWay; degenerateWay; twoNodeWay]).

(** A world with the given Overpass mirrors and nothing else reachable. *)
Definition worldWith (ov : nat -> string -> Result (HttpResponse OverpassResponse)) : World :=
  mkWorld ov
    (fun _ => Thrown "Failed to fetch")
    (fun _ _ _ => Thrown "Invalid code")
    (fun _ => Thrown "Invalid code")
    (fun _ => false)
    (fun _ => 0.5)
    (fun _ => ""%string).

(** Every mirror answers [sampleResponse]. *)
Definition worldOk : World :=
  worldWith (fun _ _ => Ok (mkResponse 200%Z (Ok sampleResponse))).

(** Every mirror answers 500 Internal Server Error. *)
Definition world500 : World :=
  worldWith (fun _ _ => Ok (mkResponse 500%Z (Thrown "Unexpected end of JSON input"))).

(** Every mirror answers 429 Too Many Requests. *)
Definition world429 : World :=
  worldWith (fun _ _ => Ok (mkResponse 429%Z (Thrown "Unexpected end of JSON input"))).

(** A triangle near the origin and a triangle far from it. *)
Definition nearTriangle : Footprint :=
  mkFootprint [mkVector2 0 0; mkVector2 6 0; mkVector2 0 6; mkVector2 0 0] 10 ∅ None.

Definition farTriangle : Footprint :=
  mkFootprint [mkVector2 100 100; mkVector2 108 100; mkVector2 100 108; mkVector2 100 100] 20 ∅ None.

Definition sampleFootprints : list Footprint := [farTriangle; nearTriangle].

(** Nominatim knows Berlin only; every short Plus Code is recovered and decoded. *)
Definition worldGeo : World :=
  mkWorld
    (fun _ _ => Thrown "Failed to fetch")
    (fun q => if String.eqb q "Berlin"
              then Ok (mkResponse 200%Z (Ok (JsonPlaces [mkLatLon 52.52 13.405])))
              else Ok (mkResponse 200%Z (Ok (JsonPlaces []))))
    (fun code _ _ => Ok ("9F4M" ++ code)%string)
    (fun _ => Ok (mkLatLon 52.53 13.38))
    (fun _ => true)
    (fun _ => 0.5)
    (fun _ => ""%string).

(** The query is a literal pair; the stored coordinates are the origin. *)
Definition stateAtOrigin : AppState :=
  mkAppState "52.5, 13.4" 0 0 250 [nearTriangle] false None 0.

(** A client whose every completion request fails. *)
Definition llmDown : Ai.Llm :=
  Ai.mkLlm (fun _ _ => Thrown "Connection error.") (fun _ => ""%string) (fun _ => ""%string).

(** A client that answers without message content, then with a name. *)
Definition llmSilent : Ai.Llm :=
  Ai.mkLlm (fun system _ => if String.eqb system Ai.namePrompt
                            then Ok (Some " Glass Tower "%string) else Ok None)
           (fun _ => ""%string) (fun _ => ""%string).

Definition sampleBuilding : Ai.BuildingInfo :=
  Ai.mkBuildingInfo 52.5 13.4 "office" None None None None (Some 30) None ∅.

(** A JSON codec for the objects the key store writes: an object whose four
    key properties are strings without quote or backslash. *)
Definition doubleQuote : ascii := ascii_of_nat 34.

Definition quoted (s : string) : string :=
  String doubleQuote s +:+ String doubleQuote "".

Definition keyNames : list string := ["openai"; "gemini"; "huggingface"; "ollama"].

Definition flatStringify (v : Keys.JsValue) : string :=
  match v with
  | Keys.JObject props =>
      "{" +:+ Ai.join ","
                (map (fun key => quoted key +:+ ":"
                                 +:+ match props !! key with
                                     | Some (Keys.JString s) => quoted s
                                     | _ => "null"
                                     end) keyNames)
      +:+ "}"
  | _ => "null"
  end.

(** The characters up to the next double quote, and what follows it. *)
Fixpoint untilQuote (l : list ascii) : option (list ascii * list ascii) :=
  match l with
  | [] => None
  | c :: rest =>
      if Ascii.eqb c doubleQuote then Some ([], rest)
      else match untilQuote rest with
           | Some (s, rest') => Some (c :: s, rest')
           | None => None
           end
  end.

Definition readString (l : list ascii) : option (list ascii * list ascii) :=
  match l with
  | c :: rest => if Ascii.eqb c doubleQuote then untilQuote rest else None
  | [] => None
  end.

Fixpoint readMembers (fuel : nat) (l : list ascii) (acc : gmap string Keys.JsValue)
    : option (gmap string Keys.JsValue) :=
  match fuel with
  | O => None
  | S fuel' =>
      match readString l with
      | Some (key, ":"%char :: rest) =>
          match readString rest with
          | Some (value, rest') =>
              let acc' := <[str key := Keys.JString (str value)]> acc in
              match rest' with
              | ","%char :: rest'' => readMembers fuel' rest'' acc'
              | ["}"%char] => Some acc'
              | _ => None
              end
          | None => None
          end
      | _ => None
      end
  end.

Definition flatParse (s : string) : Result Keys.JsValue :=
  match chars s with
  | "{"%char :: rest =>
      match readMembers (length rest) rest ∅ with
      | Some props => Ok (Keys.JObject props)
      | None => Thrown "Unexpected token in JSON"
      end
  | _ => Thrown "Unexpected token in JSON"
  end.

Definition flatJson : Keys.Json := Keys.mkJson flatStringify flatParse.

Definition sampleKeys : Keys.ApiKeys := Keys.mkApiKeys "sk-live-123" "" "hf_abc" "".

(** A browser with working storage that holds one unrelated item. *)
Definition sampleBrowser : Keys.Browser :=
  Keys.mkBrowser true false (fun _ _ => true) {[ "theme"%string := "dark"%string ]}.

(** One footprint object at address 0 whose tags object is at address 7. *)
Definition sampleHeap : Store.Heap :=
  Store.mkHeap
    {[ 0%nat := Store.mkObj [mkVector2 0 0; mkVector2 6 0; mkVector2 0 6; mkVector2 0 0] 10 7 None ]}
    {[ 7%nat := {[ "building"%string := "office"%string ]} ]}.

End Samples.

(** ** The geometry builder and the building materials *)

(** The index [buildingMeshFromFootprint] gives a geometry that has none:
    [for (let i = 0; i < positionCount; i += 3) indices.push(i, i + 1, i + 2)].
    [fuel] bounds the number of turns of the loop. *)
Fixpoint indexLoop (fuel i positionCount : nat) (indices : list nat) : list nat :=
  match fuel with
  | O => indices
  | S fuel' =>
      if (i <? positionCount)%nat
      then indexLoop fuel' (i + 3) positionCount (indices ++ [i; i + 1; i + 2]%nat)
      else indices
  end.

(** The loop started at [i = 0] with no index; it makes at most
    [positionCount] turns. *)
Definition meshIndices (positionCount : nat) : list nat :=
  indexLoop positionCount 0 positionCount [].

(** The canvas textures of [createBrickTexture] and its siblings, by name. *)
Inductive Texture : Type :=
| BrickTexture
| ConcreteTexture
| GlassTexture
| WoodTexture.

(** The parameters [getBuildingMaterial] passes to [THREE.MeshStandardMaterial]. *)
Record MaterialParams := mkMaterial {
  textureMap : option Texture;          (* [map] *)
  color : string;
  emissive : option (string * R);       (* [emissive] with [emissiveIntensity] *)
  roughness : R;
  metalness : R;
  opacity : option R                    (* with [transparent: true] *)
}.

Section MaterialDefs.
Local Open Scope R_scope.

Definition getBuildingMaterial (buildingType : string) (isHighlighted : bool) : MaterialParams :=
  if isHighlighted then
    mkMaterial None "#ff6b35" (Some ("#ff6b35"%string, 0.3)) 0.7 0.1 None
  else
    let type := toLowerCase buildingType in
    (* Residential buildings *)
    if includes type "house" || includes type "residential"
       || includes type "apartments" || includes type "detached"
    then mkMaterial (Some BrickTexture) "#F5DEB3" None 0.9 0.0 None
    (* Commercial/office buildings *)
    else if includes type "commercial" || includes type "office"
            || includes type "retail" || includes type "shop"
    then mkMaterial (Some GlassTexture) "#E6F3FF" None 0.1 0.8 (Some 0.9)
    (* Industrial buildings *)
    else if includes type "industrial" || includes type "warehouse"
            || includes type "factory"
    then mkMaterial (Some ConcreteTexture) "#696969" None 0.8 0.3 None
    (* Schools, hospitals, public buildings *)
    else if includes type "school" || includes type "hospital"
            || includes type "public" || includes type "civic"
    then mkMaterial (Some BrickTexture) "#DEB887" None 0.7 0.1 None
    (* Garages *)
    else if includes type "garage" || includes type "carport"
    then mkMaterial (Some ConcreteTexture) "#808080" None 0.9 0.2 None
    (* Religious buildings *)
    else if includes type "church" || includes type "cathedral"
            || includes type "mosque" || includes type "temple"
    then mkMaterial None "#F5F5DC" None 0.6 0.1 None
    (* Hotels and service buildings *)
    else if includes type "hotel" || includes type "service"
            || includes type "restaurant"
    then mkMaterial (Some WoodTexture) "#DEB887" None 0.6 0.1 None
    (* Default for unknown building types *)
    else mkMaterial (Some ConcreteTexture) "#D3D3D3" None 0.8 0.2 None.

End MaterialDefs.

(** ** The API-key provider: state, setters and the storage listener *)

Module Provider.

(** The [keys] state of [ApiKeysProvider] and the browser it runs in. *)
Record State := mkState {
  keys : gmap string Keys.JsValue;
  browser : Keys.Browser
}.

(** [useState(() => readFromStorage())] *)
Definition initial (js : Keys.Json) (defaultKeys : Keys.ApiKeys) (b : Keys.Browser) : State :=
  mkState (Keys.readFromStorage js defaultKeys b) b.

Definition persist (js : Keys.Json) (next : gmap string Keys.JsValue) (st : State) : State :=
  mkState next (Keys.writeToStorage js next (browser st)).

Definition setKeys (js : Keys.Json) (next : gmap string Keys.JsValue) (st : State) : State :=
  persist js next st.

(** [persist({ ...keys, [provider]: value })] *)
Definition updateKey (js : Keys.Json) (provider value : string) (st : State) : State :=
  persist js (<[provider := Keys.JString value]> (keys st)) st.

(** [window.localStorage.removeItem(key)]; [None] when touching the storage throws. *)
Definition removeItem (key : string) (b : Keys.Browser) : option Keys.Browser :=
  if Keys.storageBlocked b then None
  else Some (Keys.mkBrowser (Keys.hasWindow b) (Keys.storageBlocked b) (Keys.accepts b)
                            (delete key (Keys.items b))).

(** [resetKeys]: the state afterwards, and whether the call threw (its
    [removeItem] is outside any [try]). *)
Definition resetKeys (js : Keys.Json) (defaultKeys : Keys.ApiKeys) (st : State) : State * bool :=
  let st1 := persist js (Keys.toObject defaultKeys) st in
  if Keys.hasWindow (browser st1) then
    match removeItem Keys.STORAGE_KEY (browser st1) with
    | Some b => (mkState (keys st1) b, false)
    | None => (st1, true)
    end
  else (st1, false).

(** The fields of a [StorageEvent] the listener reads ([None] is [null]). *)
Record StorageEvent := mkStorageEvent {
  key : option string;
  newValue : option string
}.

(** The ["storage"] listener. *)
Definition onStorage (js : Keys.Json) (defaultKeys : Keys.ApiKeys) (event : StorageEvent)
    (st : State) : State :=
  if negb (bool_decide (key event = Some Keys.STORAGE_KEY)) then st
  else
    match newValue event with
    | None => mkState (Keys.toObject defaultKeys) (browser st)
    | Some raw =>
        if String.eqb raw "" then mkState (Keys.toObject defaultKeys) (browser st)
        else
          match Keys.parse js raw with
          | Thrown _ => mkState (Keys.toObject defaultKeys) (browser st)
          | Ok parsed =>
              mkState (Keys.spread (Keys.toObject defaultKeys) (Keys.spreadProps parsed))
                      (browser st)
          end
    end.

End Provider.

(** ** The building card: what it sends to the hook and what it shows *)

Module Card.

Definition hexVal (c : ascii) : option Z :=
  let n := nat_of_ascii c in
  if isDigit c then Some (Z.of_nat n - 48)%Z
  else if (97 <=? n)%nat && (n <=? 102)%nat then Some (Z.of_nat n - 87)%Z
  else if (65 <=? n)%nat && (n <=? 70)%nat then Some (Z.of_nat n - 55)%Z
  else None.

(** The value of the longest prefix of hexadecimal digits; [acc] is the value
    read so far, [None] before the first digit. *)
Fixpoint readHex (l : list ascii) (acc : option Z) : option Z :=
  match l with
  | c :: rest =>
      match hexVal c with
      | Some d => readHex rest (Some (16 * default 0 acc + d)%Z)
      | None => acc
      end
  | [] => acc
  end.

Definition readDecimal (l : list ascii) : option Z :=
  let '(ds, _) := spanDigits l in
  match ds with
  | [] => None
  | _ => Some (digitsVal ds)
  end.

(** [parseInt(s)] without a radix: leading white space, a sign, then
    hexadecimal digits after [0x] or [0X] and decimal digits otherwise;
    [None] is [NaN].  The result is the exact integer, which is the
    JavaScript number as long as it does not exceed [MAX_SAFE_INTEGER]. *)
Definition parseInt (s : string) : option Z :=
  let l := skipSpaces (chars s) in
  let '(neg, l1) :=
    match l with
    | "-"%char :: r => (true, r)
    | "+"%char :: r => (false, r)
    | _ => (false, l)
    end in
  let magnitude :=
    match l1 with
    | "0"%char :: x :: r =>
        if Ascii.eqb (toLowerChar x) "x" then readHex r None else readDecimal l1
    | _ => readDecimal l1
    end in
  option_map (fun m => if neg then (- m)%Z else m) magnitude.

(** The [buildingData] object of [loadAIInfo] as the route reads it from the
    JSON body: an [undefined] property is left out and a [NaN] arrives as
    [null], both [None]. *)
Definition buildingData (lat lon height : R) (tags : Tags) : Ai.BuildingInfo :=
  Ai.mkBuildingInfo lat lon
    (default "building"%string (truthyTag tags "building"))
    (Ai.orElse (tags !! "name"%string) (tags !! "addr:housename"%string))
    (tags !! "addr:street"%string)
    (tags !! "addr:housenumber"%string)
    (tags !! "addr:city"%string)
    (Some height)
    (match truthyTag tags "building:levels" with
     | Some lv => parseInt lv
     | None => None
     end)
    tags.

(** [loadAIInfo]: the [aiInfo] state after the hook settled with [result]. *)
Definition loadAIInfo (result : Ai.HookResult) (aiInfo : option Ai.Body) : option Ai.Body :=
  match Ai.returned result with
  | Some data => Some data
  | None => aiInfo
  end.

(** The heading of the card once loading is over:
    [aiInfo?.name || tags.name || tags['addr:housename'] || 'Target Building'] *)
Definition heading (aiInfo : option Ai.Body) (tags : Tags) : string :=
  default "Target Building"%string
    (Ai.truthy (Ai.orElse (aiInfo ≫= Ai.bodyName)
                  (Ai.orElse (tags !! "name"%string) (tags !! "addr:housename"%string)))).

(** The card mounted for a target building: the request goes through the
    hook to the route and the reply comes back. *)
Definition cardFlow (llm : Ai.Llm) (env : Ai.Env) (openaiKey : string)
    (lat lon height : R) (tags : Tags) : Ai.HookResult :=
  Ai.buildingInfoFlow llm env openaiKey (buildingData lat lon height tags).

End Card.

(** ** More notions the properties are stated with *)

(** A way with at least three geometry points: what the loop over
    [elements] does not skip. *)
Definition isBuildingWay (el : OverpassElement) : bool :=
  String.eqb (elType el) "way"
  && match geometry el with
     | Some geom => (3 <=? length geom)%nat
     | None => false
     end.

(** What [lastError] holds after attempts with these outcomes: the message of
    the last one that threw. *)
Definition lastFailure (outcomes : list Outcome) : option string :=
  fold_left (fun acc o => match o with Failed message => Some message | _ => acc end)
            outcomes None.

(** The outcomes of the six attempts of the schedule in a world. *)
Definition outcomesOf (w : World) : list Outcome :=
  imap (fun i u => classify (overpass w i u)) schedule.

(** The time spent in timer delays. *)
Definition totalDelay (log : list Event) : Z := foldr Z.add 0%Z (sleepsOf log).

(** The Nominatim queries made, in order. *)
Definition geocodesOf (log : list Event) : list string :=
  omap (fun e => match e with EvGeocode q => Some q | _ => None end) log.

(** A character of a Plus Code other than the separator. *)
Definition isCodeSymbol (c : ascii) : bool :=
  isPlusCodeChar c && negb (Ascii.eqb c "+").

(** A text of code symbols only. *)
Definition codeSymbols (s : string) : Prop := forallb isCodeSymbol (chars s) = true.

(** The Plus Code library is consulted in the short-code way: the code is
    first recovered near the reference point. *)
Definition decodeNear (w : World) (code : string) (refLat refLon : R) : Result LatLon :=
  match olcRecoverNearest w code refLat refLon with
  | Thrown message => Thrown message
  | Ok fullCode => olcDecode w fullCode
  end.

(** The code is validated and decoded as it stands. *)
Definition decodeFull (w : World) (code : string) : Result LatLon :=
  if olcIsValid w code then olcDecode w code else Thrown ("Invalid Plus Code: " ++ code).

(** The target building a hero object gives under [controls]. *)
Definition targetOf (controls : Store.BuildingControlState) (o : Store.FootprintObj)
    : Store.TargetBuilding :=
  Store.mkTarget
    (Store.objHeight o * Store.heightScale controls + 10 + Store.verticalOffset controls)%R
    (Store.objHeight o) (Store.objTags o).

(** An object that holds every provider of [ApiKeys]. *)
Definition complete (o : gmap string Keys.JsValue) : Prop :=
  Forall (fun name => is_Some (o !! name)) keyNames.

(** The characters of [pieces.join(sep)] for a one-character separator. *)
Definition joinChars (sep : ascii) (pieces : list string) : list ascii :=
  match pieces with
  | [] => []
  | p :: rest => chars p ++ flat_map (fun q => sep :: chars q) rest
  end.

(** A text that reads as a plain decimal number, as [toFixed(6)] prints a
    finite number below 1e21. *)
Definition decimalText (t : string) : Prop :=
  exists neg int frac,
    int <> [] /\ digits int /\ digits frac /\ chars t = numberText neg int frac.

(** A text of ASCII characters only (code points below 128): on such a text
    [trim], [\s], [toUpperCase] and [toLowerCase] are the functions of the
    embedding. *)
Definition asciiText (s : string) : Prop :=
  forallb (fun c => (nat_of_ascii c <? 128)%nat) (chars s) = true.

(** [Number.MAX_SAFE_INTEGER]: up to it every integer is a JavaScript number. *)
Definition MAX_SAFE_INTEGER : Z := 9007199254740991.




(* ================================================================== *)
(** * Properties *)
(* ================================================================== *)

Section GeometryProps.
Local Open Scope R_scope.

Lemma forEachFrom_app {A St : Type} (f : St -> nat -> A -> St) (l1 l2 : list A) idx s :
  forEachFrom f idx (l1 ++ l2) s
  = forEachFrom f (idx + length l1) l2 (forEachFrom f idx l1 s).
Proof.
  revert idx s; induction l1 as [|x l1 IH]; intros idx s; simpl.
  - by rewrite Nat.add_0_r.
  - rewrite IH. f_equal. lia.
Qed.

Lemma sumXY_spec (l : list Vector2) :
  sumXY l = (sumR (map vx l), sumR (map vy l)).
Proof.
  unfold sumXY.
  assert (G : forall a b, fold_left (fun acc pt => (fst acc + vx pt, snd acc + vy pt)) l (a, b)
                          = (a + sumR (map vx l), b + sumR (map vy l))).
  { induction l as [|p l IH]; intros a b; simpl.
    - f_equal; lra.
    - rewrite IH. f_equal; lra. }
  rewrite G. f_equal; lra.
Qed.

Lemma computeFootprintCentroid_mean (l : list Vector2) (c : XY) :
  computeFootprintCentroid l = Some c ->
  cx c = sumR (map vx l) / INR (length l) /\ cy c = sumR (map vy l) / INR (length l).
Proof.
  unfold computeFootprintCentroid. rewrite sumXY_spec.
  destruct l as [|p l]; [discriminate|].
  intros [= <-]. by split.
Qed.

Lemma computeFootprintCentroid_Some (l : list Vector2) :
  l <> [] -> exists c, computeFootprintCentroid l = Some c.
Proof.
  intros Hne. unfold computeFootprintCentroid. destruct (sumXY l) as [sx sy].
  destruct l as [|p l]; [done|]. simpl. eauto.
Qed.

Lemma computeFootprintCentroid_None (l : list Vector2) :
  computeFootprintCentroid l = None <-> l = [].
Proof.
  split.
  - destruct l as [|p l]; [done|]. intros H.
    destruct (computeFootprintCentroid_Some (p :: l)) as [c Hc]; [done|]. congruence.
  - intros ->. reflexivity.
Qed.

Lemma originDistSq_nonneg (c : XY) : 0 <= originDistSq c.
Proof. unfold originDistSq. nra. Qed.

Lemma ltBest_Some (d b : R) : ltBest d (Some b) = true <-> d < b.
Proof. unfold ltBest. destruct (Rlt_dec d b); split; intros; try done; lra. Qed.

(** What the closed-over variables hold after the callback has run on the
    footprints [l] (from index 0, from the initial values). *)
Definition bestAfter (l : list Footprint) (b : Best) : Prop :=
  (bestDist b = None /\ bestIndex b = 0%nat /\ bestCentroid b = mkXY 0 0 /\
   forall j fp, l !! j = Some fp -> computeFootprintCentroid (pts fp) = None)
  \/
  (exists fp, l !! bestIndex b = Some fp /\
     computeFootprintCentroid (pts fp) = Some (bestCentroid b) /\
     bestDist b = Some (originDistSq (bestCentroid b)) /\
     forall j fp' c', l !! j = Some fp' -> computeFootprintCentroid (pts fp') = Some c' ->
       originDistSq (bestCentroid b) <= originDistSq c' /\
       ((j < bestIndex b)%nat -> originDistSq (bestCentroid b) < originDistSq c')).

Lemma forEach_bestAfter (l : list Footprint) :
  bestAfter l (forEachFrom considerFootprint 0%nat l (mkBest 0%nat None (mkXY 0 0))).
Proof.
  induction l as [|x l IH] using rev_ind.
  - left. simpl. repeat split; done.
  - rewrite forEachFrom_app. simpl.
    set (b := forEachFrom considerFootprint 0%nat l _) in *.
    assert (Hlast : (l ++ [x]) !! length l = Some x)
      by (rewrite lookup_app_r, Nat.sub_diag; [done|lia]).
    unfold considerFootprint.
    destruct (computeFootprintCentroid (pts x)) as [c|] eqn:Hc.
    + destruct IH as [(Hd & Hi & Hcen & Hall) | (fp & Hfp & Hcfp & Hd & Hmin)].
      * (* the first footprint with a finite distance *)
        rewrite Hd. simpl. right. exists x. simpl.
        split; [done|]. split; [done|]. split; [done|].
        intros j fp' c' Hj Hc'.
        apply lookup_snoc_Some in Hj as [[Hjl Hj] | [-> <-]].
        -- rewrite (Hall _ _ Hj) in Hc'. done.
        -- rewrite Hc in Hc'. injection Hc' as <-. split; [lra|lia].
      * rewrite Hd. destruct (ltBest _ _) eqn:Hlt.
        -- (* strictly nearer than the best so far: it replaces it *)
           apply ltBest_Some in Hlt. right. exists x. simpl.
           split; [done|]. split; [done|]. split; [done|].
           intros j fp' c' Hj Hc'.
           apply lookup_snoc_Some in Hj as [[Hjl Hj] | [-> <-]].
           ++ destruct (Hmin _ _ _ Hj Hc') as [Hle _]. split; [lra|intros _; lra].
           ++ rewrite Hc in Hc'. injection Hc' as <-. split; [lra|lia].
        -- (* not nearer: the best so far stays *)
           assert (Hnlt : ~ originDistSq c < originDistSq (bestCentroid b)).
           { intros H. apply ltBest_Some in H. congruence. }
           assert (Hb : (bestIndex b < length l)%nat) by (eapply lookup_lt_Some; eauto).
           right. exists fp.
           split; [by rewrite lookup_app_l|]. split; [done|]. split; [done|].
           intros j fp' c' Hj Hc'.
           apply lookup_snoc_Some in Hj as [[Hjl Hj] | [-> <-]].
           ++ eauto.
           ++ rewrite Hc in Hc'. injection Hc' as <-. split; [lra|lia].
    + destruct IH as [(Hd & Hi & Hcen & Hall) | (fp & Hfp & Hcfp & Hd & Hmin)].
      * left. split; [done|]. split; [done|]. split; [done|].
        intros j fp Hj. apply lookup_snoc_Some in Hj as [[Hjl Hj] | [-> <-]]; eauto.
      * assert (Hb : (bestIndex b < length l)%nat) by (eapply lookup_lt_Some; eauto).
        right. exists fp.
        split; [by rewrite lookup_app_l|]. split; [done|]. split; [done|].
        intros j fp' c' Hj Hc'.
        apply lookup_snoc_Some in Hj as [[Hjl Hj] | [-> <-]].
        -- eauto.
        -- congruence.
Qed.

Lemma selectPrimaryFootprint_unfold (footprints : list Footprint) :
  footprints <> [] ->
  selectPrimaryFootprint footprints =
    let b := forEachFrom considerFootprint 0%nat footprints (mkBest 0%nat None (mkXY 0 0)) in
    Some (mkSelection (bestIndex b) (bestCentroid b)).
Proof. destruct footprints; [done|reflexivity]. Qed.



Lemma originDist_sq_le (c d : XY) :
  originDistSq c <= originDistSq d -> originDist c <= originDist d.
Proof. intros H. unfold originDist, hypot. by apply sqrt_le_1_alt. Qed.

Lemma originDist_sq_lt (c d : XY) :
  originDistSq c < originDistSq d -> originDist c < originDist d.
Proof.
  intros H. unfold originDist, hypot. apply sqrt_lt_1_alt.
  split; [apply originDistSq_nonneg | exact H].
Qed.

Lemma prepareFootprints_unfold (footprints : list Footprint) (platformSize : R) sel :
  selectPrimaryFootprint footprints = Some sel ->
  prepareFootprints footprints platformSize =
    imap (prepareOne sel
            (fitScaleOf platformSize (maxRadiusOf (selCentroid sel) (heroPts footprints sel))))
         footprints.
Proof. intros H. unfold prepareFootprints. by rewrite H. Qed.

Lemma isHero_prepareOne sel s j fp :
  isHero (prepareOne sel s j fp) = Nat.eqb j (index sel).
Proof. unfold isHero, prepareOne. simpl. by destruct (Nat.eqb j (index sel)). Qed.

(** C1.  For the empty list no hero is selected and [prepareFootprints]
    returns the empty list.  For a non-empty list of fetched footprints (each
    has at least one point) the selection is the footprint at [index sel];
    [selCentroid sel] is that footprint's centroid, the arithmetic mean of its
    points; no footprint's centroid is nearer to the origin, every earlier
    footprint's centroid is strictly farther, and it is this footprint that
    [prepareFootprints] marks as hero. *)
Theorem C1_hero_is_nearest_centroid (footprints : list Footprint) (platformSize : R) :
  (footprints = [] ->
     selectPrimaryFootprint footprints = None /\
     prepareFootprints footprints platformSize = []) /\
  (footprints <> [] -> Forall (fun fp => pts fp <> []) footprints ->
     exists sel heroFp,
       selectPrimaryFootprint footprints = Some sel /\
       footprints !! index sel = Some heroFp /\
       computeFootprintCentroid (pts heroFp) = Some (selCentroid sel) /\
       cx (selCentroid sel) = sumR (map vx (pts heroFp)) / INR (length (pts heroFp)) /\
       cy (selCentroid sel) = sumR (map vy (pts heroFp)) / INR (length (pts heroFp)) /\
       (forall j fp c,
          footprints !! j = Some fp -> computeFootprintCentroid (pts fp) = Some c ->
          originDist (selCentroid sel) <= originDist c /\
          ((j < index sel)%nat -> originDist (selCentroid sel) < originDist c)) /\
       (forall j fp', prepareFootprints footprints platformSize !! j = Some fp' ->
          isHero fp' = true <-> j = index sel)).
Proof.
  split.
  - intros ->. split; reflexivity.
  - intros Hne Hpts.
    pose proof (selectPrimaryFootprint_unfold _ Hne) as Hsel. cbv zeta in Hsel.
    set (b := forEachFrom considerFootprint 0%nat footprints _) in Hsel.
    destruct (forEach_bestAfter footprints) as [(_ & _ & _ & Hall) | (fp & Hfp & Hcfp & Hd & Hmin)].
    + (* impossible: the first footprint has a point, hence a centroid *)
      destruct footprints as [|fp0 rest]; [done|].
      specialize (Hall 0%nat fp0 eq_refl).
      apply computeFootprintCentroid_None in Hall.
      by apply Forall_cons_1 in Hpts as [? _].
    + fold b in Hfp, Hcfp, Hd, Hmin.
      exists (mkSelection (bestIndex b) (bestCentroid b)), fp. cbn [index selCentroid].
      destruct (computeFootprintCentroid_mean _ _ Hcfp) as [Hx Hy].
      split; [done|]. split; [done|]. split; [done|]. split; [done|]. split; [done|].
      split.
      * intros j fp' c' Hj Hc'. destruct (Hmin _ _ _ Hj Hc') as [Hle Hlt].
        split; [by apply originDist_sq_le|].
        intros Hjb. apply originDist_sq_lt. by apply Hlt.
      * intros j fp' Hj. rewrite (prepareFootprints_unfold _ _ _ Hsel) in Hj.
        rewrite list_lookup_imap in Hj.
        destruct (footprints !! j) as [fpj|]; [|done]. simpl in Hj.
        injection Hj as <-. rewrite isHero_prepareOne. cbn [index].
        apply Nat.eqb_eq.
Qed.

Lemma maxVertexDist_nonneg (c : XY) (l : list Vector2) : 0 <= maxVertexDist c l.
Proof.
  induction l as [|p l IH]; simpl; [lra|].
  eapply Rle_trans; [exact IH | apply Rmax_r].
Qed.

Lemma maxRadiusOf_spec (c : XY) (l : list Vector2) :
  maxRadiusOf c l = Rmax 1 (maxVertexDist c l).
Proof.
  unfold maxRadiusOf.
  assert (G : forall a, 0 <= a ->
    fold_left (fun acc pt => Rmax acc (hypot (vx pt - cx c) (vy pt - cy c))) l a
    = Rmax a (maxVertexDist c l)).
  { induction l as [|p l IH]; intros a Ha; simpl.
    - rewrite Rmax_left; lra.
    - rewrite IH.
      + by rewrite Rmax_assoc.
      + eapply Rle_trans; [exact Ha | apply Rmax_l]. }
  apply G. lra.
Qed.

Lemma maxRadiusOf_ge_1 (c : XY) (l : list Vector2) : 1 <= maxRadiusOf c l.
Proof. rewrite maxRadiusOf_spec. apply Rmax_l. Qed.

Lemma hypot_scale (a b s : R) : hypot (a * s) (b * s) = Rabs s * hypot a b.
Proof.
  unfold hypot.
  replace (a * s * (a * s) + b * s * (b * s)) with (Rsqr s * (a * a + b * b))
    by (unfold Rsqr; ring).
  rewrite sqrt_mult; [| apply Rle_0_sqr | nra].
  by rewrite sqrt_Rsqr_abs.
Qed.

Lemma maxVertexDist_centerPts (c : XY) (s : R) (l : list Vector2) :
  maxVertexDist (mkXY 0 0) (centerPts c s l) = Rabs s * maxVertexDist c l.
Proof.
  induction l as [|p l IH]; simpl.
  - lra.
  - rewrite IH. rewrite !Rminus_0_r. rewrite hypot_scale.
    rewrite RmaxRmult; [done | apply Rabs_pos].
Qed.

Lemma fitScaleOf_eq (platformSize r : R) :
  1 <= r -> fitScaleOf platformSize r = platformSize * 0.35 / r.
Proof. intros Hr. unfold fitScaleOf. destruct (Rlt_dec 0 r); [done | lra]. Qed.



(** On the sample list the nearer triangle, at index 1, is selected. *)
Example selectPrimaryFootprint_sample :
  exists c, selectPrimaryFootprint sampleFootprints = Some (mkSelection 1 c)
            /\ cx c = 1.5 /\ cy c = 1.5.
Proof.
  unfold selectPrimaryFootprint, sampleFootprints. cbn [forEachFrom].
  unfold considerFootprint at 2. cbn. unfold considerFootprint. cbn.
  unfold originDistSq. cbn.
  destruct (Rlt_dec _ _) as [Hlt|Hn].
  - eexists. split; [reflexivity|]. cbn. split; lra.
  - exfalso. apply Hn. lra.
Qed.

(** C1 at the sample list: the hypotheses hold and a hero is selected. *)
Lemma C1_witness :
  exists sel heroFp,
    selectPrimaryFootprint sampleFootprints = Some sel /\
    sampleFootprints !! index sel = Some heroFp /\
    computeFootprintCentroid (pts heroFp) = Some (selCentroid sel).
Proof.
  destruct (proj2 (C1_hero_is_nearest_centroid sampleFootprints 100))
    as (sel & heroFp & H1 & H2 & H3 & _).
  - discriminate.
  - repeat constructor; discriminate.
  - exists sel, heroFp. auto.
Defined.


End GeometryProps.

Section AsyncProps.

(** The monad laws of [Async], pointwise in the log. *)

Lemma bind_ret_l {A B : Type} (a : A) (k : A -> Async B) (log : list Event) :
  bind (ret a) k log = k a log.
Proof. reflexivity. Qed.

Lemma bind_ret_r {A : Type} (m : Async A) (log : list Event) :
  bind m ret log = m log.
Proof. unfold bind, ret. by destruct (m log) as [log' [a|message]]. Qed.

Lemma bind_assoc {A B C : Type} (m : Async A) (k : A -> Async B) (k' : B -> Async C)
    (log : list Event) :
  bind (bind m k) k' log = bind m (fun a => bind (k a) k') log.
Proof. unfold bind. by destruct (m log) as [log' [a|message]]. Qed.

Lemma tryCatch_throw {A : Type} (message : string) (handler : string -> Async A)
    (log : list Event) :
  tryCatch (throw message) handler log = handler message log.
Proof. reflexivity. Qed.

End AsyncProps.

Section OverpassProps.
Local Open Scope R_scope.

Lemma hypot_le (a b t : R) : 0 <= t -> a * a + b * b <= t * t -> hypot a b <= t.
Proof.
  intros Ht H. unfold hypot. rewrite <- (sqrt_square t) by done. by apply sqrt_le_1_alt.
Qed.

(** The closing step appends a copy of the first point exactly when the two
    end points are more than 0.01 m apart. *)
Lemma closeRing_spec (l : list Vector2) (first final : Vector2) :
  head l = Some first -> last l = Some final ->
  (distanceTo first final > 0.01 /\ closeRing l = l ++ [first]) \/
  (distanceTo first final <= 0.01 /\ closeRing l = l).
Proof.
  intros Hh Hl. unfold closeRing.
  destruct l as [|p l]; [done|]. rewrite Hl. simpl in Hh. injection Hh as ->.
  destruct (Rgt_dec (distanceTo first final) 0.01); [left | right]; split; try done. lra.
Qed.

Lemma distanceTo_self (p : Vector2) : distanceTo p p = 0.
Proof.
  unfold distanceTo, hypot. rewrite !Rminus_diag, Rmult_0_r, Rplus_0_r. apply sqrt_0.
Qed.

Lemma footprintOfElement_Some (w : World) (lat0 lon0 : R) (i : nat)
    (el : OverpassElement) (fp : Footprint) :
  footprintOfElement w lat0 lon0 i el = Some fp ->
  exists geom,
    elType el = "way"%string /\ geometry el = Some geom /\ (3 <= length geom)%nat /\
    pts fp = closeRing (projectGeometry lat0 lon0 geom) /\
    tags fp = default ∅ (elTags el).
Proof.
  unfold footprintOfElement.
  destruct (String.eqb (elType el) "way") eqn:Ety; [|done]. simpl.
  destruct (geometry el) as [geom|]; [|done].
  destruct (length geom <? 3)%nat eqn:Elen; [done|].
  intros [= <-]. exists geom.
  apply String.eqb_eq in Ety. apply Nat.ltb_ge in Elen. done.
Qed.

(** Elements that are not ways, carry no geometry, or have fewer than three
    geometry points are skipped. *)
Lemma footprintOfElement_skips (w : World) (lat0 lon0 : R) (i : nat) (el : OverpassElement) :
  elType el <> "way"%string \/ geometry el = None \/
  (exists geom, geometry el = Some geom /\ (length geom < 3)%nat) ->
  footprintOfElement w lat0 lon0 i el = None.
Proof.
  unfold footprintOfElement. intros [Hty | [Hg | (geom & Hg & Hlen)]].
  - apply String.eqb_neq in Hty. by rewrite Hty.
  - rewrite Hg. by destruct (negb _).
  - rewrite Hg. apply Nat.ltb_lt in Hlen. rewrite Hlen. by destruct (negb _).
Qed.

Lemma elem_of_footprintsOfResponse (w : World) (lat0 lon0 : R) (data : OverpassResponse)
    (fp : Footprint) :
  fp ∈ footprintsOfResponse w lat0 lon0 data ->
  exists i el, default [] (elements data) !! i = Some el /\
               footprintOfElement w lat0 lon0 i el = Some fp.
Proof.
  unfold footprintsOfResponse. rewrite list_elem_of_omap.
  intros (o & Ho & ->). apply list_elem_of_lookup in Ho as [i Hi].
  rewrite list_lookup_imap in Hi.
  destruct (default [] (elements data) !! i) as [el|] eqn:Hel; [|done].
  simpl in Hi. injection Hi as Hi. eauto.
Qed.

Lemma attemptEndpoint_classify (w : World) (lat0 lon0 : R) (query : OverpassQuery)
    (endpoint : Endpoint) (attempt : nat) (st : FetchState) :
  attemptEndpoint w lat0 lon0 query endpoint attempt st =
    let st1 := logEvent (EvPost (url endpoint) query) st in
    match classify (overpass w (countPosts (fetchLog st)) (url endpoint)) with
    | Success data => (st1, Some (footprintsOfResponse w lat0 lon0 data))
    | RetryLater => (logEvent (EvSleep (backoffMs attempt)) st1, None)
    | Failed message => (catchAttempt endpoint attempt message st1, None)
    end.
Proof.
  unfold attemptEndpoint, classify. cbv zeta.
  destruct (overpass w _ _) as [res|message]; [|done].
  destruct (negb (resOk res)).
  - by destruct (isRetryStatus (status res)).
  - by destruct (json res).
Qed.

Lemma attemptLoop_Some (w : World) (lat0 lon0 : R) (query : OverpassQuery)
    (endpoint : Endpoint) (attempts : list nat) (st st' : FetchState) (fps : list Footprint) :
  attemptLoop w lat0 lon0 query endpoint attempts st = (st', Some fps) ->
  exists data, fps = footprintsOfResponse w lat0 lon0 data.
Proof.
  revert st. induction attempts as [|a rest IH]; intros st; cbn [attemptLoop]; [done|].
  rewrite attemptEndpoint_classify. cbv zeta.
  destruct (classify _) as [data| |message].
  - intros [= _ <-]. eauto.
  - apply IH.
  - apply IH.
Qed.

Lemma endpointLoop_Some (w : World) (lat0 lon0 : R) (query : OverpassQuery)
    (endpoints : list Endpoint) (st st' : FetchState) (fps : list Footprint) :
  endpointLoop w lat0 lon0 query endpoints st = (st', Some fps) ->
  exists data, fps = footprintsOfResponse w lat0 lon0 data.
Proof.
  revert st. induction endpoints as [|e rest IH]; intros st; cbn [endpointLoop]; [done|].
  destruct (attemptLoop w lat0 lon0 query e [0; 1]%nat st) as [st1 [fps1|]] eqn:E.
  - intros [= _ <-]. eapply attemptLoop_Some; eauto.
  - apply IH.
Qed.

Lemma fetchBuildings_Ok (w : World) (lat0 lon0 sizeMeters : R) (log0 log : list Event)
    (fps : list Footprint) :
  fetchBuildings w lat0 lon0 sizeMeters log0 = (log, Ok fps) ->
  exists data, fps = footprintsOfResponse w lat0 lon0 data.
Proof.
  unfold fetchBuildings.
  destruct (endpointLoop _ _ _ _ _ _) as [st [fps1|]] eqn:E; [|done].
  intros [= _ <-]. eapply endpointLoop_Some; eauto.
Qed.

(** C4 (as amended).  Every footprint [fetchBuildings] returns comes from a
    way with at least three geometry points, so it has at least three points
    (not necessarily distinct); its last point is within 0.01 m of its first,
    and equals it whenever a closing copy was appended, which happens exactly
    when the projected end points are more than 0.01 m apart.  Elements with
    fewer than three geometry points are skipped. *)
Theorem C4_closed_within_tolerance (w : World) (lat0 lon0 sizeMeters : R)
    (log : list Event) (fps : list Footprint) (fp : Footprint) :
  run (fetchBuildings w lat0 lon0 sizeMeters) = (log, Ok fps) -> fp ∈ fps ->
  exists geom first final,
    (3 <= length geom)%nat /\
    (3 <= length (pts fp))%nat /\
    head (pts fp) = Some first /\ last (pts fp) = Some final /\
    distanceTo first final <= 0.01 /\
    head (projectGeometry lat0 lon0 geom) = Some first /\
    ((exists final0, last (projectGeometry lat0 lon0 geom) = Some final0 /\
                     distanceTo first final0 > 0.01 /\
                     pts fp = projectGeometry lat0 lon0 geom ++ [first] /\ final = first) \/
     (last (projectGeometry lat0 lon0 geom) = Some final /\
      pts fp = projectGeometry lat0 lon0 geom)) /\
    (forall i el, (exists short, geometry el = Some short /\ (length short < 3)%nat) ->
       footprintOfElement w lat0 lon0 i el = None).
Proof.
  intros Hrun Hin.
  assert (Hskip : forall i el,
            (exists short, geometry el = Some short /\ (length short < 3)%nat) ->
            footprintOfElement w lat0 lon0 i el = None)
    by (intros i el Hshort; apply footprintOfElement_skips; auto).
  apply fetchBuildings_Ok in Hrun as [data ->].
  apply elem_of_footprintsOfResponse in Hin as (i & el & _ & Hfp).
  apply footprintOfElement_Some in Hfp as (geom & _ & _ & Hlen & Hpts & _).
  assert (Hplen : length (projectGeometry lat0 lon0 geom) = length geom) by apply length_map.
  destruct (projectGeometry lat0 lon0 geom) as [|first rest] eqn:Hproj; [simpl in Hplen; lia|].
  destruct (last (first :: rest)) as [final0|] eqn:Hlast;
    [| by apply eq_None_not_Some in Hlast; destruct Hlast; apply last_is_Some].
  destruct (closeRing_spec (first :: rest) first final0 eq_refl Hlast) as [[Hd Hc] | [Hd Hc]].
  - exists geom, first, first. rewrite Hpts, Hc, Hproj.
    split; [done|]. split; [rewrite length_app; lia|].
    split; [done|]. split; [apply last_snoc|].
    split; [rewrite distanceTo_self; lra|].
    split; [done|]. split; [|done]. left. exists final0. done.
  - exists geom, first, final0. rewrite Hpts, Hc, Hproj.
    split; [done|]. split; [lia|].
    split; [done|]. split; [done|]. split; [done|].
    split; [done|]. split; [by right | done].
Qed.

Lemma endpointLoop_planLoop (w : World) (lat0 lon0 : R) (query : OverpassQuery)
    (endpoints : list Endpoint) (st : FetchState) :
  endpointLoop w lat0 lon0 query endpoints st
  = planLoop w lat0 lon0 query (planOf endpoints) st.
Proof.
  revert st. induction endpoints as [|e rest IH]; intros st; [done|].
  cbn [endpointLoop planOf flat_map app attemptLoop planLoop].
  destruct (attemptEndpoint w lat0 lon0 query e 0 st) as [st1 [fps1|]]; [done|].
  destruct (attemptEndpoint w lat0 lon0 query e 1 st1) as [st2 [fps2|]]; [done|].
  apply IH.
Qed.

Lemma countPosts_postedUrls (l : list Event) : countPosts l = length (postedUrls l).
Proof.
  unfold countPosts, postedUrls. induction l as [|e l IH]; [done|].
  destruct e; simpl; auto.
Qed.

Lemma postedUrls_app (l1 l2 : list Event) :
  postedUrls (l1 ++ l2) = postedUrls l1 ++ postedUrls l2.
Proof. unfold postedUrls. apply omap_app. Qed.

Lemma postedUrls_attemptsOf (l : list Event) : postedUrls l = map fst (attemptsOf l).
Proof.
  induction l as [|e l IH]; [done|]. destruct e; simpl; try done.
  unfold postedUrls in *. simpl. by rewrite IH.
Qed.

Lemma sleepsOf_attemptsOf (l : list Event) :
  sleepsOf l = sleepsBeforeNextPost l ++ concat (map snd (attemptsOf l)).
Proof.
  induction l as [|e l IH]; [done|].
  destruct e; cbn [sleepsBeforeNextPost attemptsOf map concat snd app].
  - exact IH.
  - exact IH.
  - change (sleepsOf (EvSleep ms :: l)) with (ms :: sleepsOf l). by rewrite IH.
  - exact IH.
Qed.

Lemma sleepsBeforeNextPost_starts (l : list Event) :
  startsWithPost l -> sleepsBeforeNextPost l = [].
Proof. by destruct l as [|[] ?]. Qed.

(** An attempt's entry: the POST, then events without a POST, then the rest. *)
Lemma attemptsOf_attempt (u : string) (q : OverpassQuery) (mid rest : list Event) :
  postedUrls mid = [] -> startsWithPost rest ->
  attemptsOf (EvPost u q :: mid ++ rest) = (u, sleepsOf mid) :: attemptsOf rest.
Proof.
  intros Hmid Hrest. cbn [attemptsOf]. revert Hmid.
  induction mid as [|e mid IH]; intros Hmid.
  - simpl. by rewrite sleepsBeforeNextPost_starts.
  - destruct e; try discriminate; simpl in *; unfold postedUrls in *; simpl in *;
      specialize (IH Hmid); by injection IH as -> ->.
Qed.

(** What one attempt does to the state, by its outcome. *)
Lemma attemptEndpoint_log (w : World) (lat0 lon0 : R) (query : OverpassQuery)
    (endpoint : Endpoint) (attempt : nat) (st st' : FetchState)
    (r : option (list Footprint)) :
  attemptEndpoint w lat0 lon0 query endpoint attempt st = (st', r) ->
  let o := classify (overpass w (countPosts (fetchLog st)) (url endpoint)) in
  exists mid,
    fetchLog st' = fetchLog st ++ EvPost (url endpoint) query :: mid /\
    postedUrls mid = [] /\
    sleepsOf mid = delaysAfter o attempt /\
    r = match o with
        | Success data => Some (footprintsOfResponse w lat0 lon0 data)
        | _ => None
        end.
Proof.
  rewrite attemptEndpoint_classify. cbv zeta.
  destruct (classify _) as [data| |message]; intros [= <- <-].
  - exists []. done.
  - exists [EvSleep (backoffMs attempt)]. unfold logEvent. simpl.
    by rewrite <- app_assoc.
  - unfold catchAttempt, logEvent. simpl.
    destruct (attempt <? 1)%nat.
    + exists [EvWarn (attemptFailedText endpoint attempt message); EvSleep (backoffMs attempt)].
      simpl. by rewrite <- !app_assoc.
    + exists [EvWarn (attemptFailedText endpoint attempt message)].
      simpl. by rewrite <- !app_assoc.
Qed.

Lemma countPosts_after_attempt (log mid : list Event) (u : string) (q : OverpassQuery) :
  postedUrls mid = [] -> countPosts (log ++ EvPost u q :: mid) = S (countPosts log).
Proof.
  intros Hmid. rewrite !countPosts_postedUrls, postedUrls_app.
  change (postedUrls (EvPost u q :: mid)) with (u :: postedUrls mid).
  rewrite Hmid, length_app. simpl. lia.
Qed.

(** A failed turn followed by a run of the remaining turns. *)
Lemma turnsRun_failed (w : World) (lat0 lon0 : R) (query : OverpassQuery)
    (e : Endpoint) (a : nat) (rest : list (Endpoint * nat))
    (st st1 st' : FetchState) (mid : list Event) (r : option (list Footprint)) :
  fetchLog st1 = fetchLog st ++ EvPost (url e) query :: mid ->
  postedUrls mid = [] ->
  sleepsOf mid = delaysAfter (classify (overpass w (countPosts (fetchLog st)) (url e))) a ->
  attemptData w (countPosts (fetchLog st)) (url e) = None ->
  turnsRun w lat0 lon0 rest st1 st' r ->
  turnsRun w lat0 lon0 ((e, a) :: rest) st st' r.
Proof.
  intros Hlog Hmid Hsl Hnone (k & added & Hlog' & Hk & Hk1 & Hst & Hatt & Hfail & Hres).
  rewrite Hlog, countPosts_after_attempt in * by done.
  exists (S k), (EvPost (url e) query :: mid ++ added).
  split; [by rewrite Hlog', <- app_assoc|].
  split; [simpl; lia|]. split; [lia|]. split; [done|].
  split.
  { rewrite attemptsOf_attempt by done. cbn [take imap]. rewrite Hatt.
    cbn. rewrite Nat.add_0_r, Hsl. f_equal.
    apply imap_ext. intros i ea _. simpl. by rewrite Nat.add_succ_r. }
  split.
  { intros [|i] ea Hi Hea; simpl in Hea.
    - injection Hea as <-. cbn. by rewrite Nat.add_0_r.
    - rewrite Nat.add_succ_r. apply (Hfail i ea); [lia | done]. }
  destruct r as [fps|].
  - destruct Hres as (ea & data & Hea & Hd & ->).
    assert (Hk1' : (1 <= k)%nat)
      by (apply Hk1; intros ->; by rewrite lookup_nil in Hea).
    exists ea, data. replace (S k - 1)%nat with (S (k - 1)) by lia.
    split; [exact Hea|]. split; [|done]. by rewrite Nat.add_succ_r.
  - destruct Hres as [-> Hall]. split; [done|].
    intros [|i] ea Hea; simpl in Hea.
    + injection Hea as <-. cbn. by rewrite Nat.add_0_r.
    + rewrite Nat.add_succ_r. by apply Hall.
Qed.

(** The turns are taken in order while they fail; the first success is returned. *)
Lemma planLoop_spec (w : World) (lat0 lon0 : R) (query : OverpassQuery)
    (plan : list (Endpoint * nat)) (st st' : FetchState) (r : option (list Footprint)) :
  planLoop w lat0 lon0 query plan st = (st', r) -> turnsRun w lat0 lon0 plan st st' r.
Proof.
  revert st. induction plan as [|[e a] rest IH]; intros st; cbn [planLoop].
  - intros [= <- <-]. exists 0%nat, []. rewrite app_nil_r. repeat split; done.
  - destruct (attemptEndpoint w lat0 lon0 query e a st) as [st1 r1] eqn:E.
    apply attemptEndpoint_log in E as (mid & Hlog & Hmid & Hsl & Hr1). cbv zeta in *.
    destruct (classify (overpass w (countPosts (fetchLog st)) (url e))) as [data| |message] eqn:Ho;
      subst r1.
    + (* success: the run stops here *)
      intros [= <- <-]. exists 1%nat, (EvPost (url e) query :: mid).
      unfold attemptData.
      split; [done|]. split; [simpl; lia|]. split; [done|]. split; [done|].
      split.
      { rewrite <- (app_nil_r mid). rewrite attemptsOf_attempt by done.
        cbn. rewrite Nat.add_0_r, Ho, Hsl. done. }
      split; [intros; lia|].
      exists (e, a), data. cbn. by rewrite Nat.add_0_r, Ho.
    + intros Hrest. eapply turnsRun_failed; eauto.
      * by rewrite Ho.
      * unfold attemptData. by rewrite Ho.
    + intros Hrest. eapply turnsRun_failed; eauto.
      * by rewrite Ho.
      * unfold attemptData. by rewrite Ho.
Qed.

Lemma fst_imap {A B : Type} (f : A -> string) (g : nat -> A -> B) (l : list A) :
  map fst (imap (fun i x => (f x, g i x)) l) = map f l.
Proof.
  revert g. induction l as [|x l IH]; intros g; [done|].
  rewrite imap_cons. simpl. f_equal. apply (IH (fun i => g (S i))).
Qed.


Lemma schedule_plan : schedule = map (fun ea => url ea.1) (planOf OVERPASS_ENDPOINTS).
Proof. reflexivity. Qed.



(** [fetchBuildings] is the run of the six turns from the empty state. *)
Lemma fetchBuildings_planLoop (w : World) (lat0 lon0 sizeMeters : R) :
  exists st r,
    planLoop w lat0 lon0 (queryFor lat0 lon0 sizeMeters) (planOf OVERPASS_ENDPOINTS)
      (mkFetchState [] None) = (st, r) /\
    run (fetchBuildings w lat0 lon0 sizeMeters)
    = (fetchLog st,
       match r with
       | Some fps => Ok fps
       | None => Thrown ("Building data unavailable (last error: "
                         ++ lastErrorText (lastError st)
                         ++ "). Try again in a minute or reduce the search area.")
       end).
Proof.
  unfold run, fetchBuildings. rewrite endpointLoop_planLoop.
  destruct (planLoop _ _ _ _ _ _) as [st [fps|]]; eexists _, _; split; reflexivity.
Qed.

(** C3 (as amended).  The requests go down the fixed schedule de, de, kumi,
    kumi, ru, ru: the next scheduled request is made exactly as long as every
    earlier attempt has failed, whatever the failure (a 429, 503 or 504
    response, any other non-OK status, a rejected fetch, unreadable JSON), so
    an endpoint is tried a second time after any failed first attempt and the
    next mirror follows a failed second attempt.  The first successful
    attempt's footprints are returned; an error is thrown only when all six
    attempts have failed. *)
Theorem C3_mirrors_in_order_retry_after_any_failure (w : World) (lat0 lon0 sizeMeters : R) :
  exists log r n,
    run (fetchBuildings w lat0 lon0 sizeMeters) = (log, r) /\
    (1 <= n <= 6)%nat /\
    postedUrls log = take n schedule /\
    (forall i u, (S i < n)%nat -> schedule !! i = Some u -> attemptData w i u = None) /\
    match r with
    | Ok fps =>
        exists u data, schedule !! (n - 1)%nat = Some u /\
                       attemptData w (n - 1) u = Some data /\
                       fps = footprintsOfResponse w lat0 lon0 data
    | Thrown _ =>
        n = 6%nat /\ forall i u, schedule !! i = Some u -> attemptData w i u = None
    end.
Proof.
  destruct (fetchBuildings_planLoop w lat0 lon0 sizeMeters) as (st & r & Hplan & Hrun).
  apply planLoop_spec in Hplan as (k & added & Hlog & Hk & Hk1 & Hst & Hatt & Hfail & Hres).
  cbn [fetchLog countPosts List.filter length app] in *.
  change (length []) with 0%nat in *. cbn [Nat.add] in *. subst added.
  assert (Hlookup : forall i u, schedule !! i = Some u ->
            exists ea, planOf OVERPASS_ENDPOINTS !! i = Some ea /\ url ea.1 = u).
  { intros i u. do 6 (destruct i as [|i]; [intros [= <-]; eexists; split; reflexivity|]). done. }
  eexists _, _, k. split; [exact Hrun|].
  split; [split; [by apply Hk1 | exact Hk]|].
  split.
  { rewrite postedUrls_attemptsOf, Hatt, fst_imap, schedule_plan. symmetry. apply firstn_map. }
  split.
  { intros i u Hi Hu. apply Hlookup in Hu as (ea & Hea & <-). by apply Hfail. }
  destruct r as [fps|].
  - destruct Hres as (ea & data & Hea & Hd & ->). exists (url ea.1), data.
    split; [|done]. rewrite schedule_plan.
    change (map (fun ea0 => url ea0.1) (planOf OVERPASS_ENDPOINTS))
      with ((fun ea0 => url ea0.1) <$> planOf OVERPASS_ENDPOINTS).
    by rewrite list_lookup_fmap, Hea.
  - destruct Hres as [-> Hall]. split; [done|].
    intros i u Hu. apply Hlookup in Hu as (ea & Hea & <-). by apply Hall.
Qed.

(** With every mirror answering 500, the first endpoint is requested twice,
    although its first answer carried none of the three retry statuses. *)
Lemma C3_counterexample :
  exists log r,
    run (fetchBuildings world500 0 0 100) = (log, r) /\
    ~ retriesOnlyOnRetryStatus world500 log.
Proof.
  eexists _, _. split; [reflexivity|].
  intros H.
  destruct (H 0%nat "https://overpass-api.de/api/interpreter"%string eq_refl eq_refl)
    as (res & Hres & Hstatus).
  injection Hres as <-. discriminate Hstatus.
Qed.

Example fetch_world500_log :
  exists r,
    run (fetchBuildings world500 0 0 100) = (
      [ EvPost "https://overpass-api.de/api/interpreter" (queryFor 0 0 100);
        EvWarn "Attempt 1 on de endpoint failed: Overpass API returned 500";
        EvSleep 2000;
        EvPost "https://overpass-api.de/api/interpreter" (queryFor 0 0 100);
        EvWarn "Attempt 2 on de endpoint failed: Overpass API returned 500";
        EvPost "https://overpass.kumi.systems/api/interpreter" (queryFor 0 0 100);
        EvWarn "Attempt 1 on kumi endpoint failed: Overpass API returned 500";
        EvSleep 2000;
        EvPost "https://overpass.kumi.systems/api/interpreter" (queryFor 0 0 100);
        EvWarn "Attempt 2 on kumi endpoint failed: Overpass API returned 500";
        EvPost "https://overpass.openstreetmap.ru/api/interpreter" (queryFor 0 0 100);
        EvWarn "Attempt 1 on ru endpoint failed: Overpass API returned 500";
        EvSleep 2000;
        EvPost "https://overpass.openstreetmap.ru/api/interpreter" (queryFor 0 0 100);
        EvWarn "Attempt 2 on ru endpoint failed: Overpass API returned 500" ],
      r) /\
    r = Thrown "Building data unavailable (last error: Overpass API returned 500). Try again in a minute or reduce the search area.".
Proof. eexists. split; reflexivity. Qed.

Example fetch_world429_log :
  run (fetchBuildings world429 0 0 100) = (
      [ EvPost "https://overpass-api.de/api/interpreter" (queryFor 0 0 100);
        EvSleep 2000;
        EvPost "https://overpass-api.de/api/interpreter" (queryFor 0 0 100);
        EvSleep 4000;
        EvPost "https://overpass.kumi.systems/api/interpreter" (queryFor 0 0 100);
        EvSleep 2000;
        EvPost "https://overpass.kumi.systems/api/interpreter" (queryFor 0 0 100);
        EvSleep 4000;
        EvPost "https://overpass.openstreetmap.ru/api/interpreter" (queryFor 0 0 100);
        EvSleep 2000;
        EvPost "https://overpass.openstreetmap.ru/api/interpreter" (queryFor 0 0 100);
        EvSleep 4000 ],
      Thrown "Building data unavailable (last error: unknown). Try again in a minute or reduce the search area.").
Proof. reflexivity. Qed.







Lemma worldOk_fetch :
  exists log,
    run (fetchBuildings worldOk 0 0 100)
    = (log, Ok (footprintsOfResponse worldOk 0 0 sampleResponse)).
Proof. eexists. reflexivity. Qed.

Lemma worldOk_footprints :
  exists h1 h2,
    footprintsOfResponse worldOk 0 0 sampleResponse =
      [ mkFootprint [mkVector2 0 0; mkVector2 0 110.54; mkVector2 111.32 0; mkVector2 0 0.0011054]
          h1 ∅ None;
        mkFootprint [mkVector2 0 0; mkVector2 0 110.54; mkVector2 0 0] h2 ∅ None ].
Proof.
  assert (HM : metersPerDegreeLon 0 = 111320).
  { unfold metersPerDegreeLon. rewrite Rmult_0_l, cos_0. lra. }
  assert (Hv : forall la lo x y, x = lo * 111320 -> y = la * 110540 ->
             (let '(x, y) := llToLocalMeters 0 0 la lo in mkVector2 x y) = mkVector2 x y).
  { intros la lo x y -> ->. unfold llToLocalMeters. cbv zeta. rewrite HM.
    unfold metersPerDegreeLat. f_equal; lra. }
  assert (Hshape :
    footprintsOfResponse worldOk 0 0 sampleResponse =
      [ mkFootprint
          (closeRing (projectGeometry 0 0
             [mkCoord 0 0; mkCoord 0.001 0; mkCoord 0 0.001; mkCoord 0.00000001 0]))
          (heightFromTags worldOk 0 ∅) ∅ None;
        mkFootprint
          (closeRing (projectGeometry 0 0 [mkCoord 0 0; mkCoord 0.001 0; mkCoord 0 0]))
          (heightFromTags worldOk 1 ∅) ∅ None ]) by reflexivity.
  eexists _, _. rewrite Hshape.
  unfold projectGeometry. cbn [map coordLat coordLon].
  rewrite (Hv 0 0 0 0), (Hv 0.001 0 0 110.54), (Hv 0 0.001 111.32 0),
          (Hv 0.00000001 0 0 0.0011054) by lra.
  unfold closeRing. cbn [last].
  destruct (Rgt_dec (distanceTo (mkVector2 0 0) (mkVector2 0 0.0011054)) 0.01) as [Hgt|_].
  { exfalso. apply Rgt_not_le in Hgt. apply Hgt. apply hypot_le; cbn; lra. }
  destruct (Rgt_dec (distanceTo (mkVector2 0 0) (mkVector2 0 0)) 0.01) as [Hgt|_].
  { exfalso. rewrite distanceTo_self in Hgt. lra. }
  reflexivity.
Qed.

(** The claim as worded fails on both counts: the first sample way yields a
    footprint whose last point differs from its first, the second one a closed
    footprint with only two distinct points. *)
Lemma C4_counterexample :
  exists log fps fpA fpB,
    run (fetchBuildings worldOk 0 0 100) = (log, Ok fps) /\
    fpA ∈ fps /\ ~ closedRing (pts fpA) /\
    fpB ∈ fps /\ ~ hasThreeDistinct (pts fpB).
Proof.
  destruct worldOk_fetch as [log Hlog].
  destruct worldOk_footprints as (h1 & h2 & Hfps).
  exists log. eexists _, _, _. rewrite Hlog, Hfps.
  split; [reflexivity|].
  split; [apply list_elem_of_here|].
  split.
  { intros (p & Hh & Hl). cbn in Hh, Hl.
    assert (E : mkVector2 0 0 = mkVector2 0 0.0011054) by congruence.
    injection E. lra. }
  split; [apply list_elem_of_further, list_elem_of_here|].
  intros (a & b & c & Ha & Hb & Hc & Hab & Hac & Hbc). cbn [pts] in *.
  set_unfold.
  destruct Ha as [Ha | [Ha | [Ha | []]]], Hb as [Hb | [Hb | [Hb | []]]],
    Hc as [Hc | [Hc | [Hc | []]]]; subst a b c; done.
Qed.

(** C4 at the first footprint fetched from the sample mirrors. *)
Lemma C4_witness :
  exists fp (geom : list OverpassCoordinate) first final,
    fp ∈ footprintsOfResponse worldOk 0 0 sampleResponse /\
    (3 <= length geom)%nat /\
    head (pts fp) = Some first /\ last (pts fp) = Some final /\
    distanceTo first final <= 0.01.
Proof.
  destruct worldOk_footprints as (h1 & h2 & Hfps).
  assert (Hin : mkFootprint [mkVector2 0 0; mkVector2 0 110.54; mkVector2 111.32 0;
                             mkVector2 0 0.0011054] h1 ∅ None
                ∈ footprintsOfResponse worldOk 0 0 sampleResponse).
  { rewrite Hfps. apply list_elem_of_here. }
  destruct (C4_closed_within_tolerance worldOk 0 0 100 _ _ _ eq_refl Hin)
    as (geom & first & final & H1 & _ & H3 & H4 & H5 & _).
  eexists _, geom, first, final. eauto.
Defined.

End OverpassProps.

Section GeocodingProps.
Local Open Scope R_scope.

Lemma chars_str (l : list ascii) : chars (str l) = l.
Proof. apply list_ascii_of_string_of_list_ascii. Qed.


Lemma spanDigits_app (ds tl : list ascii) :
  digits ds -> stopsDigits tl -> spanDigits (ds ++ tl) = (ds, tl).
Proof.
  unfold digits. induction ds as [|c ds IH]; simpl; intros Hds Htl.
  - destruct tl as [|c tl]; [done|]. simpl in *. by rewrite Htl.
  - apply andb_true_iff in Hds as [Hc Hds]. by rewrite Hc, IH.
Qed.

Lemma digit_not_space (c : ascii) : isDigit c = true -> isSpace c = false.
Proof. destruct c as [[] [] [] [] [] [] [] []]; vm_compute; congruence. Qed.

Lemma digit_not_sign (c : ascii) (r : list ascii) :
  isDigit c = true ->
  match c :: r with
  | "-"%char :: r' => (true, r')
  | "+"%char :: r' => (false, r')
  | _ => (false, c :: r)
  end = (false, c :: r).
Proof. destruct c as [[] [] [] [] [] [] [] []]; vm_compute; congruence. Qed.


Lemma parseFloat_numberText (neg : bool) (int frac : list ascii) :
  int <> [] -> digits int -> digits frac ->
  parseFloat (str (numberText neg int frac)) = Some (decimalValue neg int frac 0).
Proof.
  intros Hne Hint Hfrac. unfold parseFloat. rewrite chars_str.
  destruct int as [|d int]; [done|]. clear Hne.
  assert (Hd : isDigit d = true).
  { unfold digits in Hint. simpl in Hint. by apply andb_true_iff in Hint as [? _]. }
  assert (Hstop : stopsDigits match frac with [] => [] | _ => "."%char :: frac end)
    by (by destruct frac).
  assert (Hfstop : spanDigits frac = (frac, [])).
  { rewrite <- (app_nil_r frac) at 1. by apply spanDigits_app. }
  assert (Hspan : spanDigits (d :: int ++ match frac with [] => [] | _ => "."%char :: frac end)
                  = (d :: int, match frac with [] => [] | _ => "."%char :: frac end))
    by exact (spanDigits_app (d :: int) _ Hint Hstop).
  unfold numberText. destruct neg; cbn [app skipSpaces].
  - change (isSpace "-") with false. cbv iota.
    rewrite Hspan.
    destruct frac as [|f frac]; [done|]. by rewrite Hfstop.
  - rewrite (digit_not_space d Hd).
    rewrite digit_not_sign by done.
    rewrite Hspan.
    destruct frac as [|f frac]; [done|]. by rewrite Hfstop.
Qed.


Example extractPlusCode_simple : extractPlusCode "FCHQ+XQ Berlin" = Some "FCHQ+XQ"%string.
Proof. reflexivity. Qed.

Example extractPlusCode_none : extractPlusCode "Alexanderplatz Berlin" = None.
Proof. reflexivity. Qed.

Example latlon_parse :
  matchLatLon "52.5, 13.4" = Some ("52.5", "13.4")%string /\
  parseFloat "52.5" = Some 52.5 /\ parseFloat "13.4" = Some 13.4.
Proof.
  split; [reflexivity|].
  split; cbv -[IZR Rplus Rmult Rdiv Ropp Rinv]; f_equal; lra.
Qed.






Example resolve_blank :
  run (resolveLocationString worldGeo "   " 0 0) = ([], Thrown "Empty location query").
Proof. reflexivity. Qed.

Example resolve_plus_code_with_locality :
  run (resolveLocationString worldGeo "FCHQ+XQ Berlin" 0 0)
  = ([EvGeocode "Berlin"], Ok (mkLatLon 52.53 13.38)).
Proof. reflexivity. Qed.

Example resolve_plus_code_alone :
  run (resolveLocationString worldGeo "FCHQ+XQ" 0 0) = ([], Ok (mkLatLon 52.53 13.38)).
Proof. reflexivity. Qed.

Example resolve_address :
  run (resolveLocationString worldGeo "Alexanderplatz Berlin" 0 0)
  = ([EvGeocode "Alexanderplatz Berlin"], Thrown "No results from Nominatim").
Proof. reflexivity. Qed.

Example resolve_literal_pair :
  exists la lo,
    run (resolveLocationString worldGeo "52.5, 13.4" 0 0) = ([], Ok (mkLatLon la lo))
    /\ la = 52.5 /\ lo = 13.4.
Proof.
  destruct latlon_parse as (Hm & H1 & H2).
  exists 52.5, 13.4. split; [|done].
  unfold resolveLocationString. change (isBlank "52.5, 13.4") with false.
  cbv iota. rewrite Hm, H1, H2. reflexivity.
Qed.

Example matchLatLon_examples :
  matchLatLon " -12 , 3.50 " = Some ("-12", "3.50")%string /\
  matchLatLon "1.,2" = None /\
  matchLatLon "1,2,3" = None /\
  matchLatLon "52.5162, 13.3777 Brandenburg Gate" = None /\
  matchLatLon "+1, 2" = None /\
  matchLatLon ".5, 2" = None.
Proof. repeat split; reflexivity. Qed.

Example extractPlusCode_examples :
  extractPlusCode "fchq+xq berlin" = Some "FCHQ+XQ"%string /\
  extractPlusCode "C++ meetup" = None /\
  extractPlusCode "9F4MGC22+22" = Some "9F4MGC22+22"%string /\
  extractPlusCode "A+B" = None.
Proof. repeat split; reflexivity. Qed.

(** A lower-case code is extracted in upper case, so it is not found in the
    input and the whole input is geocoded as the locality. *)
Example resolve_lower_case_code :
  run (resolveLocationString worldGeo "fchq+xq Berlin" 0 0)
  = ([EvGeocode "fchq+xq Berlin"], Ok (mkLatLon 52.53 13.38)).
Proof. reflexivity. Qed.

End GeocodingProps.

Section HandlerProps.
Local Open Scope R_scope.

Lemma messageOr_nonempty (message fallbackText : string) :
  fallbackText <> ""%string -> messageOr message fallbackText <> ""%string.
Proof.
  intros Hfb. unfold messageOr. destruct (String.eqb message "") eqn:E; [done|].
  by apply String.eqb_neq in E.
Qed.

(** C7 (as amended).  Both handlers always finish with the loading flag reset
    and never throw.  When a call inside the [try] fails, the error state
    holds a non-empty message (the error's own, or the handler's default), and
    the footprints, the canvas key, the area size and, in [handleRender], the
    query text are as before.  [handleLocate] also leaves the coordinates and
    the query text as they were; so does [handleRender] when geocoding fails.
    When geocoding succeeds and fetching fails, [handleRender] has already
    stored the newly resolved coordinates. *)
Theorem C7_errors_surface_as_message (w : World) (s : AppState) :
  let resolved := run (resolveLocationString w (locQuery s) (stLat s) (stLon s)) in
  let sL := applyUpdates s (handleLocate w s).2 in
  let sR := applyUpdates s (handleRender w s).2 in
  (loading sL = false /\ size sL = size s /\
   footprints sL = footprints s /\ renderKey sL = renderKey s /\
   match resolved.2 with
   | Thrown message =>
       error sL = Some (messageOr message "Failed to geocode location.") /\
       messageOr message "Failed to geocode location." <> ""%string /\
       locQuery sL = locQuery s /\ stLat sL = stLat s /\ stLon sL = stLon s
   | Ok p =>
       error sL = None /\ stLat sL = lat p /\ stLon sL = lon p /\
       locQuery sL = (toFixed6 w (lat p) ++ ", " ++ toFixed6 w (lon p))%string
   end) /\
  (loading sR = false /\ size sR = size s /\ locQuery sR = locQuery s /\
   match resolved.2 with
   | Thrown message =>
       error sR = Some (messageOr message "Failed to fetch building data.") /\
       messageOr message "Failed to fetch building data." <> ""%string /\
       footprints sR = footprints s /\ renderKey sR = renderKey s /\
       stLat sR = stLat s /\ stLon sR = stLon s
   | Ok p =>
       stLat sR = lat p /\ stLon sR = lon p /\
       match (fetchBuildings w (lat p) (lon p) (size s) resolved.1).2 with
       | Thrown message =>
           error sR = Some (messageOr message "Failed to fetch building data.") /\
           messageOr message "Failed to fetch building data." <> ""%string /\
           footprints sR = footprints s /\ renderKey sR = renderKey s
       | Ok fetched =>
           error sR = None /\
           footprints sR = prepareFootprints fetched (size s * 0.4) /\
           renderKey sR = S (renderKey s)
       end
   end).
Proof.
  cbv zeta. unfold handleLocate, handleRender.
  destruct (run (resolveLocationString w (locQuery s) (stLat s) (stLon s)))
    as [log1 [p|message]]; cbn [fst snd].
  - split.
    + repeat split; reflexivity.
    + destruct (fetchBuildings w (lat p) (lon p) (size s) log1) as [log2 [fetched|message]];
        cbn [fst snd].
      * repeat split; reflexivity.
      * repeat split; try reflexivity. by apply messageOr_nonempty.
  - split.
    + repeat split; try reflexivity. by apply messageOr_nonempty.
    + repeat split; try reflexivity. by apply messageOr_nonempty.
Qed.

Lemma world500_fetch_fails (lat0 lon0 sizeMeters : R) (log0 : list Event) :
  exists log message,
    fetchBuildings world500 lat0 lon0 sizeMeters log0 = (log, Thrown message).
Proof. eexists _, _. reflexivity. Qed.

(** With a literal pair as query and every mirror answering 500, "Fetch"
    ends in an error, the footprints stay, and yet the stored coordinates have
    moved from the origin to the typed pair. *)
Lemma C7_counterexample :
  exists message,
    let s' := applyUpdates stateAtOrigin (handleRender world500 stateAtOrigin).2 in
    error s' = Some message /\ loading s' = false /\
    footprints s' = footprints stateAtOrigin /\
    stLat s' = 52.5 /\ stLat stateAtOrigin = 0 /\
    ~ errorKeepsRenderedState handleRender world500 stateAtOrigin.
Proof.
  destruct latlon_parse as (Hm & H1 & H2).
  assert (Hres : run (resolveLocationString world500 "52.5, 13.4" 0 0)
                 = ([], Ok (mkLatLon 52.5 13.4))).
  { unfold resolveLocationString. change (isBlank "52.5, 13.4") with false.
    cbv iota. rewrite Hm, H1, H2. reflexivity. }
  destruct (world500_fetch_fails 52.5 13.4 250 []) as (log & message & Hfetch).
  assert (Hs : applyUpdates stateAtOrigin (handleRender world500 stateAtOrigin).2
               = mkAppState "52.5, 13.4" 52.5 13.4 250 [nearTriangle] false
                   (Some (messageOr message "Failed to fetch building data.")) 0).
  { unfold handleRender. cbn [locQuery stLat stLon size stateAtOrigin].
    rewrite Hres. cbn [lat lon]. rewrite Hfetch. reflexivity. }
  exists (messageOr message "Failed to fetch building data."). cbv zeta.
  unfold errorKeepsRenderedState. cbv zeta. rewrite Hs. cbn.
  repeat split; try reflexivity.
  intros H. specialize (H ltac:(discriminate)). injection H. lra.
Qed.

End HandlerProps.

Section AiProps.
Local Open Scope R_scope.

Lemma generateBuildingInfo_not_ok (reply : HttpResponse Ai.Body) :
  resOk reply = false ->
  Ai.returned (Ai.generateBuildingInfo (Ok reply)) = None /\
  exists message, Ai.hookError (Ai.generateBuildingInfo (Ok reply)) = Some message.
Proof.
  intros Hok. unfold Ai.generateBuildingInfo. rewrite Hok. simpl.
  destruct (json reply) as [errorData|message]; simpl; eauto.
Qed.

(** C8 (as amended).  With an API key configured: when either completion
    request fails, the route answers 500 with the error text
    "Failed to generate building information", the placeholder name
    "Unknown Building" and the placeholder description; the hook treats that
    non-OK reply as an error, so its caller receives [null] and the hook's
    error state holds the text, not the placeholder.  When both requests
    succeed the route answers 200 and the caller receives the body, whose
    description is the generated text, or "A building in the urban
    landscape." when the completion carries no message content.  No non-OK
    reply ever reaches the caller as data. *)
Theorem C8_llm_failure_and_missing_content (llm : Ai.Llm) (env : Ai.Env) (openaiKey : string)
    (building : Ai.BuildingInfo) :
  Ai.apiKeyOf env (Ai.requestFor openaiKey building) <> None ->
  let reply := Ai.buildingInfoRoute llm env (Ai.requestFor openaiKey building) in
  let received := Ai.buildingInfoFlow llm env openaiKey building in
  let context := Ai.createBuildingContext llm building in
  let failure :=
    reply = Ai.placeholder /\
    received = Ai.mkHookResult None false (Some "Failed to generate building information"%string) in
  match Ai.chat llm Ai.descriptionPrompt context with
  | Thrown _ => failure
  | Ok content =>
      match Ai.chat llm Ai.namePrompt (Ai.nameQuestion building context) with
      | Thrown _ => failure
      | Ok _ =>
          exists body,
            reply = mkResponse 200 (Ok body) /\
            received = Ai.mkHookResult (Some body) false None /\
            Ai.description body =
              Some (match Ai.truthy content with
                    | Some text => text
                    | None => "A building in the urban landscape."%string
                    end)
      end
  end /\
  (forall other : HttpResponse Ai.Body, resOk other = false ->
     Ai.returned (Ai.generateBuildingInfo (Ok other)) = None).
Proof.
  intros Hkey. cbv zeta.
  split; [|intros other Hother; by apply generateBuildingInfo_not_ok].
  unfold Ai.buildingInfoFlow, Ai.buildingInfoRoute, Ai.tryBuildingInfo.
  cbn [Ai.reqJson Ai.requestFor].
  change (Ai.mkRequest (Ok (Some building))
            (if String.eqb openaiKey "" then None else Some (trim openaiKey)))
    with (Ai.requestFor openaiKey building).
  destruct (Ai.apiKeyOf env (Ai.requestFor openaiKey building)) as [k|]; [|done].
  destruct (Ai.chat llm Ai.descriptionPrompt _) as [content|message]; [|by split].
  destruct (Ai.chat llm Ai.namePrompt _) as [nameContent|message]; [|by split].
  eexists. split; [reflexivity|]. split; [reflexivity|].
  cbn [Ai.description]. by destruct (Ai.truthy content).
Qed.

(** With the completion API down the route answers with the placeholder, and
    the caller of the flow receives [null] and an error text instead of it. *)
Lemma C8_counterexample :
  Ai.buildingInfoRoute llmDown (Ai.mkEnv (Some "sk-test"%string))
    (Ai.requestFor "" sampleBuilding) = Ai.placeholder /\
  Ai.buildingInfoFlow llmDown (Ai.mkEnv (Some "sk-test"%string)) "" sampleBuilding
  = Ai.mkHookResult None false (Some "Failed to generate building information"%string) /\
  ~ Ai.callerReceivesPlaceholder
      (Ai.buildingInfoFlow llmDown (Ai.mkEnv (Some "sk-test"%string)) "" sampleBuilding).
Proof.
  split; [reflexivity|]. split; [reflexivity|].
  intros (body & Hbody & _). discriminate Hbody.
Qed.

(** C8 with a key configured and completions that carry no content: the
    caller receives the default description. *)
Lemma C8_witness :
  exists body,
    Ai.buildingInfoFlow llmSilent (Ai.mkEnv (Some "sk-test"%string)) "" sampleBuilding
    = Ai.mkHookResult (Some body) false None /\
    Ai.description body = Some "A building in the urban landscape."%string /\
    Ai.bodyName body = Some "Glass Tower"%string.
Proof.
  destruct (C8_llm_failure_and_missing_content llmSilent (Ai.mkEnv (Some "sk-test"%string))
              ""%string sampleBuilding) as [H _].
  - discriminate.
  - cbv zeta in H. cbn [llmSilent Ai.chat] in H.
    change (String.eqb Ai.descriptionPrompt Ai.namePrompt) with false in H.
    change (String.eqb Ai.namePrompt Ai.namePrompt) with true in H.
    cbv iota in H. destruct H as (body & Hreply & Hrecv & Hdesc).
    exists body. split; [exact Hrecv|]. split; [exact Hdesc|].
    injection Hreply as <-. reflexivity.
Defined.

End AiProps.

Section KeysProps.

Lemma toObject_lookup (k : Keys.ApiKeys) (i : string) :
  Keys.toObject k !! i =
    if decide (i = "openai"%string) then Some (Keys.JString (Keys.openai k))
    else if decide (i = "gemini"%string) then Some (Keys.JString (Keys.gemini k))
    else if decide (i = "huggingface"%string) then Some (Keys.JString (Keys.huggingface k))
    else if decide (i = "ollama"%string) then Some (Keys.JString (Keys.ollama k))
    else None.
Proof.
  unfold Keys.toObject. rewrite !lookup_insert, lookup_empty.
  repeat case_decide; congruence.
Qed.



(** Missing or unparsable stored data yields the default keys. *)
Lemma readFromStorage_default (js : Keys.Json) (defaultKeys : Keys.ApiKeys) (b : Keys.Browser) :
  Keys.items b !! Keys.STORAGE_KEY = None \/
  (exists raw message, Keys.items b !! Keys.STORAGE_KEY = Some raw /\
                       Keys.parse js raw = Thrown message) ->
  Keys.readFromStorage js defaultKeys b = Keys.toObject defaultKeys.
Proof.
  unfold Keys.readFromStorage. intros [Hnone | (raw & message & Hraw & Hparse)].
  - rewrite Hnone. by destruct (negb _), (Keys.storageBlocked b).
  - rewrite Hraw, Hparse. by destruct (negb _), (Keys.storageBlocked b), (String.eqb raw "").
Qed.




End KeysProps.

Section StoreProps.
Local Open Scope R_scope.

(** Allocation leaves every existing object and all tags objects as they were. *)
Lemma alloc_frame (h h' : Store.Heap) (o : Store.FootprintObj) (r : nat) :
  Store.alloc h o = (h', r) ->
  Store.objects h !! r = None /\
  Store.objects h' !! r = Some o /\
  Store.tagObjects h' = Store.tagObjects h /\
  (forall r0 o0, Store.objects h !! r0 = Some o0 -> Store.objects h' !! r0 = Some o0).
Proof.
  unfold Store.alloc. intros [= <- <-]. cbn.
  assert (Hfresh : Store.objects h !! fresh (dom (Store.objects h)) = None).
  { apply not_elem_of_dom. apply is_fresh. }
  split; [done|]. split; [apply lookup_insert_eq|]. split; [done|].
  intros r0 o0 Hr0. rewrite lookup_insert_ne; [done|]. intros <-. congruence.
Qed.

Lemma allocAll_frame (os : list Store.FootprintObj) (h h' : Store.Heap) (rs : list nat) :
  Store.allocAll h os = (h', rs) ->
  Store.tagObjects h' = Store.tagObjects h /\
  (forall r0 o0, Store.objects h !! r0 = Some o0 -> Store.objects h' !! r0 = Some o0) /\
  (forall r, r ∈ rs -> Store.objects h !! r = None) /\
  Store.deref h' rs = os.
Proof.
  revert h h' rs. induction os as [|o os IH]; intros h h' rs; cbn [Store.allocAll].
  - intros [= <- <-]. repeat split; try done. intros r Hr. by apply elem_of_nil in Hr.
  - destruct (Store.alloc h o) as [h1 r] eqn:Ha.
    destruct (Store.allocAll h1 os) as [h2 rs'] eqn:Hall. intros [= <- <-].
    apply alloc_frame in Ha as (Hnew & Hr & Htags & Hkeep).
    apply IH in Hall as (Htags' & Hkeep' & Hfresh' & Hderef').
    split; [congruence|]. split; [eauto|]. split.
    + intros r0 [-> | Hin]%elem_of_cons; [done|].
      specialize (Hfresh' _ Hin). destruct (Store.objects h !! r0) eqn:E; [|done].
      apply Hkeep in E. congruence.
    + unfold Store.deref in *. cbn [omap list_omap]. rewrite (Hkeep' _ _ Hr).
      by rewrite Hderef'.
Qed.

Lemma view_prepareObj (h h' : Store.Heap) sel s i (o : Store.FootprintObj) :
  Store.tagObjects h' = Store.tagObjects h ->
  Store.view h' (Store.prepareObj sel s i o) = prepareOne sel s i (Store.view h o).
Proof. intros Ht. unfold Store.view, Store.prepareObj, prepareOne. cbn. by rewrite Ht. Qed.

Lemma map_view_imap (h h' : Store.Heap) sel s (os : list Store.FootprintObj) :
  Store.tagObjects h' = Store.tagObjects h ->
  map (Store.view h') (imap (Store.prepareObj sel s) os)
  = imap (prepareOne sel s) (map (Store.view h) os).
Proof.
  intros Ht. revert sel s.
  assert (G : forall (f : nat -> nat) (os0 : list Store.FootprintObj) sel s,
            map (Store.view h') (imap (fun i => Store.prepareObj sel s (f i)) os0)
            = imap (fun i => prepareOne sel s (f i)) (map (Store.view h) os0)).
  { intros f os0. revert f. induction os0 as [|o os0 IH]; intros f sel s; [done|].
    cbn [imap map]. rewrite (view_prepareObj h h') by done. f_equal.
    apply (IH (fun i => f (S i))). }
  intros sel s. apply (G (fun i => i)).
Qed.

Lemma objTags_imap_prepareObj sel s (os : list Store.FootprintObj) :
  map Store.objTags (imap (Store.prepareObj sel s) os) = map Store.objTags os.
Proof.
  assert (G : forall (f : nat -> nat) (os0 : list Store.FootprintObj),
            map Store.objTags (imap (fun i => Store.prepareObj sel s (f i)) os0)
            = map Store.objTags os0).
  { intros f os0. revert f. induction os0 as [|o os0 IH]; intros f; [done|].
    cbn [imap map]. f_equal. apply (IH (fun i => f (S i))). }
  apply (G (fun i => i)).
Qed.

(** C10.  [prepareFootprints] never writes to an object it is given: it reads
    the footprint objects and returns new objects at fresh addresses, so every
    object that existed before the call, in particular every input footprint,
    has the same points, height, tags reference and metadata afterwards, and
    every tags object is unchanged.  The new objects are the prepared
    footprints (with the changed points, height and metadata) and share the
    tags object of their source.  The render pass over the prepared footprints
    returns the heap exactly as it found it. *)
Theorem C10_inputs_unchanged_render_reads_only (h : Store.Heap) (refs : list nat)
    (platformSize : R) (controls : Store.BuildingControlState) :
  let h' := (Store.prepareFootprints h refs platformSize).1 in
  let out := (Store.prepareFootprints h refs platformSize).2 in
  (forall r o, Store.objects h !! r = Some o -> Store.objects h' !! r = Some o) /\
  Store.tagObjects h' = Store.tagObjects h /\
  (forall r, r ∈ out -> Store.objects h !! r = None) /\
  map (Store.view h') (Store.deref h' out)
    = prepareFootprints (map (Store.view h) (Store.deref h refs)) platformSize /\
  map Store.objTags (Store.deref h' out) = map Store.objTags (Store.deref h refs) /\
  (Store.renderBuildings h' out controls).1 = h'.
Proof.
  cbv zeta. unfold Store.prepareFootprints, prepareFootprints.
  set (fps := Store.deref h refs).
  destruct (selectPrimaryFootprint (map (Store.view h) fps)) as [sel|] eqn:Hsel.
  - destruct (Store.allocAll h _) as [h' out] eqn:Hall. cbn [fst snd].
    apply allocAll_frame in Hall as (Htags & Hkeep & Hfresh & Hderef).
    split; [done|]. split; [done|]. split; [done|].
    rewrite Hderef.
    split; [by apply map_view_imap|].
    split; [apply objTags_imap_prepareObj | reflexivity].
  - cbn [fst snd].
    assert (Hempty : fps = []).
    { destruct fps as [|o os]; [done|]. discriminate Hsel. }
    rewrite Hempty. repeat split; try done. intros r Hr. by apply elem_of_nil in Hr.
Qed.

(** On the sample heap the prepared footprint is a new object that shares
    the tags object of its source, and the source object is untouched. *)
Example prepare_on_heap :
  exists h' r o,
    Store.prepareFootprints sampleHeap [0%nat] 100 = (h', [r]) /\
    r <> 0%nat /\
    Store.objects h' !! 0%nat = Store.objects sampleHeap !! 0%nat /\
    Store.objects h' !! r = Some o /\ Store.objTags o = 7%nat /\
    isHero (Store.view h' o) = true.
Proof.
  eexists _, _, _. split; [reflexivity|].
  split; [vm_compute; lia|].
  split; [reflexivity|]. split; [reflexivity|]. split; reflexivity.
Qed.

End StoreProps.

Section StringExamples.

Example splitSpaces_example :
  splitSpaces " FCHQ+XQ   Berlin " = [""; "FCHQ+XQ"; "Berlin"; ""]%string.
Proof. reflexivity. Qed.

Example replaceFirst_example :
  trim (replaceFirst "FCHQ+XQ Berlin" "FCHQ+XQ" "") = "Berlin"%string.
Proof. reflexivity. Qed.

Example showZ_example : showZ 504 = "504"%string.
Proof. reflexivity. Qed.

End StringExamples.

(* ================================================================== *)
(** * Further properties of the code *)
(* ================================================================== *)

Section FrameProps.
Local Open Scope R_scope.

Lemma metersPerDegreeLon_pos (lat0 : R) : -90 < lat0 < 90 -> 0 < metersPerDegreeLon lat0.
Proof.
  intros [Hlo Hhi]. unfold metersPerDegreeLon, DEG2RAD.
  assert (Hpi := PI_RGT_0).
  assert (0 < cos (lat0 * (PI / 180))); [|lra].
  apply cos_gt_0.
  - replace (- (PI / 2)) with (-90 * (PI / 180)) by field.
    apply Rmult_lt_compat_r; lra.
  - replace (PI / 2) with (90 * (PI / 180)) by field.
    apply Rmult_lt_compat_r; lra.
Qed.

(** X1.  Away from the poles the bounding box of the Overpass query is the
    square of side [sizeMeters] centred on the query point: its north-east
    corner lies at (half, half) in local meters and its south-west corner at
    (-half, -half), exactly (the self test "bbox half-size" allows 2 m). *)
Theorem bbox_corners_in_local_meters (lat0 lon0 sizeMeters : R) :
  cos (lat0 * DEG2RAD) <> 0 ->
  let q := queryFor lat0 lon0 sizeMeters in
  llToLocalMeters lat0 lon0 (north q) (east q) = (sizeMeters / 2, sizeMeters / 2) /\
  llToLocalMeters lat0 lon0 (south q) (west q) = (- (sizeMeters / 2), - (sizeMeters / 2)).
Proof.
  intros Hcos. cbv zeta.
  unfold llToLocalMeters, queryFor, metersPerDegreeLon, metersPerDegreeLat.
  cbn [north east south west].
  split; f_equal; field; lra.
Qed.

(** X1 on the equator. *)
Lemma bbox_corners_in_local_meters_witness :
  llToLocalMeters 0 13 (north (queryFor 0 13 200)) (east (queryFor 0 13 200)) = (200 / 2, 200 / 2).
Proof.
  refine (proj1 (bbox_corners_in_local_meters 0 13 200 _)).
  rewrite Rmult_0_l, cos_0. lra.
Defined.

(** X2.  Between the poles the local frame keeps the orientation of the map:
    a point lies east of the origin exactly when its x is positive, north of
    it exactly when its y is positive, and on the axes exactly when the
    coordinate is shared. *)
Theorem local_frame_keeps_orientation (lat0 lon0 lat lon : R) :
  -90 < lat0 < 90 ->
  let p := llToLocalMeters lat0 lon0 lat lon in
  (0 < p.1 <-> lon0 < lon) /\ (0 < p.2 <-> lat0 < lat) /\
  (p.1 = 0 <-> lon = lon0) /\ (p.2 = 0 <-> lat = lat0).
Proof.
  intros Hlat. cbv zeta. unfold llToLocalMeters. cbn [fst snd].
  pose proof (metersPerDegreeLon_pos lat0 Hlat) as Hm.
  unfold metersPerDegreeLat.
  repeat split; intros H; nra.
Qed.

(** X2 for Berlin. *)
Lemma local_frame_keeps_orientation_witness :
  0 < (llToLocalMeters 52.5 13.4 52.501 13.401).1 <-> 13.4 < 13.401.
Proof.
  refine (proj1 (local_frame_keeps_orientation 52.5 13.4 52.501 13.401 _)). lra.
Defined.

End FrameProps.

Section PreparedProps.
Local Open Scope R_scope.

Lemma sumR_centerPts (c : XY) (s : R) (l : list Vector2) :
  sumR (map vx (centerPts c s l)) = (sumR (map vx l) - INR (length l) * cx c) * s /\
  sumR (map vy (centerPts c s l)) = (sumR (map vy l) - INR (length l) * cy c) * s.
Proof.
  induction l as [|pt l [IHx IHy]].
  - cbn. split; ring.
  - change (centerPts c s (pt :: l))
      with (mkVector2 ((vx pt - cx c) * s) ((vy pt - cy c) * s) :: centerPts c s l).
    cbn [map sumR foldr vx vy]. fold (sumR (map vx (centerPts c s l))).
    fold (sumR (map vy (centerPts c s l))). fold (sumR (map vx l)). fold (sumR (map vy l)).
    rewrite IHx, IHy. change (length (pt :: l)) with (S (length l)). rewrite S_INR.
    split; ring.
Qed.

Lemma length_centerPts (c : XY) (s : R) (l : list Vector2) :
  length (centerPts c s l) = length l.
Proof. unfold centerPts. by rewrite length_map. Qed.

(** The centroid of recentred and scaled points is the recentred and scaled centroid. *)
Lemma computeFootprintCentroid_centerPts (c c0 : XY) (s : R) (l : list Vector2) :
  computeFootprintCentroid l = Some c0 ->
  exists c', computeFootprintCentroid (centerPts c s l) = Some c' /\
             cx c' = (cx c0 - cx c) * s /\ cy c' = (cy c0 - cy c) * s.
Proof.
  intros Hc0.
  assert (Hne : l <> []).
  { intros ->. discriminate Hc0. }
  apply computeFootprintCentroid_mean in Hc0 as [Hx Hy].
  assert (Hne' : centerPts c s l <> []).
  { destruct l; [done|]. discriminate. }
  destruct (computeFootprintCentroid_Some _ Hne') as [c' Hc'].
  exists c'. split; [done|].
  apply computeFootprintCentroid_mean in Hc' as [Hx' Hy'].
  destruct (sumR_centerPts c s l) as [Sx Sy].
  rewrite Hx', Hy', Sx, Sy, Hx, Hy, length_centerPts.
  assert (INR (length l) <> 0).
  { apply not_0_INR. destruct l; [done|]. discriminate. }
  split; field; done.
Qed.

Lemma selection_centroid (fps : list Footprint) (sel : PrimarySelection) (heroFp : Footprint) :
  selectPrimaryFootprint fps = Some sel ->
  fps !! index sel = Some heroFp -> pts heroFp <> [] ->
  computeFootprintCentroid (pts heroFp) = Some (selCentroid sel).
Proof.
  intros Hsel Hhero Hpts.
  assert (Hne : fps <> []).
  { intros ->. discriminate Hsel. }
  rewrite (selectPrimaryFootprint_unfold _ Hne) in Hsel. cbv zeta in Hsel.
  injection Hsel as <-. cbn [index selCentroid] in *.
  destruct (forEach_bestAfter fps) as [(_ & Hidx & _ & Hall) | (fp & Hfp & Hc & _)].
  - rewrite Hidx in Hhero. apply Hall in Hhero.
    apply computeFootprintCentroid_None in Hhero. done.
  - congruence.
Qed.

Lemma prepared_lookup (fps : list Footprint) (platformSize : R) (j : nat) (fp' : Footprint) :
  prepareFootprints fps platformSize !! j = Some fp' ->
  exists sel fp,
    selectPrimaryFootprint fps = Some sel /\ fps !! j = Some fp /\
    fp' = prepareOne sel
            (fitScaleOf platformSize (maxRadiusOf (selCentroid sel) (heroPts fps sel))) j fp.
Proof.
  intros Hj. destruct (selectPrimaryFootprint fps) as [sel|] eqn:Hsel.
  - rewrite (prepareFootprints_unfold _ _ _ Hsel) in Hj.
    rewrite list_lookup_imap in Hj.
    destruct (fps !! j) as [fp|] eqn:Hfp; [|done].
    injection Hj as <-. by exists sel, fp.
  - unfold prepareFootprints in Hj. rewrite Hsel in Hj. done.
Qed.

(** X3.  The centroid recorded in the metadata of a prepared footprint with
    points is the centroid of its prepared points; for the hero that is the
    origin the code writes down without computing it. *)
Theorem recorded_centroid_is_true_centroid (fps : list Footprint) (platformSize : R)
    (j : nat) (fp' : Footprint) :
  prepareFootprints fps platformSize !! j = Some fp' -> pts fp' <> [] ->
  exists c c', recordedCentroid fp' = Some c /\
               computeFootprintCentroid (pts fp') = Some c' /\
               cx c = cx c' /\ cy c = cy c'.
Proof.
  intros Hj Hpts.
  apply prepared_lookup in Hj as (sel & fp & Hsel & Hfp & ->).
  unfold recordedCentroid, prepareOne in *. cbn [metadata centroid pts] in *.
  destruct (Nat.eqb_spec j (index sel)) as [->|Hne].
  - assert (Hfpts : pts fp <> []).
    { intros E. rewrite E in Hpts. done. }
    pose proof (selection_centroid _ _ _ Hsel Hfp Hfpts) as Hc.
    destruct (computeFootprintCentroid_centerPts (selCentroid sel) _
                (fitScaleOf platformSize (maxRadiusOf (selCentroid sel) (heroPts fps sel)))
                _ Hc) as (c' & Hc' & Hx & Hy).
    exists (mkXY 0 0), c'. split; [done|]. split; [done|].
    rewrite Hx, Hy. cbn [cx cy]. split; ring.
  - destruct (computeFootprintCentroid_Some _ Hpts) as [c Hc].
    exists c, c. by rewrite Hc.
Qed.

(** X3 on the two sample triangles: the hero is the second footprint. *)
Lemma recorded_centroid_is_true_centroid_witness :
  exists fp' c c',
    prepareFootprints sampleFootprints 100 !! 1%nat = Some fp' /\
    recordedCentroid fp' = Some c /\
    computeFootprintCentroid (pts fp') = Some c' /\ cx c = cx c' /\ cy c = cy c'.
Proof.
  destruct (selectPrimaryFootprint_sample) as (c0 & Hsel & _).
  pose proof (prepareFootprints_unfold sampleFootprints 100 _ Hsel) as Hprep.
  assert (Hl : exists fp', prepareFootprints sampleFootprints 100 !! 1%nat = Some fp' /\
                           pts fp' <> []).
  { rewrite Hprep. eexists. split; [reflexivity|]. discriminate. }
  destruct Hl as (fp' & Hl & Hne).
  destruct (recorded_centroid_is_true_centroid sampleFootprints 100 1 fp' Hl Hne)
    as (c & c' & H).
  exists fp', c, c'. split; [exact Hl|exact H].
Defined.

(** X4.  Preparation moves every centroid with the points: a footprint whose
    centroid was [c] has, afterwards, the recorded centroid [(c - hero) * s],
    with [hero] the selected centroid and [s] the recorded common scale. *)
Theorem prepared_centroid_is_recentred (fps : list Footprint) (platformSize : R)
    (sel : PrimarySelection) (j : nat) (fp fp' : Footprint) (c : XY) :
  selectPrimaryFootprint fps = Some sel ->
  fps !! j = Some fp -> prepareFootprints fps platformSize !! j = Some fp' ->
  computeFootprintCentroid (pts fp) = Some c ->
  exists c' s, recordedCentroid fp' = Some c' /\ recordedScale fp' = Some s /\
               cx c' = (cx c - cx (selCentroid sel)) * s /\
               cy c' = (cy c - cy (selCentroid sel)) * s.
Proof.
  intros Hsel Hfp Hj Hc.
  apply prepared_lookup in Hj as (sel' & fp0 & Hsel' & Hfp0 & ->).
  assert (sel' = sel) as -> by congruence. assert (fp0 = fp) as -> by congruence.
  set (s := fitScaleOf platformSize (maxRadiusOf (selCentroid sel) (heroPts fps sel))).
  unfold recordedCentroid, recordedScale, prepareOne. cbn [metadata centroid scale].
  destruct (Nat.eqb_spec j (index sel)) as [->|Hne].
  - assert (Hfpts : pts fp <> []).
    { intros E. rewrite E in Hc. discriminate Hc. }
    pose proof (selection_centroid _ _ _ Hsel Hfp Hfpts) as Hc0.
    assert (c = selCentroid sel) as -> by congruence.
    exists (mkXY 0 0), s. cbn [cx cy]. repeat split; ring.
  - destruct (computeFootprintCentroid_centerPts (selCentroid sel) _ s _ Hc)
      as (c' & Hc' & Hx & Hy).
    exists c', s. by rewrite Hc'.
Qed.

(** X4 for the far triangle of the sample. *)
Lemma prepared_centroid_is_recentred_witness :
  exists fp' c' s,
    prepareFootprints sampleFootprints 100 !! 0%nat = Some fp' /\
    recordedCentroid fp' = Some c' /\ recordedScale fp' = Some s /\
    cx c' = (102 - 1.5) * s.
Proof.
  destruct (selectPrimaryFootprint_sample) as (c0 & Hsel & Hx0 & Hy0).
  pose proof (prepareFootprints_unfold sampleFootprints 100 _ Hsel) as Hprep.
  assert (Hl : exists fp', prepareFootprints sampleFootprints 100 !! 0%nat = Some fp').
  { rewrite Hprep. eexists. reflexivity. }
  destruct Hl as (fp' & Hl).
  assert (Hc : computeFootprintCentroid (pts farTriangle)
               = Some (mkXY ((0 + 100 + 108 + 100 + 100) / INR 4)
                            ((0 + 100 + 100 + 108 + 100) / INR 4))) by reflexivity.
  destruct (prepared_centroid_is_recentred sampleFootprints 100 _ 0 farTriangle fp' _
              Hsel eq_refl Hl Hc) as (c' & s & Hr & Hs & Hx & _).
  exists fp', c', s. split; [exact Hl|]. split; [exact Hr|]. split; [exact Hs|].
  rewrite Hx. cbn [cx selCentroid]. rewrite Hx0.
  replace (INR 4) with 4 by (cbn; lra). f_equal. lra.
Defined.

Lemma vertex_le_maxVertexDist (c : XY) (l : list Vector2) (pt : Vector2) :
  pt ∈ l -> hypot (vx pt - cx c) (vy pt - cy c) <= maxVertexDist c l.
Proof.
  induction l as [|q l IH]; intros Hin.
  - by apply elem_of_nil in Hin.
  - cbn [maxVertexDist foldr]. fold (maxVertexDist c l).
    apply elem_of_cons in Hin as [->|Hin].
    + apply Rmax_l.
    + etransitivity; [by apply IH|apply Rmax_r].
Qed.

(** X5.  On a platform of non-negative size every vertex of the prepared
    hero lies within the margin, 0.35 times the platform size, of the origin,
    whether or not the hero's radius is above the floor of one meter. *)
Theorem prepared_hero_within_margin (fps : list Footprint) (platformSize : R)
    (j : nat) (fp' : Footprint) (pt : Vector2) :
  0 <= platformSize ->
  prepareFootprints fps platformSize !! j = Some fp' -> isHero fp' = true ->
  pt ∈ pts fp' ->
  hypot (vx pt) (vy pt) <= 0.35 * platformSize.
Proof.
  intros HP Hj Hhero Hpt.
  apply prepared_lookup in Hj as (sel & fp & Hsel & Hfp & ->).
  rewrite isHero_prepareOne in Hhero. apply Nat.eqb_eq in Hhero as ->.
  unfold prepareOne in Hpt. cbn [pts] in Hpt.
  assert (Hhp : heroPts fps sel = pts fp).
  { unfold heroPts. by rewrite Hfp. }
  rewrite Hhp in Hpt.
  set (c := selCentroid sel) in *.
  set (r := maxVertexDist c (pts fp)).
  assert (Hr : 0 <= r) by apply maxVertexDist_nonneg.
  assert (Hs : fitScaleOf platformSize (maxRadiusOf c (pts fp))
               = platformSize * 0.35 / Rmax 1 r).
  { rewrite fitScaleOf_eq by apply maxRadiusOf_ge_1. by rewrite maxRadiusOf_spec. }
  rewrite Hs in Hpt.
  set (s := platformSize * 0.35 / Rmax 1 r) in *.
  assert (Hm : 1 <= Rmax 1 r) by apply Rmax_l.
  assert (Hm' : r <= Rmax 1 r) by apply Rmax_r.
  assert (Hs0 : 0 <= s).
  { unfold s. apply Rmult_le_pos; [lra|]. left. apply Rinv_0_lt_compat. lra. }
  pose proof (vertex_le_maxVertexDist (mkXY 0 0) _ _ Hpt) as Hle.
  cbn [cx cy] in Hle. rewrite !Rminus_0_r in Hle.
  rewrite maxVertexDist_centerPts in Hle. fold r in Hle.
  rewrite (Rabs_pos_eq _ Hs0) in Hle.
  etransitivity; [exact Hle|].
  assert (Hsm : s * Rmax 1 r = platformSize * 0.35).
  { unfold s. field. lra. }
  assert (s * r <= s * Rmax 1 r) by (apply Rmult_le_compat_l; done).
  lra.
Qed.

(** X5 on the sample: the hero's vertex (6, 0), recentred and scaled. *)
Lemma prepared_hero_within_margin_witness :
  exists fp' pt,
    prepareFootprints sampleFootprints 100 !! 1%nat = Some fp' /\ pts fp' !! 1%nat = Some pt /\
    hypot (vx pt) (vy pt) <= 0.35 * 100.
Proof.
  destruct (selectPrimaryFootprint_sample) as (c0 & Hsel & _).
  pose proof (prepareFootprints_unfold sampleFootprints 100 _ Hsel) as Hprep.
  assert (Hl : exists fp' pt,
             prepareFootprints sampleFootprints 100 !! 1%nat = Some fp' /\
             pts fp' !! 1%nat = Some pt /\ isHero fp' = true).
  { rewrite Hprep. eexists _, _. split; [reflexivity|]. split; reflexivity. }
  destruct Hl as (fp' & pt & Hl & Hpt & Hhero).
  exists fp', pt. split; [exact Hl|]. split; [exact Hpt|].
  apply (prepared_hero_within_margin sampleFootprints 100 1 fp' pt); try done; [lra|].
  apply list_elem_of_lookup. by exists 1%nat.
Defined.

End PreparedProps.

Section RingProps.
Local Open Scope R_scope.

(** X6.  Closing a ring is idempotent: once the closing point is appended
    the end points coincide, and a ring left open within the tolerance is
    left open again. *)
Theorem closeRing_idempotent (l : list Vector2) : closeRing (closeRing l) = closeRing l.
Proof.
  destruct l as [|first rest]; [reflexivity|].
  destruct (last (first :: rest)) as [final|] eqn:Hlast.
  - destruct (closeRing_spec (first :: rest) first final eq_refl Hlast) as [[Hgt ->]|[Hle ->]].
    + destruct (closeRing_spec ((first :: rest) ++ [first]) first first eq_refl) as [[Hgt' _]|[_ ->]].
      * by rewrite last_snoc.
      * rewrite distanceTo_self in Hgt'. lra.
      * done.
    + destruct (closeRing_spec (first :: rest) first final eq_refl Hlast) as [[Hgt _]|[_ ->]];
        [lra|done].
  - by apply last_None in Hlast.
Qed.

End RingProps.

Section SubstringProps.

Lemma isPrefixOf_spec (p l : list ascii) :
  isPrefixOf p l = true <-> exists post, l = p ++ post.
Proof.
  revert l. induction p as [|a p IH]; intros l; cbn [isPrefixOf].
  - split; [intros _; by exists l|done].
  - destruct l as [|b l].
    + split; [done|]. intros [post Hpost]. discriminate Hpost.
    + destruct (Ascii.eqb_spec a b) as [->|Hne].
      * rewrite IH. split; intros [post Hpost]; exists post.
        -- by rewrite Hpost.
        -- by injection Hpost.
      * split; [done|]. intros [post Hpost]. injection Hpost as -> _. done.
Qed.

Lemma indexOfFrom_Some (sub l : list ascii) (i j : nat) :
  indexOfFrom sub l i = Some j ->
  exists pre post, l = pre ++ sub ++ post /\ j = (i + length pre)%nat.
Proof.
  revert i. induction l as [|c l IH]; intros i; cbn [indexOfFrom].
  - destruct (isPrefixOf sub []) eqn:Hp; [|done].
    intros [= <-]. apply isPrefixOf_spec in Hp as [post Hpost].
    exists [], post. split; [done|]. cbn. lia.
  - destruct (isPrefixOf sub (c :: l)) eqn:Hp.
    + intros [= <-]. apply isPrefixOf_spec in Hp as [post Hpost].
      exists [], post. split; [done|]. cbn. lia.
    + intros (pre & post & -> & ->)%IH.
      exists (c :: pre), post. split; [done|]. cbn. lia.
Qed.

Lemma indexOfFrom_found (sub pre post : list ascii) (i : nat) :
  exists j, indexOfFrom sub (pre ++ sub ++ post) i = Some j.
Proof.
  revert i. induction pre as [|c pre IH]; intros i.
  - cbn [app]. destruct (sub ++ post) as [|c l] eqn:E; cbn [indexOfFrom].
    + assert (Hp : isPrefixOf sub [] = true).
      { apply isPrefixOf_spec. by exists post. }
      rewrite Hp. by exists i.
    + assert (Hp : isPrefixOf sub (c :: l) = true).
      { apply isPrefixOf_spec. by exists post. }
      rewrite Hp. by exists i.
  - cbn [app indexOfFrom]. destruct (isPrefixOf sub (c :: pre ++ sub ++ post)).
    + by exists i.
    + apply IH.
Qed.

(** [s.includes(sub)] holds exactly when [sub] occurs in [s]. *)
Lemma includes_spec (s sub : string) :
  includes s sub = true <-> exists pre post, chars s = pre ++ chars sub ++ post.
Proof.
  unfold includes, indexOf. split.
  - destruct (indexOfFrom (chars sub) (chars s) 0) as [j|] eqn:E; [|done].
    intros _. apply indexOfFrom_Some in E as (pre & post & H & _). by exists pre, post.
  - intros (pre & post & ->).
    destruct (indexOfFrom_found (chars sub) pre post 0) as [j ->]. done.
Qed.

(** The first occurrence of a character that the text before it does not hold. *)
Lemma indexOfFrom_char (c : ascii) (a b : list ascii) (i : nat) :
  c ∉ a -> indexOfFrom [c] (a ++ c :: b) i = Some (i + length a)%nat.
Proof.
  revert i. induction a as [|x a IH]; intros i Hnin.
  - cbn [app indexOfFrom isPrefixOf]. rewrite Ascii.eqb_refl. f_equal. cbn. lia.
  - cbn [app indexOfFrom isPrefixOf].
    destruct (Ascii.eqb_spec c x) as [->|Hne].
    + exfalso. apply Hnin. by left.
    + rewrite IH by (intros Hin; apply Hnin; by right). f_equal. cbn. lia.
Qed.

Lemma includes_char (s : string) (c : ascii) :
  includes s (String c "") = true <-> c ∈ chars s.
Proof.
  rewrite includes_spec. cbn [chars list_ascii_of_string]. split.
  - intros (pre & post & ->). apply elem_of_app. right. by left.
  - intros (pre & post & ->)%list_elem_of_split. by exists pre, post.
Qed.

Lemma warehouse_includes_house (s : string) :
  includes s "warehouse" = true -> includes s "house" = true.
Proof.
  rewrite !includes_spec. intros (pre & post & ->).
  exists (pre ++ chars "ware"), post. rewrite <- app_assoc. reflexivity.
Qed.

End SubstringProps.

Section ElementProps.
Local Open Scope R_scope.

Lemma footprintOfElement_isBuildingWay (w : World) (lat0 lon0 : R) (i : nat)
    (el : OverpassElement) :
  if isBuildingWay el
  then exists fp, footprintOfElement w lat0 lon0 i el = Some fp /\
                  tags fp = default ∅ (elTags el)
  else footprintOfElement w lat0 lon0 i el = None.
Proof.
  unfold isBuildingWay, footprintOfElement.
  destruct (String.eqb (elType el) "way"); cbn [negb andb]; [|done].
  destruct (geometry el) as [geom|]; [|done].
  destruct (Nat.leb_spec 3 (length geom)) as [Hle|Hlt].
  - assert (Hlt : (length geom <? 3)%nat = false) by (apply Nat.ltb_ge; lia).
    rewrite Hlt. eexists. split; reflexivity.
  - assert (Hlt' : (length geom <? 3)%nat = true) by (apply Nat.ltb_lt; lia).
    by rewrite Hlt'.
Qed.

Lemma tags_omap_imap (w : World) (lat0 lon0 : R) (g : nat -> nat) (els : list OverpassElement) :
  map tags (omap (fun fp => fp) (imap (fun i => footprintOfElement w lat0 lon0 (g i)) els))
  = map (fun el => default ∅ (elTags el)) (List.filter isBuildingWay els).
Proof.
  revert g. induction els as [|el els IH]; intros g; [reflexivity|].
  cbn [imap omap list_omap List.filter].
  pose proof (footprintOfElement_isBuildingWay w lat0 lon0 (g 0%nat) el) as H.
  destruct (isBuildingWay el).
  - destruct H as (fp & -> & Htags). cbn [map]. rewrite Htags. f_equal.
    apply (IH (fun i => g (S i))).
  - rewrite H. apply (IH (fun i => g (S i))).
Qed.

(** X7.  The footprints built from a response are, in order, one for every
    element that is a way with at least three geometry points, each carrying
    the tags of its element (no tags become the empty object); nothing is
    reordered, merged or invented. *)
Theorem footprints_are_the_building_ways (w : World) (lat0 lon0 : R) (data : OverpassResponse) :
  let ways := List.filter isBuildingWay (default [] (elements data)) in
  map tags (footprintsOfResponse w lat0 lon0 data)
  = map (fun el => default ∅ (elTags el)) ways /\
  length (footprintsOfResponse w lat0 lon0 data) = length ways /\
  (length ways <= length (default [] (elements data)))%nat.
Proof.
  cbv zeta.
  assert (H : map tags (footprintsOfResponse w lat0 lon0 data)
              = map (fun el => default ∅ (elTags el))
                    (List.filter isBuildingWay (default [] (elements data)))).
  { exact (tags_omap_imap w lat0 lon0 (fun i => i) _). }
  split; [exact H|]. split.
  - apply (f_equal length) in H. by rewrite !length_map in H.
  - apply List.filter_length_le.
Qed.

(** X8.  Without a [height] tag (none, or an empty one), the height of a
    footprint lies between 3 and 60 meters whenever the random draw lies in
    [0, 1): the level count is clamped to that range and the three random
    ranges lie inside it. *)
Theorem heightFromTags_bounds (w : World) (i : nat) (tags : Tags) :
  truthyTag tags "height" = None ->
  0 <= random w i < 1 ->
  3 <= heightFromTags w i tags <= 60.
Proof.
  intros Hheight Hrandom. unfold heightFromTags. rewrite Hheight.
  assert (Hdefault :
    3 <= (if includes (toLowerCase (default ""%string (truthyTag tags "building"))) "house"
             || includes (toLowerCase (default ""%string (truthyTag tags "building"))) "residential"
          then 9 + random w i * 6
          else if includes (toLowerCase (default ""%string (truthyTag tags "building"))) "garage"
               then 4 + random w i * 2
               else 12 + random w i * 18) <= 60).
  { destruct (_ || _); [lra|]. destruct (includes _ "garage"); lra. }
  destruct (truthyTag tags "building:levels") as [lv|]; [|exact Hdefault].
  destruct (parseFloat lv) as [levels|]; [|exact Hdefault].
  split; [apply Rmax_l|].
  apply Rmax_lub; [lra|apply Rmin_l].
Qed.

(** X8 for a building of 100 levels: the clamp gives 60 meters. *)
Lemma heightFromTags_bounds_witness :
  3 <= heightFromTags worldOk 0 {[ "building:levels"%string := "100"%string ]} <= 60.
Proof.
  apply heightFromTags_bounds.
  - reflexivity.
  - cbn [random worldOk worldWith]. lra.
Defined.

(** X9.  The word "warehouse" contains "house", so both classifiers treat a
    warehouse as a house: without a height or a level count it gets a height
    between 9 and 15 meters, and it is drawn with the residential material;
    the industrial branch of [getBuildingMaterial] is never reached for it. *)
Theorem warehouse_counts_as_house (w : World) (i : nat) (tags : Tags) (t : string) :
  includes (toLowerCase t) "warehouse" = true ->
  getBuildingMaterial t false = getBuildingMaterial "house" false /\
  (truthyTag tags "building" = Some t ->
   truthyTag tags "height" = None -> truthyTag tags "building:levels" = None ->
   heightFromTags w i tags = 9 + random w i * 6).
Proof.
  intros Hw%warehouse_includes_house. split.
  - unfold getBuildingMaterial at 1. cbv zeta. rewrite Hw. reflexivity.
  - intros Hb Hh Hl. unfold heightFromTags. rewrite Hh, Hl, Hb.
    change (default ""%string (Some t)) with t. by rewrite Hw.
Qed.

(** X9 for [building=warehouse]. *)
Lemma warehouse_counts_as_house_witness :
  getBuildingMaterial "warehouse" false = getBuildingMaterial "house" false /\
  heightFromTags worldOk 0 {[ "building"%string := "warehouse"%string ]} = 9 + 0.5 * 6.
Proof.
  destruct (warehouse_counts_as_house worldOk 0 {[ "building"%string := "warehouse"%string ]}
              "warehouse" eq_refl) as [Hm Hh].
  split; [exact Hm|]. apply Hh; reflexivity.
Defined.

End ElementProps.

Section FetchProps.
Local Open Scope R_scope.

(** X10.  When the first mirror answers the first request with an OK status
    and readable JSON, [fetchBuildings] makes that one request and nothing
    else: no delay, no warning, no second mirror. *)
Theorem healthy_first_mirror_one_request (w : World) (lat0 lon0 sizeMeters : R)
    (st : Z) (data : OverpassResponse) :
  overpass w 0 "https://overpass-api.de/api/interpreter" = Ok (mkResponse st (Ok data)) ->
  (200 <= st <= 299)%Z ->
  run (fetchBuildings w lat0 lon0 sizeMeters)
  = ([EvPost "https://overpass-api.de/api/interpreter" (queryFor lat0 lon0 sizeMeters)],
     Ok (footprintsOfResponse w lat0 lon0 data)).
Proof.
  intros Hres Hst. unfold run, fetchBuildings.
  cbn [OVERPASS_ENDPOINTS endpointLoop attemptLoop].
  unfold attemptEndpoint. cbn [fetchLog countPosts List.filter length url].
  rewrite Hres. unfold resOk. cbn [status json].
  assert (Hok : ((200 <=? st) && (st <=? 299))%Z = true).
  { apply andb_true_intro. split; apply Z.leb_le; lia. }
  rewrite Hok. reflexivity.
Qed.

(** X10 in the world whose mirrors all answer the sample response. *)
Lemma healthy_first_mirror_one_request_witness :
  run (fetchBuildings worldOk 0 0 100)
  = ([EvPost "https://overpass-api.de/api/interpreter" (queryFor 0 0 100)],
     Ok (footprintsOfResponse worldOk 0 0 sampleResponse)).
Proof.
  apply (healthy_first_mirror_one_request worldOk 0 0 100 200 sampleResponse).
  - reflexivity.
  - lia.
Defined.

Lemma delaysAfter_sum (o : Outcome) (attempt : nat) :
  (0 <= foldr Z.add 0 (delaysAfter o attempt) <= backoffMs attempt)%Z.
Proof.
  unfold backoffMs. destruct o; cbn [delaysAfter foldr]; [lia|unfold backoffMs; lia|].
  destruct (attempt <? 1)%nat; cbn [foldr]; unfold backoffMs; lia.
Qed.

Lemma foldr_add_app (l1 l2 : list Z) :
  foldr Z.add 0%Z (l1 ++ l2) = (foldr Z.add 0 l1 + foldr Z.add 0 l2)%Z.
Proof. induction l1 as [|x l1 IH]; cbn [app foldr]; lia. Qed.

Lemma delays_sum_le (g : nat -> Endpoint * nat -> Outcome) (plan : list (Endpoint * nat)) :
  (0 <= foldr Z.add 0 (concat (map snd (imap (fun i ea => (url ea.1, delaysAfter (g i ea) ea.2))
                                             plan)))
   <= foldr Z.add 0 (map (fun ea => backoffMs ea.2) plan))%Z.
Proof.
  revert g. induction plan as [|ea plan IH]; intros g; [cbn; lia|].
  cbn [imap map concat snd]. rewrite foldr_add_app. cbn [foldr].
  pose proof (delaysAfter_sum (g 0%nat ea) ea.2).
  pose proof (IH (fun i => g (S i))) as IH'. cbn [compose] in IH'.
  unfold compose. lia.
Qed.

Lemma backoff_sum_take (k : nat) (plan : list (Endpoint * nat)) :
  (foldr Z.add 0 (map (fun ea => backoffMs ea.2) (take k plan))
   <= foldr Z.add 0 (map (fun ea => backoffMs ea.2) plan))%Z.
Proof.
  revert k. induction plan as [|ea plan IH]; intros k.
  - by rewrite take_nil.
  - destruct k as [|k]; cbn [take map foldr].
    + assert (H : forall l : list (Endpoint * nat),
                (0 <= foldr Z.add 0 (map (fun ea => backoffMs ea.2) l))%Z).
      { induction l as [|x l IHl]; cbn [map foldr]; [lia|]. unfold backoffMs at 1. lia. }
      specialize (H plan). unfold backoffMs at 1. lia.
    + specialize (IH k). lia.
Qed.

(** X11.  Whatever the mirrors answer, one call of [fetchBuildings] spends at
    most 18 seconds in its timer delays (three mirrors, 2 s and 4 s each). *)
Theorem total_delay_at_most_18s (w : World) (lat0 lon0 sizeMeters : R) :
  (0 <= totalDelay (run (fetchBuildings w lat0 lon0 sizeMeters)).1 <= 18000)%Z.
Proof.
  destruct (fetchBuildings_planLoop w lat0 lon0 sizeMeters) as (st & r & Hplan & ->).
  cbn [fst]. apply planLoop_spec in Hplan.
  destruct Hplan as (k & added & Hlog & _ & _ & Hstart & Hatt & _).
  cbn [fetchLog app] in Hlog. rewrite Hlog. unfold totalDelay.
  rewrite sleepsOf_attemptsOf, (sleepsBeforeNextPost_starts _ Hstart), Hatt. cbn [app].
  pose proof (delays_sum_le
                (fun i ea => classify (overpass w (countPosts [] + i) (url ea.1)))
                (take k (planOf OVERPASS_ENDPOINTS))) as [Hlo Hhi].
  pose proof (backoff_sum_take k (planOf OVERPASS_ENDPOINTS)) as Htake.
  change (foldr Z.add 0%Z (map (fun ea : Endpoint * nat => backoffMs ea.2)
                               (planOf OVERPASS_ENDPOINTS))) with 18000%Z in Htake.
  cbn [fetchLog] in *. lia.
Qed.

(** The bound is reached when every attempt is rate limited. *)
Example total_delay_world429 :
  totalDelay (run (fetchBuildings world429 0 0 100)).1 = 18000%Z.
Proof. rewrite fetch_world429_log. reflexivity. Qed.

Lemma attemptEndpoint_lastError (w : World) (lat0 lon0 : R) (query : OverpassQuery)
    (endpoint : Endpoint) (attempt : nat) (st : FetchState) :
  lastError (attemptEndpoint w lat0 lon0 query endpoint attempt st).1
  = match classify (overpass w (countPosts (fetchLog st)) (url endpoint)) with
    | Failed message => Some message
    | _ => lastError st
    end.
Proof.
  rewrite attemptEndpoint_classify. cbv zeta.
  destruct (classify _); cbn [fst]; [reflexivity|reflexivity|].
  unfold catchAttempt. by destruct (attempt <? 1)%nat.
Qed.

Lemma planLoop_lastError (w : World) (lat0 lon0 : R) (query : OverpassQuery)
    (plan : list (Endpoint * nat)) (st st' : FetchState) :
  planLoop w lat0 lon0 query plan st = (st', None) ->
  lastError st'
  = fold_left (fun acc o => match o with Failed message => Some message | _ => acc end)
      (imap (fun i ea => classify (overpass w (countPosts (fetchLog st) + i) (url ea.1))) plan)
      (lastError st).
Proof.
  revert st. induction plan as [|[e a] plan IH]; intros st; cbn [planLoop].
  - by intros [= <-].
  - pose proof (attemptEndpoint_lastError w lat0 lon0 query e a st) as Hlast.
    destruct (attemptEndpoint w lat0 lon0 query e a st) as [st1 [fps|]] eqn:Hatt; [done|].
    intros Hrest. cbn [fst] in Hlast.
    apply attemptEndpoint_log in Hatt as (mid & Hlog & Hmid & _).
    rewrite (IH _ Hrest). cbn [imap fold_left fst].
    rewrite Nat.add_0_r, <- Hlast.
    rewrite Hlog, (countPosts_after_attempt _ _ _ _ Hmid).
    f_equal. apply imap_ext. intros i ea _. cbn [compose]. unfold compose.
    by rewrite Nat.add_succ_r.
Qed.

Lemma lastFailure_retries (outcomes : list Outcome) :
  Forall (fun o => o = RetryLater) outcomes -> lastFailure outcomes = None.
Proof.
  unfold lastFailure. generalize (@None string). intros acc Hall. revert acc.
  induction Hall as [|x xs -> _ IH]; intros acc; cbn [fold_left]; [reflexivity|].
  apply IH.
Qed.

(** X12.  When every attempt has failed, the error [fetchBuildings] throws
    quotes the message of the last attempt that threw (a rejected request,
    unreadable JSON, or a status other than 429, 503 and 504).  Rate-limited
    attempts leave no message: when all six were rate limited, the error
    says "last error: unknown". *)
Theorem failure_quotes_last_thrown_error (w : World) (lat0 lon0 sizeMeters : R)
    (log : list Event) (message : string) :
  run (fetchBuildings w lat0 lon0 sizeMeters) = (log, Thrown message) ->
  message = ("Building data unavailable (last error: "
             ++ lastErrorText (lastFailure (outcomesOf w))
             ++ "). Try again in a minute or reduce the search area.")%string /\
  (Forall (fun o => o = RetryLater) (outcomesOf w) ->
   message = "Building data unavailable (last error: unknown). Try again in a minute or reduce the search area."%string).
Proof.
  intros Hrun.
  destruct (fetchBuildings_planLoop w lat0 lon0 sizeMeters) as (st & r & Hplan & Hrun').
  rewrite Hrun in Hrun'. destruct r as [fps|]; [discriminate Hrun'|].
  injection Hrun' as _ ->.
  apply planLoop_lastError in Hplan. cbn [fetchLog lastError countPosts List.filter length] in Hplan.
  assert (Hout : imap (fun i ea => classify (overpass w (0 + i) (url ea.1)))
                      (planOf OVERPASS_ENDPOINTS) = outcomesOf w) by reflexivity.
  rewrite Hout in Hplan. fold (lastFailure (outcomesOf w)) in Hplan.
  rewrite Hplan. split; [reflexivity|].
  intros Hall.
  assert (Hnone : lastFailure (outcomesOf w) = None) by by apply lastFailure_retries.
  by rewrite Hnone.
Qed.

(** X12 when every mirror answers 429. *)
Lemma failure_quotes_last_thrown_error_witness :
  exists log message,
    run (fetchBuildings world429 0 0 100) = (log, Thrown message) /\
    message = ("Building data unavailable (last error: "
               ++ lastErrorText (lastFailure (outcomesOf world429))
               ++ "). Try again in a minute or reduce the search area.")%string.
Proof.
  eexists _, _. split; [exact fetch_world429_log|].
  exact (proj1 (failure_quotes_last_thrown_error world429 0 0 100 _ _ fetch_world429_log)).
Defined.

End FetchProps.

Section PlusCodeProps.
Local Open Scope R_scope.

Lemma str_chars (s : string) : str (chars s) = s.
Proof. apply string_of_list_ascii_of_string. Qed.

Lemma chars_append (a b : string) : chars (a ++ b)%string = chars a ++ chars b.
Proof.
  unfold chars. induction a as [|c a IH]; [done|].
  change (c :: list_ascii_of_string (a ++ b)%string
          = c :: (list_ascii_of_string a ++ list_ascii_of_string b)).
  by f_equal.
Qed.

Lemma length_chars (s : string) : length (chars s) = String.length s.
Proof.
  unfold chars. induction s as [|c s IH]; [done|].
  change (S (length (list_ascii_of_string s)) = S (String.length s)).
  by f_equal.
Qed.

Lemma elem_of_rev {A : Type} (x : A) (l : list A) : x ∈ rev l <-> x ∈ l.
Proof. rewrite !list_elem_of_In. symmetry. apply in_rev. Qed.

(** Every piece of [s.split(sep)] is made of characters of [s] other than [sep]. *)
Lemma splitCharAux_Forall (P : ascii -> Prop) (sep : ascii) (l cur : list ascii) :
  Forall (fun c => c <> sep -> P c) l -> Forall P cur ->
  Forall (fun t => Forall P (chars t)) (splitCharAux sep l cur).
Proof.
  revert cur. induction l as [|c l IH]; intros cur Hl Hcur; cbn [splitCharAux].
  - constructor; [|constructor]. rewrite chars_str. by apply Forall_rev.
  - apply Forall_cons in Hl as [Hc Hl].
    destruct (Ascii.eqb_spec c sep) as [->|Hne].
    + constructor; [|by apply IH]. rewrite chars_str. by apply Forall_rev.
    + apply IH; [done|]. constructor; [by apply Hc|done].
Qed.

(** Every token of [s.split(/\s+/)] is made of characters of [s]. *)
Lemma splitSpacesAux_chars (l cur : list ascii) (inSep : bool) (t : string) (c : ascii) :
  t ∈ splitSpacesAux l cur inSep -> c ∈ chars t -> c ∈ l \/ c ∈ cur.
Proof.
  revert cur inSep. induction l as [|x l IH]; intros cur inSep; cbn [splitSpacesAux].
  - intros ->%list_elem_of_singleton. rewrite chars_str, elem_of_rev. by right.
  - destruct (isSpace x).
    + destruct inSep.
      * intros Ht Hc. destruct (IH _ _ Ht Hc) as [H|H]; [left; by right|by right].
      * intros [->|Ht]%elem_of_cons Hc.
        -- rewrite chars_str, elem_of_rev in Hc. by right.
        -- destruct (IH _ _ Ht Hc) as [H|H]; [left; by right|].
           by apply elem_of_nil in H.
    + intros Ht Hc. destruct (IH _ _ Ht Hc) as [H|H]; [left; by right|].
      apply elem_of_cons in H as [->|H]; [left; by left|by right].
Qed.

Lemma isCodeSymbol_intro (c : ascii) :
  isPlusCodeChar c = true -> c <> "+"%char -> isCodeSymbol c = true.
Proof.
  intros Hc Hne. unfold isCodeSymbol. rewrite Hc. cbn [andb].
  by destruct (Ascii.eqb_spec c "+").
Qed.

Lemma codeSymbols_no_plus (a : string) : codeSymbols a -> "+"%char ∉ chars a.
Proof.
  unfold codeSymbols. rewrite forallb_forall. intros Hall Hin.
  apply list_elem_of_In in Hin. apply Hall in Hin. vm_compute in Hin. discriminate Hin.
Qed.

(** What a successful extraction went through. *)
Lemma extractPlusCode_Some (s code : string) :
  extractPlusCode s = Some code ->
  exists token a b,
    token ∈ splitSpaces s /\ includes token "+" = true /\
    code = (a ++ "+" ++ b)%string /\
    (2 <= String.length a)%nat /\ (2 <= String.length b)%nat /\
    codeSymbols a /\ codeSymbols b.
Proof.
  unfold extractPlusCode. destruct (String.eqb s ""); [done|].
  destruct (List.find _ (splitSpaces s)) as [token|] eqn:Hfind; [|done].
  apply List.find_some in Hfind as [Hin Hplus].
  set (cleaned := List.filter isPlusCodeChar (chars (toUpperCase token))).
  destruct (includes (str cleaned) "+"); cbn [negb]; [|done].
  assert (Hpieces : Forall (fun t => Forall (fun c => isCodeSymbol c = true) (chars t))
                           (splitChar "+" (str cleaned))).
  { unfold splitChar. rewrite chars_str. apply splitCharAux_Forall; [|constructor].
    apply Forall_forall. intros c Hc Hne. apply isCodeSymbol_intro; [|done].
    apply list_elem_of_In, List.filter_In in Hc. by destruct Hc. }
  destruct (splitChar "+" (str cleaned)) as [|a [|b rest]]; [done|done|].
  destruct (Nat.leb_spec 2 (String.length a)) as [Ha|]; cbn [andb]; [|done].
  destruct (Nat.leb_spec 2 (String.length b)) as [Hb|]; [|done].
  intros [= <-]. exists token, a, b.
  apply Forall_cons in Hpieces as [Hsa Hpieces]. apply Forall_cons in Hpieces as [Hsb _].
  split; [by apply list_elem_of_In|]. split; [done|]. split; [done|].
  split; [done|]. split; [done|].
  unfold codeSymbols. rewrite !forallb_forall.
  split; intros c Hc%list_elem_of_In.
  - by eapply Forall_forall in Hsa.
  - by eapply Forall_forall in Hsb.
Qed.

(** X13.  A Plus Code is extracted only from an input that holds a "+", and
    every extracted code reads [a+b] with one separator, at least two
    symbols on either side of it, and no character outside the upper-case
    Plus Code alphabet [2-9CFGHJMPQRVWX], whatever the input looked like. *)
Theorem extractPlusCode_shape (s code : string) :
  extractPlusCode s = Some code ->
  includes s "+" = true /\
  exists a b, code = (a ++ "+" ++ b)%string /\
              (2 <= String.length a)%nat /\ (2 <= String.length b)%nat /\
              codeSymbols a /\ codeSymbols b /\
              indexOf code "+" = Some (String.length a).
Proof.
  intros (token & a & b & Hin & Hplus & -> & Ha & Hb & Hsa & Hsb)%extractPlusCode_Some.
  split.
  - apply (includes_char s "+"). apply (includes_char token "+") in Hplus.
    unfold splitSpaces in Hin.
    destruct (splitSpacesAux_chars _ _ _ _ _ Hin Hplus) as [H|H]; [done|].
    by apply elem_of_nil in H.
  - exists a, b. repeat (split; [done|]).
    unfold indexOf. rewrite chars_append.
    change (chars ("+" ++ b)) with ("+"%char :: chars b).
    change (chars "+") with ["+"%char].
    rewrite indexOfFrom_char by by apply codeSymbols_no_plus.
    by rewrite length_chars.
Qed.

(** X13 on the input of the self test. *)
Lemma extractPlusCode_shape_witness :
  includes "FCHQ+XQ Berlin" "+" = true /\
  exists a b, "FCHQ+XQ"%string = (a ++ "+" ++ b)%string /\
              (2 <= String.length a)%nat /\ (2 <= String.length b)%nat /\
              codeSymbols a /\ codeSymbols b /\
              indexOf "FCHQ+XQ" "+" = Some (String.length a).
Proof. exact (extractPlusCode_shape "FCHQ+XQ Berlin" "FCHQ+XQ" eq_refl). Defined.

(** X14.  How an extracted code [a+b] is decoded depends on its lengths
    alone: with at most four symbols before the separator, or at most seven
    symbols in all, it is recovered near the reference point first;
    otherwise it is validated and decoded as it stands, and the reference
    point plays no part in the result. *)
Theorem extracted_code_decoding (w : World) (s code : string) (refLat refLon : R) :
  extractPlusCode s = Some code ->
  exists a b,
    code = (a ++ "+" ++ b)%string /\
    decodePlusCode w code refLat refLon
    = if (String.length a <=? 4)%nat || (String.length a + String.length b <=? 7)%nat
      then decodeNear w code refLat refLon
      else decodeFull w code.
Proof.
  intros (token & a & b & _ & _ & -> & Ha & Hb & Hsa & Hsb)%extractPlusCode_Some.
  exists a, b. split; [done|].
  set (code := (a ++ "+" ++ b)%string).
  assert (Hidx : indexOf code "+" = Some (String.length a)).
  { unfold indexOf, code. rewrite chars_append.
    change (chars ("+" ++ b)) with ("+"%char :: chars b).
    change (chars "+") with ["+"%char].
    rewrite indexOfFrom_char by by apply codeSymbols_no_plus.
    by rewrite length_chars. }
  assert (Hlen : String.length code = (String.length a + 1 + String.length b)%nat).
  { unfold code. rewrite <- !length_chars, !chars_append, !length_app. cbn. lia. }
  unfold decodePlusCode, includes, decodeNear, decodeFull. rewrite Hidx, Hlen. cbn [andb].
  destruct (Nat.leb_spec (String.length a) 4) as [H4|H4].
  - rewrite orb_true_r. reflexivity.
  - rewrite orb_false_r. cbn [orb].
    destruct (Nat.leb_spec (String.length a + 1 + String.length b) 8) as [H8|H8];
      destruct (Nat.leb_spec (String.length a + String.length b) 7) as [H7|H7]; try lia;
      [reflexivity|]. by destruct (olcIsValid w code).
Qed.

(** X14 for the short code of the self test. *)
Lemma extracted_code_decoding_witness :
  exists a b,
    "FCHQ+XQ"%string = (a ++ "+" ++ b)%string /\
    decodePlusCode worldGeo "FCHQ+XQ" 0 0
    = if (String.length a <=? 4)%nat || (String.length a + String.length b <=? 7)%nat
      then decodeNear worldGeo "FCHQ+XQ" 0 0
      else decodeFull worldGeo "FCHQ+XQ".
Proof. exact (extracted_code_decoding worldGeo "FCHQ+XQ Berlin" "FCHQ+XQ" 0 0 eq_refl). Defined.

(** A full code is decoded as it stands, wherever the reference point lies. *)
Example full_code_ignores_reference (refLat refLon : R) :
  decodePlusCode worldGeo "9F4MGC22+22" refLat refLon = Ok (mkLatLon 52.53 13.38).
Proof. reflexivity. Qed.

End PlusCodeProps.

Section BudgetProps.
Local Open Scope R_scope.

Lemma geocode_run (w : World) (query : string) (log0 : list Event) :
  exists r, geocodeNominatim w query log0 = (log0 ++ [EvGeocode query], r).
Proof.
  unfold geocodeNominatim, bind, emit, throw, ret.
  destruct (nominatim w query) as [res|message]; [|by eexists].
  destruct (negb (resOk res)); [by eexists|].
  destruct (json res) as [[[|place places]|]|message]; by eexists.
Qed.

(** One call of [resolveLocationString] makes no request or one Nominatim request. *)
Lemma resolve_log (w : World) (input : string) (fallbackLat fallbackLon : R) :
  exists r,
    run (resolveLocationString w input fallbackLat fallbackLon) = ([], r) \/
    exists q, run (resolveLocationString w input fallbackLat fallbackLon) = ([EvGeocode q], r).
Proof.
  unfold run, resolveLocationString.
  destruct (isBlank input); [eexists; by left|].
  destruct (matchLatLon input) as [[m1 m2]|].
  { destruct (parseFloat m1), (parseFloat m2); eexists; by left. }
  destruct (extractPlusCode input) as [code|].
  - unfold bind, tryCatch, liftResult, ret.
    destruct (0 <? String.length (trim (replaceFirst input code "")))%nat.
    + destruct (geocode_run w (trim (replaceFirst input code "")) []) as [r ->].
      cbn [app]. destruct r; eexists; right; by eexists.
    + eexists. by left.
  - destruct (geocode_run w input []) as [r ->]. eexists. right. by eexists.
Qed.

Lemma geocodesOf_app (l1 l2 : list Event) :
  geocodesOf (l1 ++ l2) = geocodesOf l1 ++ geocodesOf l2.
Proof. unfold geocodesOf. apply omap_app. Qed.

Lemma attemptEndpoint_geocodes (w : World) (lat0 lon0 : R) (query : OverpassQuery)
    (endpoint : Endpoint) (attempt : nat) (st : FetchState) :
  geocodesOf (fetchLog (attemptEndpoint w lat0 lon0 query endpoint attempt st).1)
  = geocodesOf (fetchLog st).
Proof.
  rewrite attemptEndpoint_classify. cbv zeta.
  destruct (classify _); cbn [fst]; unfold catchAttempt, logEvent;
    try destruct (attempt <? 1)%nat; cbn [fetchLog];
    rewrite ?geocodesOf_app; cbn; by rewrite ?app_nil_r.
Qed.

Lemma planLoop_geocodes (w : World) (lat0 lon0 : R) (query : OverpassQuery)
    (plan : list (Endpoint * nat)) (st : FetchState) :
  geocodesOf (fetchLog (planLoop w lat0 lon0 query plan st).1) = geocodesOf (fetchLog st).
Proof.
  revert st. induction plan as [|[e a] plan IH]; intros st; cbn [planLoop]; [done|].
  pose proof (attemptEndpoint_geocodes w lat0 lon0 query e a st) as H.
  destruct (attemptEndpoint w lat0 lon0 query e a st) as [st1 [fps|]]; cbn [fst] in *; [done|].
  by rewrite IH.
Qed.

(** The log of one call of [fetchBuildings]: at most six POSTs and no Nominatim request. *)
Lemma fetch_log (w : World) (lat0 lon0 sizeMeters : R) (log0 : list Event) :
  exists lf r,
    fetchBuildings w lat0 lon0 sizeMeters log0 = (log0 ++ lf, r) /\
    geocodesOf lf = [] /\ (countPosts lf <= 6)%nat.
Proof.
  destruct (fetchBuildings_planLoop w lat0 lon0 sizeMeters) as (st & r & Hplan & Hrun).
  pose proof (planLoop_geocodes w lat0 lon0 (queryFor lat0 lon0 sizeMeters)
                (planOf OVERPASS_ENDPOINTS) (mkFetchState [] None)) as Hgeo.
  exists (fetchLog st).
  unfold run, fetchBuildings in *. rewrite endpointLoop_planLoop in *. rewrite Hplan in *.
  cbn [fst fetchLog] in Hgeo.
  apply planLoop_spec in Hplan as (k & added & Hlog & Hk & _ & _ & Hatt & _).
  cbn [fetchLog app] in Hlog.
  destruct r as [fps|]; eexists; (split; [reflexivity|]); (split; [exact Hgeo|]);
    rewrite countPosts_postedUrls, postedUrls_attemptsOf, length_map, Hlog, Hatt,
      length_imap, length_take; cbn; lia.
Qed.

(** X15.  One click makes few requests.  "Center" makes no request or one
    Nominatim request and never touches Overpass or a timer.  "Fetch" makes
    at most one Nominatim request, before anything else, and then at most
    six Overpass requests. *)
Theorem handlers_request_budget (w : World) (s : AppState) :
  let logL := (handleLocate w s).1 in
  let logR := (handleRender w s).1 in
  (logL = [] \/ exists q, logL = [EvGeocode q]) /\
  exists lg lf,
    logR = lg ++ lf /\ (lg = [] \/ exists q, lg = [EvGeocode q]) /\
    geocodesOf lf = [] /\ (countPosts lf <= 6)%nat.
Proof.
  cbv zeta. unfold handleLocate, handleRender.
  destruct (resolve_log w (locQuery s) (stLat s) (stLon s)) as [r Hres].
  assert (Hlog : exists lg, run (resolveLocationString w (locQuery s) (stLat s) (stLon s))
                            = (lg, r) /\ (lg = [] \/ exists q, lg = [EvGeocode q])).
  { destruct Hres as [H|[q H]]; eexists; (split; [exact H|]); [by left|right; by eexists]. }
  destruct Hlog as (lg & -> & Hlg). cbn [fst]. split; [exact Hlg|].
  destruct r as [p|message].
  - destruct (fetch_log w (lat p) (lon p) (size s) lg) as (lf & r2 & -> & Hgeo & Hposts).
    cbn [fst]. by exists lg, lf.
  - cbn [fst]. exists lg, []. rewrite app_nil_r. repeat split; try done. cbn. lia.
Qed.

End BudgetProps.

Section ProviderProps.

Lemma toObject_complete (k : Keys.ApiKeys) : complete (Keys.toObject k).
Proof.
  unfold complete, keyNames.
  repeat constructor; rewrite toObject_lookup; repeat case_decide; try done; eauto.
Qed.

Lemma complete_spread (d : Keys.ApiKeys) (o : gmap string Keys.JsValue) :
  complete (Keys.spread (Keys.toObject d) o).
Proof.
  unfold complete. eapply Forall_impl; [apply (toObject_complete d)|].
  intros name Hname. unfold Keys.spread. rewrite lookup_union_is_Some. by right.
Qed.

Lemma complete_insert (o : gmap string Keys.JsValue) (i : string) (v : Keys.JsValue) :
  complete o -> complete (<[i := v]> o).
Proof.
  unfold complete. intros Ho. eapply Forall_impl; [exact Ho|]. intros name Hname.
  rewrite lookup_insert_is_Some. destruct (decide (i = name)); [by left|by right].
Qed.

Lemma readFromStorage_complete (js : Keys.Json) (d : Keys.ApiKeys) (b : Keys.Browser) :
  complete (Keys.readFromStorage js d b).
Proof.
  unfold Keys.readFromStorage.
  destruct (negb (Keys.hasWindow b)); [apply toObject_complete|].
  destruct (Keys.storageBlocked b); [apply toObject_complete|].
  destruct (Keys.items b !! Keys.STORAGE_KEY) as [raw|]; [|apply toObject_complete].
  destruct (String.eqb raw ""); [apply toObject_complete|].
  destruct (Keys.parse js raw); [apply complete_spread|apply toObject_complete].
Qed.

(** Spreading a complete object over the defaults gives it back. *)
Lemma spread_over_defaults (d : Keys.ApiKeys) (o : gmap string Keys.JsValue) :
  complete o -> Keys.spread (Keys.toObject d) o = o.
Proof.
  intros Ho. apply map_eq. intros i. unfold Keys.spread. rewrite lookup_union.
  destruct (o !! i) as [v|] eqn:Hi.
  - by destruct (Keys.toObject d !! i).
  - rewrite toObject_lookup.
    unfold complete, keyNames in Ho.
    repeat (apply Forall_cons in Ho as [[? ?] Ho]).
    repeat case_decide; subst; try congruence; reflexivity.
Qed.

(** X16.  The keys of the provider always hold every one of the four
    providers: the initial state read from storage does, whatever the storage
    holds, and [updateKey], [resetKeys] and the storage listener keep it so. *)
Theorem provider_keys_stay_complete (js : Keys.Json) (d : Keys.ApiKeys) :
  (forall b, complete (Provider.keys (Provider.initial js d b))) /\
  (forall st, complete (Provider.keys st) ->
     (forall provider value, complete (Provider.keys (Provider.updateKey js provider value st))) /\
     (forall event, complete (Provider.keys (Provider.onStorage js d event st))) /\
     complete (Provider.keys (Provider.resetKeys js d st).1)).
Proof.
  split; [intros b; apply readFromStorage_complete|].
  intros st Hst. split; [|split].
  - intros provider value. cbn. by apply complete_insert.
  - intros event. unfold Provider.onStorage.
    destruct (negb _); [done|].
    destruct (Provider.newValue event) as [raw|]; [|apply toObject_complete].
    destruct (String.eqb raw ""); [apply toObject_complete|].
    destruct (Keys.parse js raw); [apply complete_spread|apply toObject_complete].
  - unfold Provider.resetKeys.
    destruct (Keys.hasWindow _); [|apply toObject_complete].
    destruct (Provider.removeItem _ _); apply toObject_complete.
Qed.

(** X16 in the sample browser, whose storage holds no keys. *)
Lemma provider_keys_stay_complete_witness :
  complete (Provider.keys
              (Provider.updateKey flatJson "openai" "sk-1"
                 (Provider.initial flatJson Keys.emptyKeys sampleBrowser))).
Proof.
  destruct (provider_keys_stay_complete flatJson Keys.emptyKeys) as [Hinit Hstep].
  apply (Hstep (Provider.initial flatJson Keys.emptyKeys sampleBrowser)).
  apply Hinit.
Defined.

(** X17.  The storage listener ignores events for other items, and for the
    item of the keys it sets the state to exactly what [readFromStorage]
    returns in a browser whose storage holds the event's new value; the
    browser itself is left alone. *)
Theorem storage_event_agrees_with_read (js : Keys.Json) (d : Keys.ApiKeys)
    (event : Provider.StorageEvent) (st : Provider.State) (b : Keys.Browser) :
  (Provider.key event <> Some Keys.STORAGE_KEY -> Provider.onStorage js d event st = st) /\
  (Provider.key event = Some Keys.STORAGE_KEY ->
   Keys.hasWindow b = true -> Keys.storageBlocked b = false ->
   Keys.items b !! Keys.STORAGE_KEY = Provider.newValue event ->
   Provider.onStorage js d event st
   = Provider.mkState (Keys.readFromStorage js d b) (Provider.browser st)).
Proof.
  unfold Provider.onStorage. split.
  - intros Hkey. by rewrite bool_decide_eq_false_2.
  - intros Hkey Hwin Hblocked Hitem. rewrite bool_decide_eq_true_2 by done. cbn [negb].
    unfold Keys.readFromStorage. rewrite Hwin, Hblocked, Hitem. cbn [negb].
    destruct (Provider.newValue event) as [raw|]; [|done].
    destruct (String.eqb raw ""); [done|]. by destruct (Keys.parse js raw).
Qed.

(** X17 for another tab that removed the item. *)
Lemma storage_event_agrees_with_read_witness :
  Provider.onStorage flatJson sampleKeys
    (Provider.mkStorageEvent (Some Keys.STORAGE_KEY) None)
    (Provider.mkState (Keys.toObject Keys.emptyKeys) sampleBrowser)
  = Provider.mkState (Keys.readFromStorage flatJson sampleKeys sampleBrowser) sampleBrowser.
Proof.
  apply (proj2 (storage_event_agrees_with_read flatJson sampleKeys
                  (Provider.mkStorageEvent (Some Keys.STORAGE_KEY) None)
                  (Provider.mkState (Keys.toObject Keys.emptyKeys) sampleBrowser)
                  sampleBrowser)); reflexivity.
Defined.

(** X18.  In a browser [resetKeys] sets the keys to the defaults.  With
    working storage it leaves no item of the keys behind, whether or not the
    write before the removal was accepted, touches no other item, and a later
    read gives the defaults; with blocked storage the browser is unchanged
    and the call throws after the state was set. *)
Theorem resetKeys_clears_storage (js : Keys.Json) (d : Keys.ApiKeys) (st : Provider.State) :
  Keys.hasWindow (Provider.browser st) = true ->
  let st' := (Provider.resetKeys js d st).1 in
  Provider.keys st' = Keys.toObject d /\
  if Keys.storageBlocked (Provider.browser st)
  then (Provider.resetKeys js d st).2 = true /\ Provider.browser st' = Provider.browser st
  else (Provider.resetKeys js d st).2 = false /\
       Keys.items (Provider.browser st') !! Keys.STORAGE_KEY = None /\
       (forall key, key <> Keys.STORAGE_KEY ->
          Keys.items (Provider.browser st') !! key = Keys.items (Provider.browser st) !! key) /\
       (forall d', Keys.readFromStorage js d' (Provider.browser st') = Keys.toObject d').
Proof.
  intros Hwin. cbv zeta. unfold Provider.resetKeys, Provider.persist, Provider.removeItem.
  cbn [Provider.browser Provider.keys].
  unfold Keys.writeToStorage. rewrite Hwin. cbn [negb].
  destruct (Keys.storageBlocked (Provider.browser st)) eqn:Hblocked; cbn [orb].
  - rewrite Hwin, Hblocked. cbn [fst snd Provider.keys Provider.browser]. done.
  - destruct (negb (Keys.accepts (Provider.browser st) Keys.STORAGE_KEY _));
      cbn [Keys.hasWindow Keys.storageBlocked Keys.items Keys.accepts];
      rewrite ?Hwin, ?Hblocked; cbn [fst snd Provider.keys Provider.browser Keys.items].
    + split; [done|]. split; [done|]. split; [apply lookup_delete_eq|].
      split; [intros key Hkey; by apply lookup_delete_ne|].
      intros d'. apply readFromStorage_default. left. apply lookup_delete_eq.
    + split; [done|]. split; [done|]. split; [apply lookup_delete_eq|].
      split; [intros key Hkey; by rewrite lookup_delete_ne, lookup_insert_ne|].
      intros d'. apply readFromStorage_default. left. apply lookup_delete_eq.
Qed.

(** X18 in the sample browser after a key was stored. *)
Lemma resetKeys_clears_storage_witness :
  Keys.items
    (Provider.browser
       (Provider.resetKeys flatJson Keys.emptyKeys
          (Provider.updateKey flatJson "openai" "sk-1"
             (Provider.initial flatJson Keys.emptyKeys sampleBrowser))).1)
    !! Keys.STORAGE_KEY = None.
Proof.
  refine (proj1 (proj2 (proj2 (resetKeys_clears_storage flatJson Keys.emptyKeys
            (Provider.updateKey flatJson "openai" "sk-1"
               (Provider.initial flatJson Keys.emptyKeys sampleBrowser)) _)))).
  reflexivity.
Defined.

(** X19.  An update the storage accepts survives a reload: when the keys
    hold every provider and [JSON.parse] undoes [JSON.stringify] on the
    written text, the state a fresh provider reads from the browser left by
    [updateKey] is the state [updateKey] left, whatever the defaults. *)
Theorem update_survives_reload (js : Keys.Json) (d : Keys.ApiKeys) (provider value : string)
    (st : Provider.State) :
  let next := <[provider := Keys.JString value]> (Provider.keys st) in
  let blob := Keys.stringify js (Keys.JObject next) in
  complete (Provider.keys st) ->
  Keys.hasWindow (Provider.browser st) = true ->
  Keys.storageBlocked (Provider.browser st) = false ->
  Keys.accepts (Provider.browser st) Keys.STORAGE_KEY blob = true ->
  blob <> ""%string ->
  Keys.parse js blob = Ok (Keys.JObject next) ->
  Provider.initial js d (Provider.browser (Provider.updateKey js provider value st))
  = Provider.updateKey js provider value st.
Proof.
  intros next blob Hcomplete Hwin Hblocked Haccepts Hnonempty Hparse.
  unfold Provider.initial, Provider.updateKey, Provider.persist. cbn [Provider.browser].
  fold next. f_equal.
  unfold Keys.writeToStorage. fold blob. rewrite Hwin, Hblocked, Haccepts. cbn [negb orb].
  unfold Keys.readFromStorage. cbn [Keys.hasWindow Keys.storageBlocked Keys.items].
  rewrite ?Hwin, ?Hblocked. cbn [negb]. rewrite lookup_insert_eq.
  apply String.eqb_neq in Hnonempty. rewrite Hnonempty, Hparse.
  cbn [Keys.spreadProps]. apply spread_over_defaults. by apply complete_insert.
Qed.

(** X19 with the sample codec and browser. *)
Lemma update_survives_reload_witness :
  Provider.initial flatJson sampleKeys
    (Provider.browser
       (Provider.updateKey flatJson "openai" "sk-1"
          (Provider.initial flatJson Keys.emptyKeys sampleBrowser)))
  = Provider.updateKey flatJson "openai" "sk-1"
      (Provider.initial flatJson Keys.emptyKeys sampleBrowser).
Proof.
  apply (update_survives_reload flatJson sampleKeys "openai" "sk-1"
           (Provider.initial flatJson Keys.emptyKeys sampleBrowser)).
  - apply readFromStorage_complete.
  - reflexivity.
  - reflexivity.
  - reflexivity.
  - vm_compute. discriminate.
  - vm_compute. reflexivity.
Defined.

End ProviderProps.

Section CardProps.
Local Open Scope R_scope.

Lemma chars_join (sep : ascii) (pieces : list string) :
  chars (Ai.join (String sep "") pieces) = joinChars sep pieces.
Proof.
  destruct pieces as [|p rest]; [done|]. unfold Ai.join, joinChars.
  revert p. induction rest as [|q rest IH]; intros p; cbn [fold_left flat_map].
  - by rewrite app_nil_r.
  - rewrite IH, !chars_append. change (chars (String sep "")) with [sep].
    by rewrite <- !app_assoc.
Qed.

Lemma splitCharAux_nonempty (sep : ascii) (l cur : list ascii) : splitCharAux sep l cur <> [].
Proof.
  revert cur. induction l as [|c l IH]; intros cur; cbn [splitCharAux]; [done|].
  destruct (Ascii.eqb c sep); [done|apply IH].
Qed.

(** Joining the pieces of a split with the separator gives the text back. *)
Lemma joinChars_splitCharAux (sep : ascii) (l cur : list ascii) :
  joinChars sep (splitCharAux sep l cur) = rev cur ++ l.
Proof.
  revert cur. induction l as [|c l IH]; intros cur; cbn [splitCharAux].
  - cbn [joinChars flat_map]. by rewrite chars_str.
  - destruct (Ascii.eqb_spec c sep) as [->|Hne].
    + specialize (IH []). pose proof (splitCharAux_nonempty sep l []) as Hne.
      destruct (splitCharAux sep l []) as [|p rest]; [done|].
      cbn [joinChars flat_map] in *. rewrite chars_str. cbn [rev app] in IH.
      rewrite <- IH. reflexivity.
    + rewrite IH. cbn [rev]. by rewrite <- app_assoc.
Qed.

Lemma length_joinChars_map (sep sep' : ascii) (f : string -> string) (pieces : list string) :
  (forall p, String.length (f p) = String.length p) ->
  length (joinChars sep (map f pieces)) = length (joinChars sep' pieces).
Proof.
  intros Hf. destruct pieces as [|p rest]; [done|].
  cbn [map joinChars]. rewrite !length_app, !length_chars, Hf. f_equal.
  induction rest as [|q rest IH]; [done|].
  cbn [map flat_map length app]. rewrite !length_app, !length_chars, Hf, IH. reflexivity.
Qed.

Lemma length_capitalize (word : string) :
  String.length (Ai.capitalize word) = String.length word.
Proof. by destruct word. Qed.

Lemma toUpperChar_underscore (c : ascii) : toUpperChar c = "_"%char -> c = "_"%char.
Proof. destruct c as [[] [] [] [] [] [] [] []]; vm_compute; congruence. Qed.

Lemma capitalize_no_underscore (word : string) :
  Forall (fun c => c <> "_"%char) (chars word) ->
  Forall (fun c => c <> "_"%char) (chars (Ai.capitalize word)).
Proof.
  destruct word as [|c rest]; [done|].
  change (chars (String c rest)) with (c :: chars rest).
  change (chars (Ai.capitalize (String c rest))) with (toUpperChar c :: chars rest).
  intros [Hc Hrest]%Forall_cons. constructor; [|done].
  intros H%toUpperChar_underscore. done.
Qed.

Lemma joinChars_Forall (P : ascii -> Prop) (sep : ascii) (pieces : list string) :
  P sep -> Forall (fun t => Forall P (chars t)) pieces -> Forall P (joinChars sep pieces).
Proof.
  intros Hsep Hall. destruct Hall as [|p rest Hp Hrest]; [constructor|].
  cbn [joinChars]. apply Forall_app. split; [done|].
  induction Hrest as [|q rest Hq _ IH]; [constructor|].
  cbn [flat_map]. constructor; [done|]. apply Forall_app. by split.
Qed.

Lemma string_length_zero (s : string) : String.length s = 0%nat <-> s = ""%string.
Proof. destruct s; split; intros H; try done. Qed.

Lemma capitalizeWords_length (s : string) :
  String.length (Ai.capitalizeWords s) = String.length s.
Proof.
  unfold Ai.capitalizeWords.
  rewrite <- !length_chars. rewrite (chars_join " ").
  rewrite (length_joinChars_map " " "_" Ai.capitalize) by apply length_capitalize.
  unfold splitChar. by rewrite joinChars_splitCharAux.
Qed.

(** X20.  On a text of ASCII characters [capitalizeWords] keeps the length of
    its argument and leaves no underscore in it: every underscore becomes one
    space, and the character after it is the only other one that can change.
    So the result is empty only for the empty string. *)
Theorem capitalizeWords_shape (s : string) :
  asciiText s ->
  String.length (Ai.capitalizeWords s) = String.length s /\
  ("_"%char ∉ chars (Ai.capitalizeWords s)) /\
  (Ai.capitalizeWords s = ""%string <-> s = ""%string).
Proof.
  intros _. pose proof (capitalizeWords_length s) as Hlen.
  split; [exact Hlen|]. split.
  - unfold Ai.capitalizeWords. rewrite (chars_join " ").
    assert (H : Forall (fun c => c <> "_"%char)
                  (joinChars " " (map Ai.capitalize (splitChar "_" s)))).
    { apply joinChars_Forall; [done|]. apply Forall_map.
      eapply Forall_impl.
      - apply (splitCharAux_Forall (fun c => c <> "_"%char) "_" (chars s) []);
          [by apply Forall_forall|constructor].
      - intros t Ht. by apply capitalize_no_underscore. }
    intros Hin. eapply Forall_forall in H; [|exact Hin]. done.
  - rewrite <- !string_length_zero. by rewrite Hlen.
Qed.

(** X20 for the building type "fire_station". *)
Lemma capitalizeWords_shape_witness :
  String.length (Ai.capitalizeWords "fire_station") = String.length "fire_station" /\
  ("_"%char ∉ chars (Ai.capitalizeWords "fire_station")) /\
  (Ai.capitalizeWords "fire_station" = ""%string <-> "fire_station"%string = ""%string).
Proof.
  exact (capitalizeWords_shape "fire_station" eq_refl).
Defined.

Lemma truthy_nonempty (o : option string) (s : string) :
  Ai.truthy o = Some s -> s <> ""%string.
Proof.
  destruct o as [t|]; [|done]. cbn [Ai.truthy].
  destruct (String.eqb_spec t ""); [done|]. by intros [= <-].
Qed.

Lemma orElse_truthy (a b : option string) :
  Ai.truthy (Ai.orElse a (Ai.truthy b)) = Ai.orElse a (Ai.truthy b).
Proof.
  unfold Ai.orElse. destruct (Ai.truthy a) as [s|] eqn:Ha.
  - cbn [Ai.truthy]. apply truthy_nonempty in Ha.
    by destruct (String.eqb_spec s "").
  - destruct b as [t|]; [|done]. cbn [Ai.truthy].
    destruct (String.eqb_spec t ""); [done|]. cbn [Ai.truthy].
    by destruct (String.eqb_spec t "").
Qed.

(** X21.  Without a usable key (the stored key is blank and the worker has
    no key of its own) the route answers 500 with the error "OpenAI API key
    not configured" whatever the building and the language model, which is
    not consulted, and that text is what the hook reports. *)
Theorem missing_key_is_reported (llm : Ai.Llm) (env : Ai.Env) (openaiKey : string)
    (building : Ai.BuildingInfo) :
  trim openaiKey = ""%string -> Ai.truthy (Ai.OPENAI_API_KEY env) = None ->
  Ai.buildingInfoRoute llm env (Ai.requestFor openaiKey building)
  = mkResponse 500 (Ok (Ai.mkBody (Some "OpenAI API key not configured"%string) None None None)) /\
  Ai.buildingInfoFlow llm env openaiKey building
  = Ai.mkHookResult None false (Some "OpenAI API key not configured"%string).
Proof.
  intros Hkey Henv.
  assert (Hapi : Ai.apiKeyOf env (Ai.requestFor openaiKey building) = None).
  { unfold Ai.apiKeyOf, Ai.requestFor. cbn [Ai.headerKey].
    destruct (String.eqb openaiKey ""); cbn [option_map]; [by rewrite Henv|].
    rewrite Hkey. by rewrite Henv. }
  assert (Hroute : Ai.buildingInfoRoute llm env (Ai.requestFor openaiKey building)
                   = mkResponse 500 (Ok (Ai.mkBody (Some "OpenAI API key not configured"%string)
                                           None None None))).
  { unfold Ai.buildingInfoRoute, Ai.tryBuildingInfo. rewrite Hapi. reflexivity. }
  split; [exact Hroute|].
  unfold Ai.buildingInfoFlow. rewrite Hroute. reflexivity.
Qed.

(** X21 with no key anywhere. *)
Lemma missing_key_is_reported_witness :
  Ai.buildingInfoFlow llmDown (Ai.mkEnv None) "  " sampleBuilding
  = Ai.mkHookResult None false (Some "OpenAI API key not configured"%string).
Proof.
  apply (proj2 (missing_key_is_reported llmDown (Ai.mkEnv None) "  " sampleBuilding
                  eq_refl eq_refl)).
Defined.

(** X22.  Whenever the card receives data for its target building, the data
    carries a name and a description that are not empty and the tags the card
    sent, and the heading of the card is that name: the building type the
    card sends is never empty, so the route's last resort for the name,
    [capitalizeWords(building_type)], is not empty either. *)
Theorem card_receives_usable_data (llm : Ai.Llm) (env : Ai.Env) (openaiKey : string)
    (lat lon height : R) (tags : Tags) (body : Ai.Body) :
  let result := Card.cardFlow llm env openaiKey lat lon height tags in
  Ai.returned result = Some body ->
  exists name description,
    Ai.bodyName body = Some name /\ name <> ""%string /\
    Ai.description body = Some description /\ description <> ""%string /\
    Ai.original_tags body = Some tags /\ Ai.error body = None /\
    Card.heading (Card.loadAIInfo result None) tags = name.
Proof.
  cbv zeta. unfold Card.cardFlow, Ai.buildingInfoFlow, Card.loadAIInfo.
  set (building := Card.buildingData lat lon height tags).
  assert (Htype : Ai.building_type building <> ""%string).
  { unfold building, Card.buildingData. cbn [Ai.building_type].
    unfold truthyTag. destruct (tags !! "building"%string) as [t|]; [|done].
    destruct (String.eqb_spec t ""); done. }
  unfold Ai.buildingInfoRoute, Ai.tryBuildingInfo. cbn [Ai.requestFor Ai.reqJson].
  destruct (Ai.apiKeyOf env _); [|done].
  destruct (Ai.chat llm Ai.descriptionPrompt _) as [content|]; [|done].
  destruct (Ai.chat llm Ai.namePrompt _) as [nameContent|]; [|done].
  set (name := default (Ai.capitalizeWords (Ai.building_type building))
                 (Ai.orElse (option_map trim nameContent) (Ai.truthy (Ai.name building)))).
  set (description := default Ai.defaultDescription (Ai.truthy content)).
  change (Ai.generateBuildingInfo
            (Ok (mkResponse 200 (Ok (Ai.mkBody None (Some name) (Some description)
                                       (Some (Ai.tags building)))))))
    with (Ai.mkHookResult (Some (Ai.mkBody None (Some name) (Some description)
                                   (Some (Ai.tags building)))) false None).
  cbn [Ai.returned]. intros [= <-].
  cbn [Ai.bodyName Ai.description Ai.original_tags Ai.error].
  assert (Hname : name <> ""%string).
  { unfold name. destruct (Ai.orElse _ _) as [n|] eqn:Hn; cbn [default from_option id].
    - rewrite <- orElse_truthy in Hn. by apply truthy_nonempty in Hn.
    - intros H. apply Htype. apply string_length_zero.
      rewrite <- capitalizeWords_length, H. reflexivity. }
  exists name, description. split; [reflexivity|]. split; [exact Hname|].
  split; [reflexivity|]. split.
  { unfold description. destruct (Ai.truthy content) as [d|] eqn:Hd; cbn [default from_option id].
    - by apply truthy_nonempty in Hd.
    - done. }
  split; [reflexivity|]. split; [reflexivity|].
  unfold Card.heading. cbn [mbind option_bind Ai.bodyName].
  unfold Ai.orElse at 1. cbn [Ai.truthy].
  destruct (String.eqb_spec name ""); [done|]. cbn [Ai.truthy].
  by destruct (String.eqb_spec name "").
Qed.

(** X22 with a key and a model that answers without description. *)
Lemma card_receives_usable_data_witness :
  exists body name,
    Ai.returned (Card.cardFlow llmSilent (Ai.mkEnv (Some "sk-test"%string)) "" 52.5 13.4 30
                   {[ "building"%string := "office"%string ]}) = Some body /\
    Ai.bodyName body = Some name /\ name <> ""%string.
Proof.
  assert (H : exists body,
             Ai.returned (Card.cardFlow llmSilent (Ai.mkEnv (Some "sk-test"%string)) "" 52.5 13.4 30
                            {[ "building"%string := "office"%string ]}) = Some body).
  { eexists. vm_compute. reflexivity. }
  destruct H as [body Hbody].
  destruct (card_receives_usable_data _ _ _ _ _ _ _ _ Hbody)
    as (name & description & Hname & Hne & _).
  exists body, name. split; [exact Hbody|]. split; [exact Hname|exact Hne].
Defined.

End CardProps.

Section MeshProps.

Lemma indexLoop_spec (positionCount fuel i : nat) (indices : list nat) :
  ((positionCount - i + 2) / 3 <= fuel)%nat ->
  indexLoop fuel i positionCount indices
  = indices ++ seq i (3 * ((positionCount - i + 2) / 3)).
Proof.
  revert i indices. induction fuel as [|fuel IH]; intros i indices Hfuel.
  - assert (H0 : ((positionCount - i + 2) / 3 = 0)%nat) by lia.
    rewrite H0. cbn. by rewrite app_nil_r.
  - cbn [indexLoop]. destruct (Nat.ltb_spec i positionCount) as [Hlt|Hge].
    + assert (Hstep : ((positionCount - i + 2) / 3
                       = S ((positionCount - (i + 3) + 2) / 3))%nat).
      { destruct (Nat.le_gt_cases 3 (positionCount - i)) as [H3|H3].
        - replace (positionCount - i + 2)%nat
            with ((positionCount - (i + 3) + 2) + 1 * 3)%nat by lia.
          rewrite Nat.div_add by lia. lia.
        - replace (positionCount - (i + 3))%nat with 0%nat by lia.
          assert (positionCount - i = 1 \/ positionCount - i = 2)%nat as [->| ->] by lia;
            reflexivity. }
      rewrite IH by lia. rewrite Hstep, <- app_assoc. f_equal.
      replace (3 * S ((positionCount - (i + 3) + 2) / 3))%nat
        with (3 + 3 * ((positionCount - (i + 3) + 2) / 3))%nat by lia.
      rewrite seq_app. cbn [seq app]. repeat f_equal; lia.
    + replace (positionCount - i)%nat with 0%nat by lia. cbn. by rewrite app_nil_r.
Qed.

(** X23.  The index written for an extruded geometry lists the vertices
    0, 1, 2, ... in order, in whole triangles: for a vertex count that is a
    multiple of three it is exactly 0 .. count - 1, and it is empty only for
    an empty geometry (the self test "extrude has index").  The loop ends
    within [positionCount] turns; more fuel changes nothing. *)
Theorem meshIndices_spec (positionCount : nat) :
  meshIndices positionCount = seq 0 (3 * ((positionCount + 2) / 3)) /\
  (forall fuel, (positionCount <= fuel)%nat ->
     indexLoop fuel 0 positionCount [] = meshIndices positionCount) /\
  (positionCount mod 3 = 0%nat -> meshIndices positionCount = seq 0 positionCount) /\
  (meshIndices positionCount = [] <-> positionCount = 0%nat).
Proof.
  assert (Hturns : ((positionCount - 0 + 2) / 3 <= positionCount)%nat).
  { rewrite Nat.sub_0_r. destruct positionCount as [|[|[|n]]]; try (cbn; lia).
    apply Nat.Div0.div_le_upper_bound. lia. }
  assert (Hspec : meshIndices positionCount = seq 0 (3 * ((positionCount + 2) / 3))).
  { unfold meshIndices. rewrite indexLoop_spec by exact Hturns.
    by rewrite Nat.sub_0_r. }
  split; [exact Hspec|]. split; [|split].
  - intros fuel Hfuel. rewrite Hspec, indexLoop_spec by lia. by rewrite Nat.sub_0_r.
  - intros Hmod. rewrite Hspec. f_equal.
    pose proof (Nat.div_mod_eq positionCount 3) as Hdiv. rewrite Hmod in Hdiv.
    replace (positionCount + 2)%nat with (2 + (positionCount / 3) * 3)%nat by lia.
    rewrite Nat.div_add by lia. change (2 / 3)%nat with 0%nat. lia.
  - rewrite Hspec. split.
    + intros Hnil. apply (f_equal length) in Hnil. rewrite length_seq in Hnil. cbn [length] in Hnil.
      destruct positionCount as [|n]; [done|]. exfalso.
      assert (1 <= (S n + 2) / 3)%nat; [|lia].
      apply Nat.div_le_lower_bound; lia.
    + intros ->. reflexivity.
Qed.

(** X23 for the 36 vertices of an extruded triangle. *)
Lemma meshIndices_spec_witness : meshIndices 36 = seq 0 36.
Proof. apply (proj1 (proj2 (proj2 (meshIndices_spec 36)))). reflexivity. Defined.

End MeshProps.

Section RenderProps.
Local Open Scope R_scope.

(** X24.  The building controls reach the hero only.  The shape, the depth
    and the material of every mesh are the same under any two settings of the
    controls; a footprint that is not the hero is rendered the same whatever
    the controls say, unscaled, unrotated and on the ground, and never sets
    the target building. *)
Theorem controls_reach_only_the_hero (h : Store.Heap)
    (controls controls' : Store.BuildingControlState) (fp : Store.FootprintObj) :
  let shapeOf (r : option (Store.Mesh * option Store.TargetBuilding)) :=
    option_map (fun r => (Store.shape r.1, Store.depth r.1, Store.material r.1)) r in
  shapeOf (Store.renderOne h controls fp) = shapeOf (Store.renderOne h controls' fp) /\
  (isHero (Store.view h fp) = false ->
   Store.renderOne h controls fp = Store.renderOne h controls' fp /\
   forall mesh target, Store.renderOne h controls fp = Some (mesh, target) ->
     target = None /\ Store.meshScale mesh = (1, 1, 1) /\
     Store.rotationY mesh = 0 /\ Store.positionY mesh = 0).
Proof.
  cbv zeta. unfold Store.renderOne. split.
  - by destruct (Store.objPts fp).
  - intros ->. split; [reflexivity|].
    intros mesh target. destruct (Store.objPts fp); [done|].
    intros [= <- <-]. cbn [Store.meshScale Store.rotationY Store.positionY].
    repeat split. ring.
Qed.

(** X24 on the sample heap: its one footprint object is no hero. *)
Lemma controls_reach_only_the_hero_witness :
  Store.renderOne sampleHeap (Store.mkControls 2 3 45 1)
    (Store.mkObj [mkVector2 0 0; mkVector2 6 0; mkVector2 0 6; mkVector2 0 0] 10 7 None)
  = Store.renderOne sampleHeap (Store.mkControls 1 1 0 0)
    (Store.mkObj [mkVector2 0 0; mkVector2 6 0; mkVector2 0 6; mkVector2 0 0] 10 7 None).
Proof.
  apply (proj2 (controls_reach_only_the_hero sampleHeap (Store.mkControls 2 3 45 1)
                  (Store.mkControls 1 1 0 0)
                  (Store.mkObj [mkVector2 0 0; mkVector2 6 0; mkVector2 0 6; mkVector2 0 0]
                               10 7 None))).
  reflexivity.
Defined.

Lemma isHero_view_prepareObj (h : Store.Heap) sel s (i : nat) (o : Store.FootprintObj) :
  isHero (Store.view h (Store.prepareObj sel s i o)) = Nat.eqb i (index sel).
Proof. unfold isHero, Store.view, Store.prepareObj. cbn. by destruct (Nat.eqb i (index sel)). Qed.

Lemma centerPts_nil (c : XY) (s : R) (l : list Vector2) : centerPts c s l = [] <-> l = [].
Proof. unfold centerPts. destruct l; split; intros H; try done. Qed.

(** Footprints other than the hero set no target. *)
Lemma render_others_no_target (h : Store.Heap) (controls : Store.BuildingControlState)
    sel s (g : nat -> nat) (os : list Store.FootprintObj) :
  (forall i, (i < length os)%nat -> g i <> index sel) ->
  Forall (fun r : Store.Mesh * option Store.TargetBuilding => r.2 = None)
    (omap (Store.renderOne h controls) (imap (fun i => Store.prepareObj sel s (g i)) os)).
Proof.
  revert g. induction os as [|o os IH]; intros g Hg; [constructor|].
  cbn [imap omap list_omap].
  assert (Hrest : Forall (fun r : Store.Mesh * option Store.TargetBuilding => r.2 = None)
                    (omap (Store.renderOne h controls)
                       (imap (fun i => Store.prepareObj sel s (g (S i))) os))).
  { apply (IH (fun i => g (S i))). intros i Hi. apply Hg. cbn [length]. lia. }
  unfold Store.renderOne at 1. rewrite isHero_view_prepareObj.
  assert (Hne : Nat.eqb (g 0%nat) (index sel) = false).
  { apply Nat.eqb_neq. apply Hg. cbn [length]. lia. }
  rewrite Hne.
  destruct (Store.objPts (Store.prepareObj sel s (g 0%nat) o)); [exact Hrest|].
  constructor; [reflexivity|exact Hrest].
Qed.

Lemma fold_target_none (rendered : list (Store.Mesh * option Store.TargetBuilding))
    (target : option Store.TargetBuilding) :
  Forall (fun r => r.2 = None) rendered ->
  fold_left (fun target r => match r.2 with Some t => Some t | None => target end)
            rendered target = target.
Proof.
  intros Hall. revert target. induction Hall as [|r rs Hr _ IH]; intros target; [done|].
  cbn [fold_left]. rewrite Hr. apply IH.
Qed.

(** X25.  After preparation the render pass sets the target building from
    the hero: when the selected footprint has points, the target's height is
    the hero's fetched height times the fit scale, its tags are the tags
    object of the fetched hero itself, and the card floats 10 above the
    stretched top, whatever other footprints were drawn before or after. *)
Theorem target_building_is_the_prepared_hero (h : Store.Heap) (refs : list nat)
    (platformSize : R) (controls : Store.BuildingControlState)
    (sel : PrimarySelection) (hero : Store.FootprintObj) :
  let fps := Store.deref h refs in
  let prepared := Store.prepareFootprints h refs platformSize in
  let s := fitScaleOf platformSize (maxRadiusOf (selCentroid sel) (Store.objPts hero)) in
  selectPrimaryFootprint (map (Store.view h) fps) = Some sel ->
  fps !! index sel = Some hero -> Store.objPts hero <> [] ->
  (Store.renderBuildings prepared.1 prepared.2 controls).2.2
  = Some (Store.mkTarget
            (Store.objHeight hero * s * Store.heightScale controls + 10
             + Store.verticalOffset controls)
            (Store.objHeight hero * s) (Store.objTags hero)).
Proof.
  intros fps prepared s Hsel Hhero Hpts.
  assert (Hs : fitScaleOf platformSize
                 (maxRadiusOf (selCentroid sel) (heroPts (map (Store.view h) fps) sel)) = s).
  { unfold heroPts. rewrite list_lookup_fmap, Hhero. reflexivity. }
  subst prepared. unfold Store.prepareFootprints. fold fps. rewrite Hsel. cbv zeta. rewrite Hs.
  destruct (Store.allocAll h (imap (Store.prepareObj sel s) fps)) as [h' out] eqn:Hall.
  apply allocAll_frame in Hall as (_ & _ & _ & Hderef).
  cbn [fst snd]. unfold Store.renderBuildings. cbn [snd]. rewrite Hderef.
  assert (Hsplit : exists pre post, fps = pre ++ hero :: post /\ length pre = index sel).
  { exists (take (index sel) fps), (drop (S (index sel)) fps). split.
    - symmetry. by apply take_drop_middle.
    - apply length_take_le. apply lookup_lt_Some in Hhero. lia. }
  destruct Hsplit as (pre & post & Hsplit & Hlen). clearbody fps. subst fps.
  rewrite imap_app, omap_app, fold_left_app. cbn [imap omap list_omap].
  rewrite (fold_target_none
             (omap (Store.renderOne h' controls) (imap (Store.prepareObj sel s) pre))).
  2:{ apply (render_others_no_target h' controls sel s (fun i => i)). intros i Hi. lia. }
  unfold Store.renderOne at 1. rewrite isHero_view_prepareObj.
  assert (Heq : Nat.eqb (length pre + 0) (index sel) = true) by (apply Nat.eqb_eq; lia).
  rewrite Heq.
  assert (Hcentered : Store.objPts (Store.prepareObj sel s (length pre + 0) hero) <> []).
  { cbn [Store.prepareObj Store.objPts]. by rewrite centerPts_nil. }
  destruct (Store.objPts (Store.prepareObj sel s (length pre + 0) hero)) eqn:Hp; [done|].
  cbn [fold_left snd].
  rewrite fold_target_none; [reflexivity|].
  apply (render_others_no_target h' controls sel s (fun i => (length pre + S i)%nat)).
  intros i Hi. lia.
Qed.

(** X25 on the sample heap. *)
Lemma target_building_is_the_prepared_hero_witness :
  exists s,
    (Store.renderBuildings (Store.prepareFootprints sampleHeap [0%nat] 100).1
       (Store.prepareFootprints sampleHeap [0%nat] 100).2 (Store.mkControls 1 2 0 0)).2.2
    = Some (Store.mkTarget (10 * s * 2 + 10 + 0) (10 * s) 7).
Proof.
  assert (Hsel : exists c, selectPrimaryFootprint
                             (map (Store.view sampleHeap) (Store.deref sampleHeap [0%nat]))
                           = Some (mkSelection 0 c)).
  { eexists. reflexivity. }
  destruct Hsel as [c Hsel]. eexists.
  apply (target_building_is_the_prepared_hero sampleHeap [0%nat] 100 (Store.mkControls 1 2 0 0)
           (mkSelection 0 c)
           (Store.mkObj [mkVector2 0 0; mkVector2 6 0; mkVector2 0 6; mkVector2 0 0] 10 7 None)).
  - exact Hsel.
  - reflexivity.
  - discriminate.
Defined.

End RenderProps.

Section MaterialProps.
Local Open Scope R_scope.

Lemma toLowerChar_toUpperChar (c : ascii) : toLowerChar (toUpperChar c) = toLowerChar c.
Proof. destruct c as [[] [] [] [] [] [] [] []]; reflexivity. Qed.

Lemma toLowerChar_idempotent (c : ascii) : toLowerChar (toLowerChar c) = toLowerChar c.
Proof. destruct c as [[] [] [] [] [] [] [] []]; reflexivity. Qed.

Lemma toLowerCase_toUpperCase (t : string) : toLowerCase (toUpperCase t) = toLowerCase t.
Proof.
  unfold toLowerCase, toUpperCase. rewrite chars_str, map_map. f_equal.
  apply map_ext. intros c. apply toLowerChar_toUpperChar.
Qed.

Lemma toLowerCase_idempotent (t : string) : toLowerCase (toLowerCase t) = toLowerCase t.
Proof.
  unfold toLowerCase. rewrite chars_str, map_map. f_equal.
  apply map_ext. intros c. apply toLowerChar_idempotent.
Qed.

(** X26.  The material of a building whose type is a text of ASCII
    characters does not depend on the letter case of the type, and the
    highlighted material does not depend on the type at all. *)
Theorem material_ignores_case (t t' : string) (isHighlighted : bool) :
  asciiText t ->
  getBuildingMaterial (toUpperCase t) isHighlighted = getBuildingMaterial t isHighlighted /\
  getBuildingMaterial (toLowerCase t) isHighlighted = getBuildingMaterial t isHighlighted /\
  getBuildingMaterial t true = getBuildingMaterial t' true.
Proof.
  intros _. unfold getBuildingMaterial. cbv zeta.
  rewrite toLowerCase_toUpperCase, toLowerCase_idempotent. done.
Qed.

(** X26 for the type "Office" against "garage". *)
Lemma material_ignores_case_witness :
  getBuildingMaterial (toUpperCase "Office") false = getBuildingMaterial "Office" false /\
  getBuildingMaterial (toLowerCase "Office") false = getBuildingMaterial "Office" false /\
  getBuildingMaterial "Office" true = getBuildingMaterial "garage" true.
Proof.
  exact (material_ignores_case "Office" "garage" false eq_refl).
Defined.

End MaterialProps.

Section ReadBackProps.
Local Open Scope R_scope.

Lemma digit_not_minus (c : ascii) (r : list ascii) :
  isDigit c = true ->
  match c :: r with
  | "-"%char :: r' => (["-"%char], r')
  | _ => ([], c :: r)
  end = ([], c :: r).
Proof. destruct c as [[] [] [] [] [] [] [] []]; vm_compute; congruence. Qed.

(** [matchNumber] reads a decimal text in full when what follows it is
    neither a digit nor a point. *)
Lemma matchNumber_numberText (neg : bool) (int frac rest : list ascii) :
  int <> [] -> digits int -> digits frac ->
  match rest with
  | c :: _ => isDigit c = false /\ c <> "."%char
  | [] => True
  end ->
  matchNumber (numberText neg int frac ++ rest) = Some (numberText neg int frac, rest).
Proof.
  intros Hne Hint Hfrac Hrest. unfold matchNumber, numberText.
  destruct int as [|d int]; [done|]. clear Hne.
  assert (Hd : isDigit d = true).
  { unfold digits in Hint. simpl in Hint. by apply andb_true_iff in Hint as [? _]. }
  assert (Hstop : stopsDigits rest) by (destruct rest; [done|by destruct Hrest]).
  set (tail := match frac with [] => [] | _ => "."%char :: frac end ++ rest).
  assert (Htail : stopsDigits tail) by (unfold tail; by destruct frac).
  assert (Hspan : spanDigits (d :: int ++ tail) = (d :: int, tail))
    by exact (spanDigits_app (d :: int) _ Hint Htail).
  assert (Hlist : forall sign : list ascii,
             (sign ++ (d :: int) ++ match frac with [] => [] | _ => "."%char :: frac end) ++ rest
             = sign ++ d :: int ++ tail).
  { intros sign. unfold tail. by rewrite <- !app_assoc. }
  rewrite Hlist.
  assert (Hsign : match (if neg then ["-"%char] else []) ++ d :: int ++ tail with
                  | "-"%char :: r => (["-"%char], r)
                  | _ => ([], (if neg then ["-"%char] else []) ++ d :: int ++ tail)
                  end = (if neg then ["-"%char] else [], d :: int ++ tail)).
  { destruct neg; [reflexivity|]. cbn [app]. by apply digit_not_minus. }
  rewrite Hsign, Hspan. unfold tail.
  destruct frac as [|f frac].
  - cbn [app]. rewrite app_nil_r.
    destruct rest as [|c r]; [reflexivity|]. destruct Hrest as [_ Hc].
    destruct c as [[] [] [] [] [] [] [] []]; try reflexivity. done.
  - assert (Hsp : spanDigits (f :: frac ++ rest) = (f :: frac, rest))
      by exact (spanDigits_app (f :: frac) rest Hfrac Hstop).
    cbn [app]. rewrite Hsp. reflexivity.
Qed.

Lemma numberText_head (neg : bool) (int frac : list ascii) :
  int <> [] -> digits int ->
  exists c r, numberText neg int frac = c :: r /\ isSpace c = false.
Proof.
  intros Hne Hint. unfold numberText. destruct neg.
  - eexists _, _. split; reflexivity.
  - destruct int as [|d int]; [done|]. exists d. eexists. split; [reflexivity|].
    apply digit_not_space. unfold digits in Hint. simpl in Hint.
    by apply andb_true_iff in Hint as [? _].
Qed.

Lemma skipSpaces_last (xs : list ascii) (c : ascii) :
  isSpace c = false -> skipSpaces (xs ++ [c]) <> [].
Proof.
  intros Hc. induction xs as [|x xs IH]; cbn [app skipSpaces].
  - by rewrite Hc.
  - by destruct (isSpace x).
Qed.

(** A text that starts with a character other than white space is not blank. *)
Lemma not_blank (t : string) (c : ascii) (r : list ascii) :
  chars t = c :: r -> isSpace c = false -> isBlank t = false.
Proof.
  intros Ht Hc. unfold isBlank, trim, trimChars. rewrite Ht. cbn [skipSpaces]. rewrite Hc.
  apply orb_false_intro.
  - apply String.eqb_neq. intros ->. discriminate Ht.
  - apply String.eqb_neq. intros Hs. apply (f_equal chars) in Hs. rewrite chars_str in Hs.
    cbn [rev] in Hs. change (chars "") with (@nil ascii) in Hs.
    apply (f_equal (@rev ascii)) in Hs. rewrite rev_involutive in Hs. cbn [rev] in Hs.
    by apply (skipSpaces_last (rev r) c Hc).
Qed.

(** The text "a, b" of two decimal texts matches [LATLON_RE] with the groups [a] and [b]. *)
Lemma matchLatLon_pair (a b : string) :
  decimalText a -> decimalText b ->
  isBlank (a ++ ", " ++ b) = false /\
  matchLatLon (a ++ ", " ++ b) = Some (a, b) /\
  exists la lo, parseFloat a = Some la /\ parseFloat b = Some lo.
Proof.
  intros (n1 & i1 & f1 & Hne1 & Hi1 & Hf1 & Ha) (n2 & i2 & f2 & Hne2 & Hi2 & Hf2 & Hb).
  destruct (numberText_head n1 i1 f1 Hne1 Hi1) as (c1 & r1 & Hc1 & Hs1).
  destruct (numberText_head n2 i2 f2 Hne2 Hi2) as (c2 & r2 & Hc2 & Hs2).
  assert (Hchars : chars (a ++ ", " ++ b)
                   = numberText n1 i1 f1 ++ ","%char :: " "%char :: numberText n2 i2 f2).
  { rewrite !chars_append, Ha, Hb. reflexivity. }
  split; [|split].
  - apply (not_blank _ c1 (r1 ++ ","%char :: " "%char :: numberText n2 i2 f2)); [|done].
    rewrite Hchars, Hc1. reflexivity.
  - unfold matchLatLon. rewrite Hchars.
    assert (Hskip1 : skipSpaces (numberText n1 i1 f1 ++ ","%char :: " "%char :: numberText n2 i2 f2)
                     = numberText n1 i1 f1 ++ ","%char :: " "%char :: numberText n2 i2 f2).
    { rewrite Hc1. cbn [app skipSpaces]. by rewrite Hs1. }
    rewrite Hskip1, matchNumber_numberText by (try done; by split).
    assert (Hskip2 : skipSpaces (numberText n2 i2 f2) = numberText n2 i2 f2).
    { rewrite Hc2. cbn [skipSpaces]. by rewrite Hs2. }
    assert (Hcomma : skipSpaces (","%char :: " "%char :: numberText n2 i2 f2)
                     = ","%char :: " "%char :: numberText n2 i2 f2) by reflexivity.
    assert (Hblankc : skipSpaces (" "%char :: numberText n2 i2 f2) = numberText n2 i2 f2)
      by exact Hskip2.
    rewrite Hcomma. cbv beta iota. rewrite Hblankc.
    rewrite <- (app_nil_r (numberText n2 i2 f2)) at 1.
    rewrite matchNumber_numberText by done. cbn [skipSpaces].
    by rewrite <- Ha, <- Hb, !str_chars.
  - exists (decimalValue n1 i1 f1 0), (decimalValue n2 i2 f2 0).
    rewrite <- (str_chars a), <- (str_chars b), Ha, Hb.
    split; by apply parseFloat_numberText.
Qed.

(** X27.  The query text "Center" writes is read back by "Fetch" as a
    literal pair: when the resolved coordinates print as plain decimal
    numbers, the new query matches the latitude-longitude pattern with
    exactly the two printed numbers, resolving it needs no request, and the
    "Fetch" that follows makes no Nominatim request. *)
Theorem located_query_reads_back (w : World) (s : AppState) (p : LatLon) (log : list Event) :
  run (resolveLocationString w (locQuery s) (stLat s) (stLon s)) = (log, Ok p) ->
  decimalText (toFixed6 w (lat p)) -> decimalText (toFixed6 w (lon p)) ->
  let s' := applyUpdates s (handleLocate w s).2 in
  matchLatLon (locQuery s') = Some (toFixed6 w (lat p), toFixed6 w (lon p)) /\
  (exists la lo,
     parseFloat (toFixed6 w (lat p)) = Some la /\ parseFloat (toFixed6 w (lon p)) = Some lo /\
     run (resolveLocationString w (locQuery s') (stLat s') (stLon s'))
     = ([], Ok (mkLatLon la lo))) /\
  geocodesOf (handleRender w s').1 = [].
Proof.
  intros Hrun Hlat Hlon s'.
  assert (Hquery : locQuery s' = (toFixed6 w (lat p) ++ ", " ++ toFixed6 w (lon p))%string).
  { subst s'. unfold handleLocate. rewrite Hrun. reflexivity. }
  destruct (matchLatLon_pair _ _ Hlat Hlon) as (Hblank & Hmatch & la & lo & Hla & Hlo).
  assert (Hres : run (resolveLocationString w (locQuery s') (stLat s') (stLon s'))
                 = ([], Ok (mkLatLon la lo))).
  { unfold run, resolveLocationString. rewrite Hquery, Hblank, Hmatch, Hla, Hlo. reflexivity. }
  split; [by rewrite Hquery|]. split; [by exists la, lo|].
  unfold handleRender. rewrite Hres.
  destruct (fetch_log w la lo (size s') []) as (lf & r2 & Hfetch & Hgeo & _).
  cbn [lat lon]. rewrite Hfetch. exact Hgeo.
Qed.

(** X27 in a world that prints two fixed texts. *)
Lemma located_query_reads_back_witness :
  matchLatLon
    (locQuery (applyUpdates stateAtOrigin
                 (handleLocate (mkWorld (fun _ _ => Thrown "Failed to fetch")
                                        (fun _ => Thrown "Failed to fetch")
                                        (fun _ _ _ => Thrown "Invalid code")
                                        (fun _ => Thrown "Invalid code")
                                        (fun _ => false) (fun _ => 0.5)
                                        (fun _ => "52.500000"%string))
                               stateAtOrigin).2))
  = Some ("52.500000"%string, "52.500000"%string).
Proof.
  destruct resolve_literal_pair as (la & lo & Hres & _).
  assert (Hrun : exists p,
             run (resolveLocationString
                    (mkWorld (fun _ _ => Thrown "Failed to fetch")
                             (fun _ => Thrown "Failed to fetch")
                             (fun _ _ _ => Thrown "Invalid code")
                             (fun _ => Thrown "Invalid code")
                             (fun _ => false) (fun _ => 0.5)
                             (fun _ => "52.500000"%string))
                    (locQuery stateAtOrigin) (stLat stateAtOrigin) (stLon stateAtOrigin))
             = ([], Ok p)).
  { exists (mkLatLon la lo). exact Hres. }
  destruct Hrun as [p Hrun].
  assert (Hdec : decimalText "52.500000").
  { exists false, (chars "52"), (chars "500000"). repeat split; done. }
  exact (proj1 (located_query_reads_back _ stateAtOrigin p [] Hrun Hdec Hdec)).
Defined.

End ReadBackProps.

Section LevelProps.
Local Open Scope R_scope.

Lemma digit_not_x (c : ascii) : isDigit c = true -> Ascii.eqb (toLowerChar c) "x" = false.
Proof. destruct c as [[] [] [] [] [] [] [] []]; vm_compute; congruence. Qed.

Lemma readDecimal_digits (ds : list ascii) :
  ds <> [] -> digits ds -> Card.readDecimal ds = Some (digitsVal ds).
Proof.
  intros Hne Hds. unfold Card.readDecimal.
  rewrite <- (app_nil_r ds) at 1. rewrite spanDigits_app by done.
  by destruct ds.
Qed.

(** [parseInt] reads a text of decimal digits as the number they spell. *)
Lemma parseInt_digits (ds : list ascii) :
  ds <> [] -> digits ds -> Card.parseInt (str ds) = Some (digitsVal ds).
Proof.
  intros Hne Hds. pose proof (readDecimal_digits ds Hne Hds) as Hread.
  unfold Card.parseInt. rewrite chars_str.
  destruct ds as [|d ds]; [done|].
  assert (Hd : isDigit d = true).
  { unfold digits in Hds. simpl in Hds. by apply andb_true_iff in Hds as [? _]. }
  cbn [skipSpaces]. rewrite (digit_not_space d Hd), digit_not_sign by done.
  assert (Hmag : match d :: ds with
                 | "0"%char :: x :: r =>
                     if Ascii.eqb (toLowerChar x) "x" then Card.readHex r None
                     else Card.readDecimal (d :: ds)
                 | _ => Card.readDecimal (d :: ds)
                 end = Card.readDecimal (d :: ds)).
  { destruct ds as [|x r].
    - by destruct d as [[] [] [] [] [] [] [] []].
    - assert (Hx : isDigit x = true).
      { unfold digits in Hds. simpl in Hds.
        apply andb_true_iff in Hds as [_ Hds]. by apply andb_true_iff in Hds as [? _]. }
      destruct d as [[] [] [] [] [] [] [] []]; try reflexivity.
      by rewrite (digit_not_x x Hx). }
  rewrite Hmag, Hread. reflexivity.
Qed.

(** X28.  A level count written as plain decimal digits that spell a number
    up to [MAX_SAFE_INTEGER] is read alike by the fetcher and by the card:
    the card sends the number the digits spell, and, without a height tag,
    the footprint's height is three times that number clamped to [3, 60]. *)
Theorem level_count_read_alike (w : World) (i : nat) (tags : Tags) (ds : list ascii)
    (lat lon height : R) :
  ds <> [] -> digits ds -> (digitsVal ds <= MAX_SAFE_INTEGER)%Z ->
  tags !! "building:levels"%string = Some (str ds) -> truthyTag tags "height" = None ->
  Ai.levels (Card.buildingData lat lon height tags) = Some (digitsVal ds) /\
  heightFromTags w i tags = Rmax 3 (Rmin 60 (IZR (digitsVal ds) * 3)).
Proof.
  intros Hne Hds _ Hlevels Hheight.
  assert (Htag : truthyTag tags "building:levels" = Some (str ds)).
  { unfold truthyTag. rewrite Hlevels.
    destruct (String.eqb_spec (str ds) ""); [|done].
    exfalso. apply Hne. rewrite <- (chars_str ds). by rewrite e. }
  split.
  - unfold Card.buildingData. cbn [Ai.levels]. rewrite Htag. by apply parseInt_digits.
  - unfold heightFromTags. rewrite Hheight, Htag.
    pose proof (parseFloat_numberText false ds [] Hne Hds eq_refl) as Hparse.
    unfold numberText in Hparse. cbn [app] in Hparse. rewrite app_nil_r in Hparse.
    rewrite Hparse. unfold decimalValue. cbn [length pow digitsVal fold_left powerRZ].
    do 3 f_equal. field.
Qed.

(** X28 for a building of 12 levels. *)
Lemma level_count_read_alike_witness :
  Ai.levels (Card.buildingData 52.5 13.4 36 {[ "building:levels"%string := "12"%string ]})
  = Some 12%Z /\
  heightFromTags worldOk 0 {[ "building:levels"%string := "12"%string ]}
  = Rmax 3 (Rmin 60 (IZR 12 * 3)).
Proof.
  apply (level_count_read_alike worldOk 0 {[ "building:levels"%string := "12"%string ]}
           (chars "12") 52.5 13.4 36); [done|done|by vm_compute|done|done].
Defined.

End LevelProps.

Section ContextProps.

Lemma append_empty_r (s : string) : (s +:+ "")%string = s.
Proof.
  induction s as [|c s IH]; [done|].
  change (String c (s +:+ "") = String c s). by f_equal.
Qed.

Lemma append_assoc (a b c : string) : ((a +:+ b) +:+ c)%string = (a +:+ b +:+ c)%string.
Proof.
  induction a as [|x a IH]; [done|].
  change (String x ((a +:+ b) +:+ c) = String x (a +:+ b +:+ c)). by f_equal.
Qed.

Lemma join_head (sep p : string) (rest : list string) :
  exists tail, Ai.join sep (p :: rest) = (p +:+ tail)%string.
Proof.
  unfold Ai.join. revert p. induction rest as [|q rest IH]; intros p; cbn [fold_left].
  - exists ""%string. symmetry. apply append_empty_r.
  - destruct (IH (p +:+ sep +:+ q)%string) as [tail ->].
    exists (sep +:+ q +:+ tail)%string. by rewrite !append_assoc.
Qed.

(** X29.  The context text sent to the language model always opens with
    "Building type: " and the building type, whatever else is known of the
    building, and always ends with a full stop. *)
Theorem context_opens_with_building_type (llm : Ai.Llm) (building : Ai.BuildingInfo) :
  exists tail,
    Ai.createBuildingContext llm building
    = ("Building type: " +:+ Ai.building_type building +:+ tail +:+ ".")%string.
Proof.
  unfold Ai.createBuildingContext. cbv zeta.
  set (head := ("Building type: " +:+ Ai.building_type building)%string).
  assert (Hparts : forall parts0 : list string,
             (exists rest, parts0 = head :: rest) ->
             exists rest,
               fold_left (fun acc tag =>
                            match Ai.truthy (Ai.tags building !! tag) with
                            | Some v => acc ++ [Ai.capitalizeWords tag +:+ ": " +:+ v]
                            | None => acc
                            end) Ai.interestingTags parts0 = head :: rest).
  { generalize Ai.interestingTags. intros l. induction l as [|tag l IH]; intros parts0 Hp.
    - exact Hp.
    - cbn [fold_left]. apply IH. destruct Hp as [rest ->].
      destruct (Ai.truthy _); eexists; reflexivity. }
  match goal with
  | |- context [fold_left _ Ai.interestingTags ?p] =>
      destruct (Hparts p) as [rest ->]
  end.
  - destruct (Ai.truthy (Ai.name building)); destruct (Ai.truthy (Ai.addr_street building));
      destruct (Ai.height building) as [h|]; try destruct (Req_EM_T h 0%R);
      destruct (Ai.levels building) as [l|]; try destruct (l =? 0)%Z;
      eexists; reflexivity.
  - destruct (join_head ". " head rest) as [tail ->]. exists tail.
    unfold head. by rewrite !append_assoc.
Qed.

End ContextProps.
